(** * video_tool: the pipeline orchestration core, embedded and verified

    Shallow embedding of the C++ sources under [core/cpp/video]:
    the bundled [nlohmann::json] value type, the job model
    ([VideoJob], [OperationDescriptor]), [JobManager], the four
    [IVideoOperation] implementations, [FfmpegAdapter] and
    [VideoPipelineEngine].

    C++ exceptions are an explicit [Throw] outcome.  Calls that leave the
    program (FFmpeg, OpenCV, the logger, the config file) are recorded in
    an event log, so that ordering and resource properties can be stated
    on what the program did. *)

From Stdlib Require Import ZArith QArith Lia Ascii.
From stdpp Require Import gmap strings list pretty.

Set Warnings "-register-all".
Local Open Scope Z_scope.


(** ** Exceptions and outcomes *)

(** The exception classes the sources can raise; all derive from
    [std::exception], which is what [main] catches. *)
Inductive exn : Type :=
| runtime_error (what : string)
| out_of_range (what : string)
| bad_variant_access.

(** [what()], with the texts of libstdc++. *)
Definition what (e : exn) : string :=
  match e with
  | runtime_error w => w
  | out_of_range w => w
  | bad_variant_access => "std::get: wrong index for variant"
  end.

Inductive outcome (A : Type) : Type :=
| Ok (a : A)
| Throw (e : exn).
Arguments Ok {A} a.
Arguments Throw {A} e.

Definition is_ok {A} (o : outcome A) : bool :=
  match o with Ok _ => true | Throw _ => false end.

Definition obind {A B} (m : outcome A) (k : A -> outcome B) : outcome B :=
  match m with
  | Ok a => k a
  | Throw e => Throw e
  end.

Notation "'try!' x ':=' m 'in' k" := (obind m (fun x => k))
  (at level 10, x pattern, m at level 100, k at level 200).

(** A range-based [for] whose body may throw: the first exception leaves
    the loop. *)
Fixpoint omap {A B} (f : A -> outcome B) (l : list A) : outcome (list B) :=
  match l with
  | [] => Ok []
  | x :: rest =>
      try! y := f x in
      try! ys := omap f rest in
      Ok (y :: ys)
  end.

(** ** The bundled JSON value ([third_party/nlohmann/json.hpp]) *)

Module Json.

(** [std::variant<nullptr_t, bool, double, string, vector<json>,
    map<string, json>>].  A finite [double] is carried as the rational
    it denotes. *)
Inductive json : Type :=
| JNull
| JBool (b : bool)
| JNumber (q : Q)
| JString (s : string)
| JArray (a : list json)
| JObject (o : gmap string json).

Definition is_object (j : json) : bool :=
  match j with JObject _ => true | _ => false end.

Definition is_array (j : json) : bool :=
  match j with JArray _ => true | _ => false end.

Definition is_string (j : json) : bool :=
  match j with JString _ => true | _ => false end.

(** [contains]: [false] on anything that is not an object. *)
Definition contains (j : json) (key : string) : bool :=
  match j with
  | JObject o => match o !! key with Some _ => true | None => false end
  | _ => false
  end.

(** [at(key)]: [std::get<object_t>] throws [bad_variant_access] on a
    non-object, [std::map::at] throws [out_of_range] on a missing key. *)
Definition at_ (j : json) (key : string) : outcome json :=
  match j with
  | JObject o =>
      match o !! key with
      | Some v => Ok v
      | None => Throw (out_of_range "map::at")
      end
  | _ => Throw bad_variant_access
  end.

(** [begin()]/[end()] as used by a range-based [for]: the elements of an
    array, an exception on anything else. *)
Definition items (j : json) : outcome (list json) :=
  match j with
  | JArray a => Ok a
  | _ => Throw (runtime_error "not an array")
  end.

Definition get_string (j : json) : outcome string :=
  match j with
  | JString s => Ok s
  | _ => Throw (runtime_error "not a string")
  end.

(** [static_cast<int>(double)] truncates toward zero.  The language
    leaves the conversion of a value outside the range of [int]
    undefined; the conversion instruction of x86-64 then gives
    [INT_MIN]. *)
Definition trunc (q : Q) : Z :=
  let z := Z.quot (Qnum q) (Z.pos (Qden q)) in
  if (- 2 ^ 31 <=? z) && (z <? 2 ^ 31) then z else - 2 ^ 31.

Definition get_int (j : json) : outcome Z :=
  match j with
  | JNumber q => Ok (trunc q)
  | _ => Throw (runtime_error "not a number")
  end.

(** [value(key, default)] at type [std::string] (also the [const char*]
    overload) and at type [int]. *)
Definition value_string (j : json) (key : string) (default_value : string)
  : outcome string :=
  if contains j key then try! v := at_ j key in get_string v
  else Ok default_value.

Definition value_int (j : json) (key : string) (default_value : Z)
  : outcome Z :=
  if contains j key then try! v := at_ j key in get_int v
  else Ok default_value.

(** [j[key] = v] through the non-const [operator[]]: a non-object is
    replaced by an empty object first. *)
Definition set (j : json) (key : string) (v : json) : json :=
  match j with
  | JObject o => JObject (<[key := v]> o)
  | _ => JObject (<[key := v]> ∅)
  end.

End Json.
Import Json.

(** ** Data model ([VideoContext.hpp], [VideoJob.hpp], [ArgsParser.hpp]) *)

Module Core.

Record SubtitleCue := {
  start_ms : Z;
  end_ms : Z;
  text : string }.

Record SubtitleTrack := {
  cues : list SubtitleCue;
  language : string }.

Inductive AVSampleFormat := AV_SAMPLE_FMT_S16.

Record AudioData := {
  bytes : list Z;
  sampleRate : Z;
  channels : Z;
  format : AVSampleFormat }.

(** FFmpeg's view of the input: the codec type of each stream, and the
    packets [av_read_frame] hands out before it reports the end. *)
Inductive AVMediaType :=
| AVMEDIA_TYPE_UNKNOWN
| AVMEDIA_TYPE_VIDEO
| AVMEDIA_TYPE_AUDIO
| AVMEDIA_TYPE_DATA
| AVMEDIA_TYPE_SUBTITLE
| AVMEDIA_TYPE_ATTACHMENT.

Record AVPacket := {
  stream_index : Z;
  payload : list Z }.

Record AVFrame := {
  pts : Z;
  width : Z;
  height : Z;
  data : list Z }.

Record AVFormatContext := {
  streams : list AVMediaType;
  packets : list AVPacket }.

(** The pointers of [VideoContext] are options: [None] is [nullptr].
    An open decoder is identified by the packets sent to it so far. *)
Record VideoContext := {
  inputFormat : option AVFormatContext;
  videoDecoder : option (list AVPacket);
  videoEncoder : option unit;
  outputFormat : option string;
  videoStreamIndex : Z;
  audioStreamIndex : Z;
  subtitleStreamIndex : Z;
  subtitles : SubtitleTrack;
  generatedVoiceover : AudioData }.

(** The member initialisers of the structs. *)
Definition default_track : SubtitleTrack := {| cues := []; language := "" |}.

Definition default_audio : AudioData :=
  {| bytes := []; sampleRate := 48000; channels := 2;
     format := AV_SAMPLE_FMT_S16 |}.

Definition default_context : VideoContext :=
  {| inputFormat := None; videoDecoder := None; videoEncoder := None;
     outputFormat := None;
     videoStreamIndex := -1; audioStreamIndex := -1;
     subtitleStreamIndex := -1;
     subtitles := default_track; generatedVoiceover := default_audio |}.

Definition set_inputFormat v (c : VideoContext) : VideoContext :=
  {| inputFormat := v; videoDecoder := videoDecoder c;
     videoEncoder := videoEncoder c; outputFormat := outputFormat c;
     videoStreamIndex := videoStreamIndex c;
     audioStreamIndex := audioStreamIndex c;
     subtitleStreamIndex := subtitleStreamIndex c;
     subtitles := subtitles c; generatedVoiceover := generatedVoiceover c |}.

Definition set_videoDecoder v (c : VideoContext) : VideoContext :=
  {| inputFormat := inputFormat c; videoDecoder := v;
     videoEncoder := videoEncoder c; outputFormat := outputFormat c;
     videoStreamIndex := videoStreamIndex c;
     audioStreamIndex := audioStreamIndex c;
     subtitleStreamIndex := subtitleStreamIndex c;
     subtitles := subtitles c; generatedVoiceover := generatedVoiceover c |}.

Definition set_videoEncoder v (c : VideoContext) : VideoContext :=
  {| inputFormat := inputFormat c; videoDecoder := videoDecoder c;
     videoEncoder := v; outputFormat := outputFormat c;
     videoStreamIndex := videoStreamIndex c;
     audioStreamIndex := audioStreamIndex c;
     subtitleStreamIndex := subtitleStreamIndex c;
     subtitles := subtitles c; generatedVoiceover := generatedVoiceover c |}.

Definition set_outputFormat v (c : VideoContext) : VideoContext :=
  {| inputFormat := inputFormat c; videoDecoder := videoDecoder c;
     videoEncoder := videoEncoder c; outputFormat := v;
     videoStreamIndex := videoStreamIndex c;
     audioStreamIndex := audioStreamIndex c;
     subtitleStreamIndex := subtitleStreamIndex c;
     subtitles := subtitles c; generatedVoiceover := generatedVoiceover c |}.

Definition set_videoStreamIndex v (c : VideoContext) : VideoContext :=
  {| inputFormat := inputFormat c; videoDecoder := videoDecoder c;
     videoEncoder := videoEncoder c; outputFormat := outputFormat c;
     videoStreamIndex := v;
     audioStreamIndex := audioStreamIndex c;
     subtitleStreamIndex := subtitleStreamIndex c;
     subtitles := subtitles c; generatedVoiceover := generatedVoiceover c |}.

Definition set_audioStreamIndex v (c : VideoContext) : VideoContext :=
  {| inputFormat := inputFormat c; videoDecoder := videoDecoder c;
     videoEncoder := videoEncoder c; outputFormat := outputFormat c;
     videoStreamIndex := videoStreamIndex c;
     audioStreamIndex := v;
     subtitleStreamIndex := subtitleStreamIndex c;
     subtitles := subtitles c; generatedVoiceover := generatedVoiceover c |}.

Definition set_subtitleStreamIndex v (c : VideoContext) : VideoContext :=
  {| inputFormat := inputFormat c; videoDecoder := videoDecoder c;
     videoEncoder := videoEncoder c; outputFormat := outputFormat c;
     videoStreamIndex := videoStreamIndex c;
     audioStreamIndex := audioStreamIndex c;
     subtitleStreamIndex := v;
     subtitles := subtitles c; generatedVoiceover := generatedVoiceover c |}.

Definition set_subtitles v (c : VideoContext) : VideoContext :=
  {| inputFormat := inputFormat c; videoDecoder := videoDecoder c;
     videoEncoder := videoEncoder c; outputFormat := outputFormat c;
     videoStreamIndex := videoStreamIndex c;
     audioStreamIndex := audioStreamIndex c;
     subtitleStreamIndex := subtitleStreamIndex c;
     subtitles := v; generatedVoiceover := generatedVoiceover c |}.

Definition set_generatedVoiceover v (c : VideoContext) : VideoContext :=
  {| inputFormat := inputFormat c; videoDecoder := videoDecoder c;
     videoEncoder := videoEncoder c; outputFormat := outputFormat c;
     videoStreamIndex := videoStreamIndex c;
     audioStreamIndex := audioStreamIndex c;
     subtitleStreamIndex := subtitleStreamIndex c;
     subtitles := subtitles c; generatedVoiceover := v |}.

Record OperationDescriptor := {
  type : string;
  params : json }.

(** [VideoJob]: the constructor only moves its three arguments in. *)
Record VideoJob := {
  input : string;
  output : string;
  operations : list OperationDescriptor }.

(** [cli::ProgramOptions]. *)
Record ProgramOptions := {
  opt_operations : list string;
  opt_input : string;
  opt_output : string;
  configPath : option string;
  subtitleSrcLang : option string;
  subtitleDstLang : option string;
  ttsLang : option string;
  ttsBaseUrl : option string;
  ttsApiKey : option string }.

End Core.
Import Core.

(** ** The OpenCV types the sources use *)

Module cv.

Record Rect := {
  x : Z;
  y : Z;
  width : Z;
  height : Z }.

Record Mat := {
  rows : Z;
  cols : Z;
  pixels : list Z }.

Definition area (r : Rect) : Z := width r * height r.

Definition empty (r : Rect) : bool := (width r <=? 0) || (height r <=? 0).

(** [Rect()]. *)
Definition zero : Rect := {| x := 0; y := 0; width := 0; height := 0 |}.

(** [a & b], rectangle intersection, as OpenCV's [operator&=] computes
    it: the rectangle with the smaller [x] (resp. [y]) is cut at the
    origin of the other one. *)
Definition rect_and (a b : Rect) : Rect :=
  if empty a || empty b then zero
  else
    let Rx_min := if x a <? x b then a else b in
    let Rx_max := if x a <? x b then b else a in
    let Ry_min := if y a <? y b then a else b in
    let Ry_max := if y a <? y b then b else a in
    if ((x Rx_min <? 0) && (x Rx_min + width Rx_min <? x Rx_max))
       || ((y Ry_min <? 0) && (y Ry_min + height Ry_min <? y Ry_max))
    then zero
    else
      let r :=
        {| x := x Rx_max;
           y := y Ry_max;
           width := Z.min (width Rx_min - (x Rx_max - x Rx_min)) (width Rx_max);
           height := Z.min (height Ry_min - (y Ry_max - y Ry_min)) (height Ry_max) |} in
      if empty r then zero else r.

(** In-place kernels keep the matrix header and replace the pixels. *)
Definition set_pixels (px : list Z) (m : Mat) : Mat :=
  {| rows := rows m; cols := cols m; pixels := px |}.

Inductive kernel := KGaussianBlur | KInpaint.

End cv.

(** ** The event log *)

Inductive level := LInfo | LWarn | LError.

Inductive logarg := AStr (s : string) | ANum (n : Z).

(** One event per call that leaves the engine: the logger, the FFmpeg
    handles acquired and released, the adapter's per-packet operations,
    the OpenCV kernels, and the hooks of the operation at a position of
    the chain.  [EvDecodeFrame] carries what [decodeFrame] returned and
    the frame it left behind. *)
Inductive event : Type :=
| EvLog (lvl : level) (fmt : string) (args : list logarg)
| EvOpenInput (path : string) (ok : bool)
| EvAllocOutput (path : string) (ok : bool)
| EvAllocDecoder
| EvFreeDecoder
| EvFreeEncoder
| EvCloseInput
| EvFreeOutput
| EvDecodeFrame (p : AVPacket) (ret : Z) (frame : AVFrame)
| EvEncodeFrame (f : AVFrame)
| EvCopyPacket (p : AVPacket)
| EvFlushEncoder
| EvKernel (k : cv.kernel) (r : cv.Rect)
| EvPrepare (i : nat)
| EvProcessFrame (i : nat) (pts : Z)
| EvFinalize (i : nat).

(** Code that logs and returns: a writer over the log. *)
Definition W (A : Type) : Type := (list event * A)%type.

Definition wret {A} (a : A) : W A := ([], a).

Definition wbind {A B} (m : W A) (k : A -> W B) : W B :=
  let '(l1, a) := m in
  let '(l2, b) := k a in
  (l1 ++ l2, b).

Definition tell (e : event) : W unit := ([e], tt).

Notation "'let*' x ':=' m 'in' k" := (wbind m (fun x => k))
  (at level 10, x pattern, m at level 100, k at level 200).

(** Code that logs and may throw; the log written before the exception
    is kept. *)
Definition Eff (A : Type) : Type := W (outcome A).

Definition eret {A} (a : A) : Eff A := ([], Ok a).

Definition ebind {A B} (m : Eff A) (k : A -> Eff B) : Eff B :=
  let '(l1, r) := m in
  match r with
  | Ok a => let '(l2, b) := k a in (l1 ++ l2, b)
  | Throw e => (l1, Throw e)
  end.

Definition lift_w {A} (m : W A) : Eff A := (m.1, Ok m.2).

Definition lift_o {A} (o : outcome A) : Eff A := ([], o).

Notation "'do!' x ':=' m 'in' k" := (ebind m (fun x => k))
  (at level 10, x pattern, m at level 100, k at level 200).

(** What the program cannot decide by itself. *)
Record Collaborators := {
(** [avformat_open_input]: [None] is a negative return. *)
avformat_open_input : string -> option AVFormatContext;
(** [avformat_alloc_output_context2]: was a context allocated? *)
avformat_alloc_output_context2 : string -> bool;
(** The decoder, as a function of the packets sent so far. *)
avcodec_send_packet : list AVPacket -> AVPacket -> Z;
avcodec_receive_frame : list AVPacket -> Z * AVFrame;
(** The OpenCV kernels: the pixels after the call. *)
GaussianBlur : cv.Rect -> cv.Mat -> list Z;
inpaint : cv.Rect -> cv.Mat -> list Z;
(** [ConfigLoader::loadJson]: the parsed file, or the exception. *)
loadJson : string -> outcome json }.

(** Loops over a vector that update a state: plain, and with the position
    of the element. *)
Fixpoint wfold {A St} (body : A -> St -> W St) (l : list A) (s : St) : W St :=
  match l with
  | [] => wret s
  | a :: rest => let* s1 := body a s in wfold body rest s1
  end.

Fixpoint efold {A St} (body : A -> St -> Eff St) (l : list A) (s : St)
  : Eff St :=
  match l with
  | [] => eret s
  | a :: rest => do! s1 := body a s in efold body rest s1
  end.

Fixpoint wfold_i {A St} (body : nat -> A -> St -> W St) (l : list A)
    (i : nat) (s : St) : W St :=
  match l with
  | [] => wret s
  | a :: rest => let* s1 := body i a s in wfold_i body rest (S i) s1
  end.

#[global] Instance AVMediaType_eq_dec : EqDecision AVMediaType.
Proof. solve_decision. Defined.

(** ** [FfmpegAdapter] *)

Module FfmpegAdapter.
Section WithCollaborators.
Context (env : Collaborators).

(** The loop of [openInput] over the streams; [i] is the index of the
    head of [l]. *)
Fixpoint assign_roles (l : list AVMediaType) (i : Z) (ctx : VideoContext)
  : VideoContext :=
  match l with
  | [] => ctx
  | codec_type :: rest =>
      let ctx1 :=
        if bool_decide (codec_type = AVMEDIA_TYPE_VIDEO)
           && (videoStreamIndex ctx <? 0)
        then set_videoStreamIndex i ctx
        else if bool_decide (codec_type = AVMEDIA_TYPE_AUDIO)
                && (audioStreamIndex ctx <? 0)
        then set_audioStreamIndex i ctx
        else if bool_decide (codec_type = AVMEDIA_TYPE_SUBTITLE)
                && (subtitleStreamIndex ctx <? 0)
        then set_subtitleStreamIndex i ctx
        else ctx in
      assign_roles rest (i + 1) ctx1
  end.

Definition openInput (path : string) (ctx : VideoContext) : Eff VideoContext :=
  match avformat_open_input env path with
  | None =>
      ([EvOpenInput path false],
       Throw (runtime_error ("Failed to open input file: " +:+ path)))
  | Some fmt =>
      ([EvOpenInput path true],
       Ok (assign_roles (streams fmt) 0 (set_inputFormat (Some fmt) ctx)))
  end.

Definition openOutput (path : string) (ctx : VideoContext) : Eff VideoContext :=
  if avformat_alloc_output_context2 env path
  then ([EvAllocOutput path true], Ok (set_outputFormat (Some path) ctx))
  else ([EvAllocOutput path false],
        Throw (runtime_error "Failed to create output format context")).

(** [decodeFrame]: the decoder is allocated (and opened) at the first
    call; a packet the decoder refuses leaves [frame] as it was. *)
Definition decodeFrame (ctx : VideoContext) (packet : AVPacket)
    (frame : AVFrame) : W (VideoContext * Z * AVFrame) :=
  let* sent :=
    match videoDecoder ctx with
    | None => let* _ := tell EvAllocDecoder in wret []
    | Some sent => wret sent
    end in
  let ctx1 := set_videoDecoder (Some (sent ++ [packet])) ctx in
  let ret := avcodec_send_packet env sent packet in
  if ret <? 0 then
    let* _ := tell (EvDecodeFrame packet ret frame) in
    wret (ctx1, ret, frame)
  else
    let '(ret2, decoded) := avcodec_receive_frame env (sent ++ [packet]) in
    let* _ := tell (EvDecodeFrame packet ret2 decoded) in
    wret (ctx1, ret2, decoded).

Definition encodeFrame (ctx : VideoContext) (frame : AVFrame) : W unit :=
  tell (EvEncodeFrame frame).

Definition copyPacketToOutput (ctx : VideoContext) (packet : AVPacket)
  : W unit :=
  tell (EvCopyPacket packet).

Definition flushEncoder (ctx : VideoContext) : W unit :=
  tell EvFlushEncoder.

Definition close (ctx : VideoContext) : W VideoContext :=
  let* ctx1 :=
    match videoDecoder ctx with
    | Some _ => let* _ := tell EvFreeDecoder in wret (set_videoDecoder None ctx)
    | None => wret ctx
    end in
  let* ctx2 :=
    match videoEncoder ctx1 with
    | Some _ => let* _ := tell EvFreeEncoder in wret (set_videoEncoder None ctx1)
    | None => wret ctx1
    end in
  let* ctx3 :=
    match inputFormat ctx2 with
    | Some _ => let* _ := tell EvCloseInput in wret (set_inputFormat None ctx2)
    | None => wret ctx2
    end in
  match outputFormat ctx3 with
  | Some _ => let* _ := tell EvFreeOutput in wret (set_outputFormat None ctx3)
  | None => wret ctx3
  end.

(** [toMat]/[fromMat] copy the packed rows between the frame buffer and
    a matrix of the frame's size. *)
Definition toMat (frame : AVFrame) : cv.Mat :=
  {| cv.rows := height frame; cv.cols := width frame;
     cv.pixels := data frame |}.

Definition fromMat (img : cv.Mat) (frame : AVFrame) : AVFrame :=
  {| pts := pts frame; width := width frame; height := height frame;
     data := cv.pixels img |}.

End WithCollaborators.
End FfmpegAdapter.

(** ** [SubtitleAdapter], [TtsClient], [AudioAdapter] *)

Module SubtitleAdapter.

Definition readSubtitles (ctx : VideoContext) : SubtitleTrack :=
  if subtitleStreamIndex ctx <? 0 then default_track
  else
    {| cues := [ {| start_ms := 0; end_ms := 2000; text := "Hello" |};
                 {| start_ms := 2500; end_ms := 4000; text := "World" |} ];
       language := "und" |}.

Definition writeSubtitles (ctx : VideoContext) : VideoContext := ctx.

Definition removeSubtitleStream (ctx : VideoContext) : VideoContext :=
  set_subtitleStreamIndex (-1) ctx.

End SubtitleAdapter.

Module TtsClient.

Definition synthesize (baseUrl_ apiKey_ : string) (subs : SubtitleTrack)
    (lang : string) : W AudioData :=
  let data :=
    {| bytes := replicate 1024 0; sampleRate := 48000; channels := 2;
       format := AV_SAMPLE_FMT_S16 |} in
  let* _ := tell (EvLog LInfo "Synthesizing voiceover via TTS service at {}"
                    [AStr baseUrl_]) in
  wret data.

End TtsClient.

Module AudioAdapter.

Definition replaceAudio (ctx : VideoContext) (audio : AudioData) : W unit :=
  tell (EvLog LInfo
          "Replacing audio track with synthesized voiceover ({} bytes)"
          [ANum (Z.of_nat (length (bytes audio)))]).

End AudioAdapter.

(** ** The operations ([operations/*.cpp]) *)

Module Operations.

Record WatermarkRegion := {
  x : Z;
  y : Z;
  width : Z;
  height : Z;
  method : string }.

(** The classes that implement [IVideoOperation], each with its private
    members; the hooks below dispatch on the class as the virtual calls
    do. *)
Inductive IVideoOperation : Type :=
| SubtitleTranslateOperation (srcLang_ dstLang_ : string)
| SubtitleRemoveOperation
| WatermarkRemoveOperation (regions_ : list WatermarkRegion)
| VoiceoverReplaceOperation (lang_ baseUrl_ apiKey_ : string).

(** *** Constructors *)

Definition new_SubtitleTranslateOperation (params : json)
  : outcome IVideoOperation :=
  try! srcLang_ := value_string params "src_lang" "auto" in
  try! dstLang_ := value_string params "dst_lang" "auto" in
  Ok (SubtitleTranslateOperation srcLang_ dstLang_).

Definition new_SubtitleRemoveOperation : outcome IVideoOperation :=
  Ok SubtitleRemoveOperation.

Definition read_region (r : json) : outcome WatermarkRegion :=
  try! rx := value_int r "x" 0 in
  try! ry := value_int r "y" 0 in
  try! rw := value_int r "width" 0 in
  try! rh := value_int r "height" 0 in
  try! rm := value_string r "method" "blur" in
  Ok {| x := rx; y := ry; width := rw; height := rh; method := rm |}.

Definition new_WatermarkRemoveOperation (params : json)
  : outcome IVideoOperation :=
  if contains params "regions" then
    try! regions := at_ params "regions" in
    try! rs := items regions in
    try! regions_ := omap read_region rs in
    Ok (WatermarkRemoveOperation regions_)
  else Ok (WatermarkRemoveOperation []).

Definition new_VoiceoverReplaceOperation (params : json)
  : outcome IVideoOperation :=
  try! lang_ := value_string params "lang" "auto" in
  try! baseUrl_ := value_string params "base_url" "" in
  try! apiKey_ := value_string params "api_key" "" in
  Ok (VoiceoverReplaceOperation lang_ baseUrl_ apiKey_).

(** *** [SubtitleTranslateOperation] *)

Definition translate (text src dst : string) : string :=
  "[" +:+ dst +:+ "] " +:+ text.

Definition translate_cue (src dst : string) (cue : SubtitleCue) : SubtitleCue :=
  {| start_ms := start_ms cue; end_ms := end_ms cue;
     text := translate (text cue) src dst |}.

Definition SubtitleTranslate_prepare (srcLang_ dstLang_ : string)
    (ctx : VideoContext) : VideoContext :=
  let track := SubtitleAdapter.readSubtitles ctx in
  set_subtitles
    {| cues := map (translate_cue srcLang_ dstLang_) (cues track);
       language := dstLang_ |} ctx.

Definition SubtitleTranslate_finalize (ctx : VideoContext) : VideoContext :=
  SubtitleAdapter.writeSubtitles ctx.

(** *** [SubtitleRemoveOperation] *)

Definition SubtitleRemove_prepare (ctx : VideoContext) : VideoContext :=
  let ctx1 :=
    set_subtitles {| cues := []; language := language (subtitles ctx) |} ctx in
  let ctx2 := set_subtitleStreamIndex (-1) ctx1 in
  SubtitleAdapter.removeSubtitleStream ctx2.

Section WithCollaborators.
Context (env : Collaborators).

(** *** [WatermarkRemoveOperation] *)

Definition apply_region (r : WatermarkRegion) (img : cv.Mat) : W cv.Mat :=
  let rect :=
    cv.rect_and
      {| cv.x := x r; cv.y := y r;
         cv.width := width r; cv.height := height r |}
      {| cv.x := 0; cv.y := 0;
         cv.width := cv.cols img; cv.height := cv.rows img |} in
  if cv.area rect <=? 0 then wret img
  else if String.eqb (method r) "inpaint" then
    let* _ := tell (EvKernel cv.KInpaint rect) in
    wret (cv.set_pixels (inpaint env rect img) img)
  else
    let* _ := tell (EvKernel cv.KGaussianBlur rect) in
    wret (cv.set_pixels (GaussianBlur env rect img) img).

Definition apply (regions_ : list WatermarkRegion) (img : cv.Mat)
  : W cv.Mat :=
  wfold apply_region regions_ img.

Definition WatermarkRemove_processFrame (regions_ : list WatermarkRegion)
    (frame : AVFrame) : W AVFrame :=
  match regions_ with
  | [] => wret frame
  | _ =>
      let img := FfmpegAdapter.toMat frame in
      let* img1 := apply regions_ img in
      wret (FfmpegAdapter.fromMat img1 frame)
  end.

(** *** [VoiceoverReplaceOperation] *)

Definition VoiceoverReplace_prepare (lang_ baseUrl_ apiKey_ : string)
    (ctx : VideoContext) : W VideoContext :=
  let* audio :=
    TtsClient.synthesize baseUrl_ apiKey_ (subtitles ctx) lang_ in
  wret (set_generatedVoiceover audio ctx).

Definition VoiceoverReplace_finalize (ctx : VideoContext) : W VideoContext :=
  let* _ := AudioAdapter.replaceAudio ctx (generatedVoiceover ctx) in
  wret ctx.

(** *** The virtual hooks *)

Definition prepare (op : IVideoOperation) (ctx : VideoContext)
  : W VideoContext :=
  match op with
  | SubtitleTranslateOperation src dst =>
      wret (SubtitleTranslate_prepare src dst ctx)
  | SubtitleRemoveOperation => wret (SubtitleRemove_prepare ctx)
  | WatermarkRemoveOperation _ => wret ctx
  | VoiceoverReplaceOperation lang url key =>
      VoiceoverReplace_prepare lang url key ctx
  end.

Definition processFrame (op : IVideoOperation) (ctx : VideoContext)
    (frame : AVFrame) (pts : Z) : W (VideoContext * AVFrame) :=
  match op with
  | WatermarkRemoveOperation regions_ =>
      let* frame1 := WatermarkRemove_processFrame regions_ frame in
      wret (ctx, frame1)
  | _ => wret (ctx, frame)
  end.

Definition finalize (op : IVideoOperation) (ctx : VideoContext)
  : W VideoContext :=
  match op with
  | SubtitleTranslateOperation _ _ => wret (SubtitleTranslate_finalize ctx)
  | VoiceoverReplaceOperation _ _ _ => VoiceoverReplace_finalize ctx
  | _ => wret ctx
  end.

End WithCollaborators.
End Operations.

(** ** [VideoPipelineEngine] *)

Module VideoPipelineEngine.
Section WithCollaborators.
Context (env : Collaborators).

Import Operations.

Definition initialize (job_ : VideoJob) (ctx_ : VideoContext)
  : Eff VideoContext :=
  do! ctx1 := FfmpegAdapter.openInput env (input job_) ctx_ in
  FfmpegAdapter.openOutput env (output job_) ctx1.

(** One turn of the loop of [buildOperations] on the vector
    [operations_]. *)
Definition build_one (op : OperationDescriptor)
    (operations_ : list IVideoOperation) : Eff (list IVideoOperation) :=
  if String.eqb (type op) "subtitles_translate" then
    do! o := lift_o (new_SubtitleTranslateOperation (params op)) in
    eret (operations_ ++ [o])
  else if String.eqb (type op) "subtitles_remove" then
    do! o := lift_o new_SubtitleRemoveOperation in
    eret (operations_ ++ [o])
  else if String.eqb (type op) "watermark_remove" then
    do! o := lift_o (new_WatermarkRemoveOperation (params op)) in
    eret (operations_ ++ [o])
  else if String.eqb (type op) "voiceover" then
    do! o := lift_o (new_VoiceoverReplaceOperation (params op)) in
    eret (operations_ ++ [o])
  else
    ([EvLog LWarn "Unknown operation type: {}" [AStr (type op)]],
     Ok operations_).

Definition buildOperations (job_ : VideoJob)
    (operations_ : list IVideoOperation) : Eff (list IVideoOperation) :=
  efold build_one (operations job_) operations_.

(** [av_frame_alloc()]: an empty frame, [pts] at [AV_NOPTS_VALUE]. *)
Definition av_frame_alloc : AVFrame :=
  {| pts := - 2 ^ 63; Core.width := 0; Core.height := 0; data := [] |}.

Definition prepare_all (operations_ : list IVideoOperation)
    (ctx_ : VideoContext) : W VideoContext :=
  wfold_i (fun i op ctx =>
             let* _ := tell (EvPrepare i) in prepare op ctx)
          operations_ 0%nat ctx_.

Definition process_all (operations_ : list IVideoOperation)
    (ctx_ : VideoContext) (frame : AVFrame) (pts : Z)
  : W (VideoContext * AVFrame) :=
  wfold_i (fun i op st =>
             let* _ := tell (EvProcessFrame i pts) in
             processFrame env op st.1 st.2 pts)
          operations_ 0%nat (ctx_, frame).

Definition finalize_all (operations_ : list IVideoOperation)
    (ctx_ : VideoContext) : W VideoContext :=
  wfold_i (fun i op ctx =>
             let* _ := tell (EvFinalize i) in finalize op ctx)
          operations_ 0%nat ctx_.

(** The body of the [while] loop of [processFrames], for the packet
    [av_read_frame] has just returned. *)
Definition process_packet (operations_ : list IVideoOperation)
    (packet : AVPacket) (ctx_ : VideoContext) : W VideoContext :=
  if stream_index packet =? videoStreamIndex ctx_ then
    let* decoded :=
      FfmpegAdapter.decodeFrame env ctx_ packet av_frame_alloc in
    let '(ctx1, ret, frame) := decoded in
    if ret >=? 0 then
      let pts := pts frame in
      let* processed := process_all operations_ ctx1 frame pts in
      let '(ctx2, frame1) := processed in
      let* _ := FfmpegAdapter.encodeFrame ctx2 frame1 in
      wret ctx2
    else wret ctx1
  else if stream_index packet =? audioStreamIndex ctx_ then
    let* _ := FfmpegAdapter.copyPacketToOutput ctx_ packet in
    wret ctx_
  else wret ctx_.

(** The packets [av_read_frame] returns until its first negative
    result.  The input is open whenever the loop runs: [initialize]
    throws otherwise. *)
Definition input_packets (ctx_ : VideoContext) : list AVPacket :=
  match inputFormat ctx_ with
  | Some fmt => packets fmt
  | None => []
  end.

Definition read_loop (operations_ : list IVideoOperation)
    (pkts : list AVPacket) (ctx_ : VideoContext) : W VideoContext :=
  wfold (process_packet operations_) pkts ctx_.

Definition processFrames (operations_ : list IVideoOperation)
    (ctx_ : VideoContext) : W VideoContext :=
  let* ctx1 := prepare_all operations_ ctx_ in
  let* ctx2 := read_loop operations_ (input_packets ctx1) ctx1 in
  let* _ := FfmpegAdapter.flushEncoder ctx2 in
  finalize_all operations_ ctx2.

Definition shutdown (ctx_ : VideoContext) : W VideoContext :=
  FfmpegAdapter.close ctx_.

(** [run] on an engine just constructed for [job_]: [ctx_] has its
    member initialisers and [operations_] is empty. *)
Definition run (job_ : VideoJob) : Eff unit :=
  do! ctx1 := initialize job_ default_context in
  do! operations_ := buildOperations job_ [] in
  do! ctx2 := lift_w (processFrames operations_ ctx1) in
  do! _ := lift_w (shutdown ctx2) in
  eret tt.

End WithCollaborators.
End VideoPipelineEngine.

(** ** [JobManager] and [main] *)

Module JobManager.
Section WithCollaborators.
Context (env : Collaborators).

Record JobManager := {
  options_ : ProgramOptions;
  config_ : json }.

(** The constructor: [loadConfig] reads the file when a path was given;
    [config_] is a null value otherwise. *)
Definition new (options : ProgramOptions) : outcome JobManager :=
  match configPath options with
  | Some path =>
      try! cfg := loadJson env path in
      Ok {| options_ := options; config_ := cfg |}
  | None => Ok {| options_ := options; config_ := JNull |}
  end.

Definition cli_params (options : ProgramOptions) (op : string) : json :=
  if String.eqb op "subtitles_translate" then
    let p1 := Json.set JNull "src_lang"
                (JString (default "auto" (subtitleSrcLang options))) in
    Json.set p1 "dst_lang" (JString (default "auto" (subtitleDstLang options)))
  else if String.eqb op "voiceover" then
    let p1 := Json.set JNull "lang"
                (JString (default "auto" (ttsLang options))) in
    let p2 := Json.set p1 "base_url"
                (JString (default "" (ttsBaseUrl options))) in
    Json.set p2 "api_key" (JString (default "" (ttsApiKey options)))
  else JNull.

Definition buildJobFromCli (m : JobManager) : VideoJob :=
  let ops :=
    map (fun op => {| type := op; params := cli_params (options_ m) op |})
        (opt_operations (options_ m)) in
  {| input := opt_input (options_ m);
     output := opt_output (options_ m);
     operations := ops |}.

Definition read_descriptor (op : json) : outcome OperationDescriptor :=
  try! t := at_ op "type" in
  try! ty := get_string t in
  Ok {| type := ty; params := op |}.

Definition buildJobFromConfig (m : JobManager) (jobCfg : json)
  : outcome VideoJob :=
  try! ops :=
    (if contains jobCfg "operations" then
       try! arr := at_ jobCfg "operations" in
       try! elems := items arr in
       omap read_descriptor elems
     else Ok []) in
  try! input := value_string jobCfg "input" (opt_input (options_ m)) in
  try! output := value_string jobCfg "output" (opt_output (options_ m)) in
  Ok {| input := input; output := output; operations := ops |}.

Definition buildJobs (m : JobManager) : outcome (list VideoJob) :=
  if bool_decide (is_Some (configPath (options_ m))) && is_object (config_ m)
  then
    if contains (config_ m) "jobs" then
      try! arr := at_ (config_ m) "jobs" in
      try! elems := items arr in
      omap (buildJobFromConfig m) elems
    else
      try! job := buildJobFromConfig m (config_ m) in
      Ok [job]
  else Ok [buildJobFromCli m].

Definition run_job (job : VideoJob) (_ : unit) : Eff unit :=
  do! _ := lift_w (tell (EvLog LInfo "Processing job: {} -> {}"
                           [AStr (input job); AStr (output job)])) in
  VideoPipelineEngine.run env job.

Definition run (jobs : list VideoJob) : Eff unit :=
  efold run_job jobs tt.

(** [main], after [ArgsParser::parse] has produced the options: the
    process exit code, and the log. *)
Definition main (options : ProgramOptions) : W Z :=
  let '(log, r) :=
    (do! manager := lift_o (new options) in
     do! jobs := lift_o (buildJobs manager) in
     run jobs) in
  match r with
  | Ok _ => (log, 0)
  | Throw ex => (log ++ [EvLog LError "Fatal error: {}" [AStr (what ex)]], 1)
  end.

End WithCollaborators.
End JobManager.

(** ** [ArgsParser::parse]: the list given to [--type] *)

Module ArgsParser.

(** [std::getline(ss, item, ',')] on the rest [ss] of the stream: the
    characters up to the next comma, which is consumed, or up to the end;
    it fails, and ends the loop, when nothing is left to extract. *)
Fixpoint getline_from (ss : string) (item : string) : string * string :=
  match ss with
  | EmptyString => (item, EmptyString)
  | String c rest =>
      if Ascii.eqb c ","%char then (item, rest)
      else getline_from rest (item +:+ String c EmptyString)
  end.

Definition getline (ss : string) : option (string * string) :=
  match ss with
  | EmptyString => None
  | _ => Some (getline_from ss EmptyString)
  end.

Definition empty (s : string) : bool :=
  match s with EmptyString => true | _ => false end.

(** The [while] loop; every turn consumes at least one character, so
    [fuel] beyond the length of the stream is never used. *)
Fixpoint read_items (fuel : nat) (ss : string) (operations : list string)
  : list string :=
  match fuel with
  | O => operations
  | S fuel' =>
      match getline ss with
      | None => operations
      | Some (item, rest) =>
          read_items fuel' rest
            (if empty item then operations else operations ++ [item])
      end
  end.

(** The value of [opts.operations] for the string CLI11 stored in
    [operationsStr]. *)
Definition parse_operations (operationsStr : string) : list string :=
  if empty operationsStr then []
  else read_items (S (String.length operationsStr)) operationsStr [].

End ArgsParser.

(** ** [Timecode::toString] *)

Module Timecode.

(** [static_cast<int>] of a 64-bit value: reduction modulo [2^32] into
    the signed range. *)
Definition to_int (z : Z) : Z := (z + 2 ^ 31) mod 2 ^ 32 - 2 ^ 31.

Fixpoint fill_string (n : nat) (fill : ascii) : string :=
  match n with
  | O => EmptyString
  | S n' => String fill (fill_string n' fill)
  end.

(** [os << std::setw(w) << std::setfill(c) << n]: the decimal digits of
    [n], with its sign, filled on the left up to the width. *)
Definition setw_fill (w : nat) (fill : ascii) (n : Z) : string :=
  let digits := pretty n in
  fill_string (w - String.length digits) fill +:+ digits.

(** [/] and [%] of C++ truncate toward zero. *)
Definition toString (ms : Z) : string :=
  let totalSeconds := Z.quot ms 1000 in
  let hours := to_int (Z.quot totalSeconds 3600) in
  let minutes := to_int (Z.quot (Z.rem totalSeconds 3600) 60) in
  let seconds := to_int (Z.rem totalSeconds 60) in
  let milliseconds := to_int (Z.rem ms 1000) in
  setw_fill 2 "0"%char hours +:+ ":"
  +:+ setw_fill 2 "0"%char minutes +:+ ":"
  +:+ setw_fill 2 "0"%char seconds +:+ ","
  +:+ setw_fill 3 "0"%char milliseconds.

End Timecode.

(** ** [FfmpegAdapter::toMat] and [fromMat] on the bytes

    The two row loops over the buffers themselves: plane 0 of the frame
    with its [linesize], the matrix with its [step]. [FfmpegAdapter.toMat]
    and [FfmpegAdapter.fromMat] above are these loops on a frame without
    row padding. *)

Module PixelBuffers.

(** [int * int]: the product when it fits an [int]; overflow is undefined. *)
Definition mul_int (a b : Z) : option Z :=
  let r := a * b in
  if (- 2 ^ 31 <=? r) && (r <? 2 ^ 31) then Some r else None.

(** [size_t * size_t] on offsets into an allocated buffer. *)
Definition mul_size (a b : Z) : option Z := Some (a * b).

(** [std::memcpy(dst + doff, src + soff, n)]: defined when both ranges
    lie inside their buffers. *)
Definition memcpy (dst : list Z) (doff : Z) (src : list Z) (soff n : Z)
  : option (list Z) :=
  if (0 <=? doff) && (0 <=? soff) && (0 <=? n)
     && (doff + n <=? Z.of_nat (length dst))
     && (soff + n <=? Z.of_nat (length src))
  then Some (take (Z.to_nat doff) dst
             ++ take (Z.to_nat n) (drop (Z.to_nat soff) src)
             ++ drop (Z.to_nat (doff + n)) dst)
  else None.

(** [for (y = y0; y < y0 + count; ++y) memcpy(dst + y * dstep,
    src + y * sstep, n)]; the three products are evaluated in every
    round, [len] being the one of the length. *)
Fixpoint copy_rows (dmul smul : Z -> Z -> option Z) (count : nat) (y : Z)
    (dst : list Z) (dstep : Z) (src : list Z) (sstep : Z) (len : option Z)
  : option (list Z) :=
  match count with
  | O => Some dst
  | S count' =>
      match dmul y dstep, smul y sstep, len with
      | Some doff, Some soff, Some n =>
          match memcpy dst doff src soff n with
          | Some dst' =>
              copy_rows dmul smul count' (y + 1) dst' dstep src sstep len
          | None => None
          end
      | _, _, _ => None
      end
  end.

(** [img.step] of a matrix allocated as [cv::Mat(rows, cols, CV_8UC3)]. *)
Definition step (img : cv.Mat) : Z := cv.cols img * 3.

(** [cv::Mat img(frame->height, frame->width, CV_8UC3)] over the bytes
    [fresh] the allocation returns; a negative size is rejected. *)
Definition Mat_alloc (fresh : list Z) (frame : AVFrame) : option cv.Mat :=
  if (Core.height frame <? 0) || (Core.width frame <? 0) then None
  else Some {| cv.rows := Core.height frame; cv.cols := Core.width frame;
               cv.pixels := fresh |}.

(** [None]: no matrix is returned, the size is rejected or a copy is
    undefined. *)
Definition toMat (fresh : list Z) (linesize : Z) (frame : AVFrame)
  : option cv.Mat :=
  match Mat_alloc fresh frame with
  | Some img =>
      match copy_rows mul_size mul_int (Z.to_nat (Core.height frame)) 0
              (cv.pixels img) (step img) (data frame) linesize
              (mul_int (Core.width frame) 3) with
      | Some px => Some (cv.set_pixels px img)
      | None => None
      end
  | None => None
  end.

Definition fromMat (img : cv.Mat) (linesize : Z) (frame : AVFrame)
  : option AVFrame :=
  match copy_rows mul_int mul_size (Z.to_nat (cv.rows img)) 0
          (data frame) linesize (cv.pixels img) (step img)
          (mul_int (cv.cols img) 3) with
  | Some d => Some {| pts := pts frame; Core.width := Core.width frame;
                      Core.height := Core.height frame; data := d |}
  | None => None
  end.

End PixelBuffers.

(** * Vocabulary of the properties *)

Module Vocabulary.
Import Operations.

(** *** Rectangles and regions *)

(** The pixel [(px, py)] lies in the rectangle. *)
Definition in_rect (r : cv.Rect) (px py : Z) : Prop :=
  cv.x r <= px < cv.x r + cv.width r /\ cv.y r <= py < cv.y r + cv.height r.

Definition region_rect (r : WatermarkRegion) : cv.Rect :=
  {| cv.x := x r; cv.y := y r; cv.width := width r; cv.height := height r |}.

Definition frame_rect (img : cv.Mat) : cv.Rect :=
  {| cv.x := 0; cv.y := 0; cv.width := cv.cols img; cv.height := cv.rows img |}.

(** [img.at<cv::Vec3b>(py, px)]: the three bytes of a pixel of a packed
    3-channel image. *)
Definition pixel_at (img : cv.Mat) (px py : Z) : list Z :=
  take 3 (drop (Z.to_nat ((py * cv.cols img + px) * 3)) (cv.pixels img)).

(** The kernel changes no pixel outside the rectangle it is given. *)
Definition local_kernel (K : cv.Rect -> cv.Mat -> list Z) : Prop :=
  forall rect img px py,
    ~ in_rect rect px py ->
    pixel_at (cv.set_pixels (K rect img) img) px py = pixel_at img px py.

Definition kernel_of (r : WatermarkRegion) : cv.kernel :=
  if String.eqb (method r) "inpaint" then cv.KInpaint else cv.KGaussianBlur.

(** *** The registry of operation types *)

(** The constructor a type tag selects, if the tag is one of the four
    the engine knows. *)
Definition registry (tag : string)
  : option (json -> outcome IVideoOperation) :=
  if String.eqb tag "subtitles_translate" then Some new_SubtitleTranslateOperation
  else if String.eqb tag "subtitles_remove" then Some (fun _ => new_SubtitleRemoveOperation)
  else if String.eqb tag "watermark_remove" then Some new_WatermarkRemoveOperation
  else if String.eqb tag "voiceover" then Some new_VoiceoverReplaceOperation
  else None.

Definition recognized (d : OperationDescriptor) : bool :=
  match registry (type d) with Some _ => true | None => false end.

(** The constructor of a recognised descriptor returns. *)
Definition constructible (d : OperationDescriptor) : Prop :=
  forall mk, registry (type d) = Some mk -> is_ok (mk (params d)) = true.

(** The operation [o] is what the registry builds from [d]. *)
Definition built_from (d : OperationDescriptor) (o : IVideoOperation) : Prop :=
  exists mk, registry (type d) = Some mk /\ mk (params d) = Ok o.

Definition unknown_warning (d : OperationDescriptor) : event :=
  EvLog LWarn "Unknown operation type: {}" [AStr (type d)].

(** *** Job objects of a config document *)

(** The field is absent, or it holds a string. *)
Definition string_or_absent (j : json) (key : string) : bool :=
  if contains j key then
    match at_ j key with Ok (JString _) => true | _ => false end
  else true.

(** The element of an ["operations"] array is an object with a string
    ["type"]. *)
Definition typed_operation (e : json) : bool :=
  match at_ e "type" with Ok (JString _) => true | _ => false end.

(** A job object [buildJobFromConfig] accepts: ["operations"], where
    present, is an array of typed elements, and ["input"] and ["output"],
    where present, are strings. *)
Definition job_cfg_ok (jobCfg : json) : bool :=
  (if contains jobCfg "operations" then
     match at_ jobCfg "operations" with
     | Ok (JArray elems) => forallb typed_operation elems
     | _ => false
     end
   else true)
  && string_or_absent jobCfg "input"
  && string_or_absent jobCfg "output".

(** The field of the job is the object's own string, and the CLI value
    only where the object has no such field. *)
Definition field_reflects (jobCfg : json) (key : string) (cli field : string)
  : Prop :=
  (contains jobCfg key = true -> at_ jobCfg key = Ok (JString field))
  /\ (contains jobCfg key = false -> field = cli).

Definition descriptor_reflects (e : json) (d : OperationDescriptor) : Prop :=
  at_ e "type" = Ok (JString (type d)) /\ params d = e.

Definition operations_reflect (jobCfg : json) (ops : list OperationDescriptor)
  : Prop :=
  (contains jobCfg "operations" = false -> ops = [])
  /\ (contains jobCfg "operations" = true ->
      exists elems, at_ jobCfg "operations" = Ok (JArray elems)
                    /\ Forall2 descriptor_reflects elems ops).

Definition job_reflects (options : ProgramOptions) (jobCfg : json)
    (job : VideoJob) : Prop :=
  field_reflects jobCfg "input" (opt_input options) (input job)
  /\ field_reflects jobCfg "output" (opt_output options) (output job)
  /\ operations_reflect jobCfg (operations job).

(** Some element of the job object's ["operations"] array has no
    ["type"]. *)
Definition untyped_job (jobCfg : json) : Prop :=
  exists elems e,
    at_ jobCfg "operations" = Ok (JArray elems)
    /\ In e elems /\ contains e "type" = false.

(** The document is a single job object with such an element, or its
    ["jobs"] array holds a job object with one. *)
Definition config_has_untyped (doc : json) : Prop :=
  (contains doc "jobs" = false /\ untyped_job doc)
  \/ (exists arr jobCfg,
        at_ doc "jobs" = Ok (JArray arr) /\ In jobCfg arr /\ untyped_job jobCfg).

(** *** The pipeline trace *)

(** The events of the per-packet protocol: the adapter's per-packet
    calls and the hooks.  Log lines, handle allocation and the kernels
    are left out. *)
Definition is_pipeline_event (e : event) : bool :=
  match e with
  | EvDecodeFrame _ _ _ | EvEncodeFrame _ | EvCopyPacket _ | EvFlushEncoder
  | EvPrepare _ | EvProcessFrame _ _ | EvFinalize _ => true
  | _ => false
  end.

Definition pipeline_trace (log : list event) : list event :=
  List.filter is_pipeline_event log.

(** The process-frame hooks of a chain of [n] operations on the frame
    stamped [t], in chain order. *)
Definition chain_pass (n : nat) (t : Z) : list event :=
  map (fun i => EvProcessFrame i t) (seq 0 n).

(** What one input packet contributes to the trace of a chain of [n]
    operations. *)
Inductive packet_block (n : nat) : list event -> Prop :=
| block_frame p ret f f' :
    0 <= ret -> pts f' = pts f ->
    packet_block n
      (EvDecodeFrame p ret f :: chain_pass n (pts f) ++ [EvEncodeFrame f'])
| block_skipped p ret f :
    ret < 0 -> packet_block n [EvDecodeFrame p ret f]
| block_copied p : packet_block n [EvCopyPacket p]
| block_ignored : packet_block n [].

(** Time stamps of the frames the decoder emitted, of the frames the
    operation at position [i] processed, and of the frames submitted to
    the encoder, each in log order. *)
Definition emitted (log : list event) : list Z :=
  flat_map (fun e => match e with
                     | EvDecodeFrame _ ret f => if ret >=? 0 then [pts f] else []
                     | _ => []
                     end) log.

Definition processed_by (i : nat) (log : list event) : list Z :=
  flat_map (fun e => match e with
                     | EvProcessFrame j t => if Nat.eqb i j then [t] else []
                     | _ => []
                     end) log.

Definition submitted (log : list event) : list Z :=
  flat_map (fun e => match e with
                     | EvEncodeFrame f => [pts f]
                     | _ => []
                     end) log.

Definition is_chain_or_encode (e : event) : bool :=
  match e with
  | EvProcessFrame _ _ | EvEncodeFrame _ => true
  | _ => false
  end.

(** *** Hook calls in chain order *)

(** The call of the hook of the operation at position [i] of the chain,
    announced by [E i], on the state the calls so far left; [acc] is the
    log so far with that state. *)
Definition call_at {St} (E : nat -> event)
    (hook : IVideoOperation -> St -> W St) (ops : list IVideoOperation)
    (acc : W St) (i : nat) : W St :=
  match ops !! i with
  | Some op => (acc.1 ++ E i :: (hook op acc.2).1, (hook op acc.2).2)
  | None => acc
  end.

(** One call per position of the chain, the positions in increasing
    order: first the hook of the first operation of the chain, on [s];
    then the hook of the second one, on the state the first left; and so
    on to the last. *)
Definition hooks_in_order {St} (E : nat -> event)
    (hook : IVideoOperation -> St -> W St) (ops : list IVideoOperation)
    (s : St) : W St :=
  fold_left (call_at E hook ops) (seq 0 (length ops)) ([], s).

(** The process-frame hooks of the chain on one frame, each on the
    frame as the operations before it in the chain left it. *)
Definition frame_pass (env : Collaborators) (ops : list IVideoOperation)
    (ctx : VideoContext) (frame : AVFrame) : W (VideoContext * AVFrame) :=
  hooks_in_order (fun i => EvProcessFrame i (pts frame))
    (fun op st => processFrame env op st.1 st.2 (pts frame))
    ops (ctx, frame).

(** What one input packet contributes to the log: a decoded frame goes
    through the chain and what comes out is handed to the encoder; a
    failed decode, a copied packet and an ignored packet call no hook. *)
Inductive packet_log (env : Collaborators) (ops : list IVideoOperation)
    (p : AVPacket) : list event -> Prop :=
| log_frame ctx :
    let d := FfmpegAdapter.decodeFrame env ctx p
               VideoPipelineEngine.av_frame_alloc in
    let pass := frame_pass env ops d.2.1.1 d.2.2 in
    0 <= d.2.1.2 ->
    packet_log env ops p (d.1 ++ pass.1 ++ [EvEncodeFrame pass.2.2])
| log_skipped ctx :
    let d := FfmpegAdapter.decodeFrame env ctx p
               VideoPipelineEngine.av_frame_alloc in
    d.2.1.2 < 0 ->
    packet_log env ops p d.1
| log_copied : packet_log env ops p [EvCopyPacket p]
| log_ignored : packet_log env ops p [].

(** *** Stream roles *)

(** No stream index is assigned to two roles. *)
Definition roles_distinct (ctx : VideoContext) : Prop :=
  (0 <= videoStreamIndex ctx ->
   videoStreamIndex ctx <> audioStreamIndex ctx
   /\ videoStreamIndex ctx <> subtitleStreamIndex ctx)
  /\ (0 <= audioStreamIndex ctx ->
      audioStreamIndex ctx <> subtitleStreamIndex ctx).

(** *** Resources *)

Inductive resource := InputContext | OutputContext | Decoder | Encoder.

Definition acquires (r : resource) (e : event) : bool :=
  match r, e with
  | InputContext, EvOpenInput _ true => true
  | OutputContext, EvAllocOutput _ true => true
  | Decoder, EvAllocDecoder => true
  | _, _ => false
  end.

Definition releases (r : resource) (e : event) : bool :=
  match r, e with
  | InputContext, EvCloseInput => true
  | OutputContext, EvFreeOutput => true
  | Decoder, EvFreeDecoder => true
  | Encoder, EvFreeEncoder => true
  | _, _ => false
  end.

(** An event that neither acquires nor releases a handle. *)
Definition neutral (e : event) : Prop :=
  forall r, acquires r e = false /\ releases r e = false.

Definition n_acquired (r : resource) (log : list event) : nat :=
  length (List.filter (acquires r) log).

Definition n_released (r : resource) (log : list event) : nat :=
  length (List.filter (releases r) log).

(** Every resource the run acquired was acquired once and released
    once. *)
Definition released_exactly_once (log : list event) : Prop :=
  forall r, n_released r log = n_acquired r log /\ (n_acquired r log <= 1)%nat.

Definition present {A} (o : option A) : nat :=
  match o with Some _ => 1 | None => 0 end.

(** How many handles of the kind the context holds. *)
Definition held (ctx : VideoContext) (r : resource) : nat :=
  match r with
  | InputContext => present (inputFormat ctx)
  | OutputContext => present (outputFormat ctx)
  | Decoder => present (videoDecoder ctx)
  | Encoder => present (videoEncoder ctx)
  end.

(** What the hooks and the per-packet code leave alone: a step from
    [ctx] to [ctx'] with log [log] keeps the input, the output, the
    encoder and the video and audio roles; the subtitle role stays or is
    cleared; nothing is released; and the only handle that may be
    acquired is the decoder, when there was none. *)
Definition steady (ctx : VideoContext) (log : list event)
    (ctx' : VideoContext) : Prop :=
  inputFormat ctx' = inputFormat ctx
  /\ outputFormat ctx' = outputFormat ctx
  /\ videoEncoder ctx' = videoEncoder ctx
  /\ videoStreamIndex ctx' = videoStreamIndex ctx
  /\ audioStreamIndex ctx' = audioStreamIndex ctx
  /\ (subtitleStreamIndex ctx' = subtitleStreamIndex ctx
      \/ subtitleStreamIndex ctx' = -1)
  /\ (forall r, n_released r log = 0%nat)
  /\ (forall r, (held ctx r + n_acquired r log = held ctx' r)%nat).

(** The context [initialize] hands over when both opens succeed. *)
Definition opened (fmt : AVFormatContext) (job : VideoJob) : VideoContext :=
  set_outputFormat (Some (output job))
    (FfmpegAdapter.assign_roles (streams fmt) 0
       (set_inputFormat (Some fmt) default_context)).

(** *** Batches *)

Definition job_banner (job : VideoJob) : event :=
  EvLog LInfo "Processing job: {} -> {}" [AStr (input job); AStr (output job)].

Definition job_started (job : VideoJob) (log : list event) : Prop :=
  In (job_banner job) log.

(** *** Tactics *)

(** Case analysis on every integer comparison of the goal. *)
Ltac split_tests :=
  repeat match goal with
    | |- context [?a <? ?b] => destruct (Z.ltb_spec a b)
    | |- context [?a <=? ?b] => destruct (Z.leb_spec a b)
    end.

End Vocabulary.

(** * Vocabulary of the further properties *)

Module MoreVocabulary.
Import Operations Vocabulary.

(** *** Strings *)

Fixpoint no_comma (s : string) : bool :=
  match s with
  | EmptyString => true
  | String c rest => negb (Ascii.eqb c ","%char) && no_comma rest
  end.

(** An operation name as [--type] can carry it. *)
Definition plain_name (s : string) : Prop :=
  s <> EmptyString /\ no_comma s = true.

(** The names written one after the other with commas in between. *)
Fixpoint join_commas (items : list string) : string :=
  match items with
  | [] => EmptyString
  | [x] => x
  | x :: rest => x +:+ "," +:+ join_commas rest
  end.

Fixpoint remove_commas (s : string) : string :=
  match s with
  | EmptyString => EmptyString
  | String c rest =>
      if Ascii.eqb c ","%char then remove_commas rest
      else String c (remove_commas rest)
  end.

Fixpoint concat_strings (l : list string) : string :=
  match l with
  | [] => EmptyString
  | x :: rest => x +:+ concat_strings rest
  end.

(** The comma-separated fields of [s] that are not empty, the field
    under construction being [item]. *)
Fixpoint fields (s : string) (item : string) : list string :=
  match s with
  | EmptyString => if ArgsParser.empty item then [] else [item]
  | String c rest =>
      if Ascii.eqb c ","%char
      then (if ArgsParser.empty item then [] else [item]) ++ fields rest EmptyString
      else fields rest (item +:+ String c EmptyString)
  end.

(** *** Timecodes *)

Definition digit (n : Z) : ascii := ascii_of_nat (48 + Z.to_nat n).

Definition two_digits (n : Z) : string :=
  String (digit (n / 10)) (String (digit (n mod 10)) EmptyString).

Definition three_digits (n : Z) : string :=
  String (digit (n / 100)) (two_digits (n mod 100)).

(** [HH:MM:SS,mmm]. *)
Definition timecode (h m s r : Z) : string :=
  two_digits h +:+ ":" +:+ two_digits m +:+ ":" +:+ two_digits s
  +:+ "," +:+ three_digits r.

(** *** Streams and packets *)

(** The index of the first stream of the codec type among [l], whose
    head has index [i]; [-1] when there is none. *)
Fixpoint first_index_from (t : AVMediaType) (l : list AVMediaType) (i : Z)
  : Z :=
  match l with
  | [] => -1
  | x :: rest =>
      if bool_decide (x = t) then i else first_index_from t rest (i + 1)
  end.

Definition first_index (t : AVMediaType) (l : list AVMediaType) : Z :=
  first_index_from t l 0.

Definition on_video (ctx : VideoContext) (p : AVPacket) : bool :=
  stream_index p =? videoStreamIndex ctx.

(** On the audio-role stream, and not taken as video first. *)
Definition on_audio (ctx : VideoContext) (p : AVPacket) : bool :=
  negb (stream_index p =? videoStreamIndex ctx)
  && (stream_index p =? audioStreamIndex ctx).

(** The packets handed to [decodeFrame] and to [copyPacketToOutput], in
    log order. *)
Definition decoded_packets (log : list event) : list AVPacket :=
  flat_map (fun e => match e with EvDecodeFrame p _ _ => [p] | _ => [] end) log.

Definition copied_packets (log : list event) : list AVPacket :=
  flat_map (fun e => match e with EvCopyPacket p => [p] | _ => [] end) log.

(** The operation can change a frame: it removes watermarks from at
    least one region. *)
Definition touches_frames (op : IVideoOperation) : bool :=
  match op with
  | WatermarkRemoveOperation (_ :: _) => true
  | _ => false
  end.

Definition is_subtitle_remove (op : IVideoOperation) : bool :=
  match op with SubtitleRemoveOperation => true | _ => false end.

(** *** Jobs from the command line *)

(** The operation the engine builds for a name given to [--type]. *)
Definition cli_operation (options : ProgramOptions) (name : string)
  : option IVideoOperation :=
  if String.eqb name "subtitles_translate" then
    Some (SubtitleTranslateOperation
            (default "auto" (subtitleSrcLang options))
            (default "auto" (subtitleDstLang options)))
  else if String.eqb name "subtitles_remove" then Some SubtitleRemoveOperation
  else if String.eqb name "watermark_remove" then
    Some (WatermarkRemoveOperation [])
  else if String.eqb name "voiceover" then
    Some (VoiceoverReplaceOperation
            (default "auto" (ttsLang options))
            (default "" (ttsBaseUrl options))
            (default "" (ttsApiKey options)))
  else None.

Definition known_name (name : string) : bool :=
  String.eqb name "subtitles_translate" || String.eqb name "subtitles_remove"
  || String.eqb name "watermark_remove" || String.eqb name "voiceover".

(** *** Pixel buffers *)

(** What a strided copy of [h] rows of [n] bytes leaves at index [i]. *)
Definition copied (y0 h dstep sstep n : Z) (dst src : list Z) (i : nat)
  : option Z :=
  let q := Z.of_nat i / dstep in
  let k := Z.of_nat i mod dstep in
  if (y0 <=? q) && (q <? y0 + h) && (k <? n)
  then src !! Z.to_nat (q * sstep + k)
  else dst !! i.

(** The product function returns the product whenever it returns. *)
Definition exact_product (f : Z -> Z -> option Z) : Prop :=
  forall a b o, f a b = Some o -> o = a * b.

(** Plane 0 of the frame holds [height] rows of [3 * width] bytes,
    [linesize] bytes apart, in a buffer an [int] can index. *)
Definition fits (linesize : Z) (frame : AVFrame) : bool :=
  (0 <=? Core.width frame) && (0 <=? Core.height frame)
  && (3 * Core.width frame <=? linesize)
  && (Core.height frame * linesize <=? Z.of_nat (length (data frame)))
  && (Z.of_nat (length (data frame)) <? 2 ^ 31).

(** The buffer of [cv::Mat(height, width, CV_8UC3)] has that size. *)
Definition allocated_for (frame : AVFrame) (buf : list Z) : bool :=
  Z.of_nat (length buf) =? Core.height frame * (Core.width frame * 3).

Record fits_facts (linesize : Z) (frame : AVFrame) : Prop := {
  ff_w : 0 <= Core.width frame;
  ff_h : 0 <= Core.height frame;
  ff_ls : 3 * Core.width frame <= linesize;
  ff_len : Core.height frame * linesize <= Z.of_nat (length (data frame));
  ff_int : Z.of_nat (length (data frame)) < 2 ^ 31 }.

(** *** The lines of the log *)

Definition is_log_line (e : event) : bool :=
  match e with
  | EvLog _ _ _ => true
  | _ => false
  end.

Definition log_lines (log : list event) : list event :=
  List.filter is_log_line log.

(** The TTS services of the voiceover operations of a chain, in order. *)
Definition voiceover_urls (ops : list IVideoOperation) : list string :=
  flat_map (fun op => match op with
                      | VoiceoverReplaceOperation _ url _ => [url]
                      | _ => []
                      end) ops.

Definition synthesizing_line (url : string) : event :=
  EvLog LInfo "Synthesizing voiceover via TTS service at {}" [AStr url].

Definition replacing_line (n : Z) : event :=
  EvLog LInfo "Replacing audio track with synthesized voiceover ({} bytes)"
    [ANum n].

(** *** Runs *)

(** The run of the job by the engine ends without exception. *)
Definition succeeds (env : Collaborators) (job : VideoJob) : bool :=
  is_ok (VideoPipelineEngine.run env job).2.

(** What a batch logs for one job: the banner, then the log of the
    engine. *)
Definition job_log (env : Collaborators) (job : VideoJob) : list event :=
  job_banner job :: (VideoPipelineEngine.run env job).1.

Definition fatal_line (msg : string) : event :=
  EvLog LError "Fatal error: {}" [AStr msg].

(** *** Batches *)

(** The jobs of a batch up to and including the first one whose run
    ends with an exception. *)
Fixpoint attempted (succeeds : VideoJob -> bool) (jobs : list VideoJob)
  : list VideoJob :=
  match jobs with
  | [] => []
  | j :: rest => j :: (if succeeds j then attempted succeeds rest else [])
  end.

End MoreVocabulary.

(** * Concrete inputs *)

Module Examples.
Import Operations.

Definition packet (i : Z) : AVPacket := {| stream_index := i; payload := [] |}.

Definition frame_at (t : Z) : AVFrame :=
  {| pts := t; Core.width := 4; Core.height := 4; data := [] |}.

(** A file system with one readable input, [a.mp4], holding a video, an
    audio and a subtitle stream; only [.mp4] outputs can be created; the
    decoder refuses the second packet it is sent. *)
Definition demo_env : Collaborators :=
  {| avformat_open_input := fun path =>
       if String.eqb path "a.mp4" then
         Some {| streams := [AVMEDIA_TYPE_VIDEO; AVMEDIA_TYPE_AUDIO;
                             AVMEDIA_TYPE_SUBTITLE];
                 packets := [packet 0; packet 1; packet 2; packet 0] |}
       else None;
     avformat_alloc_output_context2 := fun path =>
       String.eqb path "b.mp4" || String.eqb path "c.mp4";
     avcodec_send_packet := fun sent _ =>
       if Nat.eqb (length sent) 1 then -11 else 0;
     avcodec_receive_frame := fun sent =>
       (0, frame_at (Z.of_nat (length sent)));
     GaussianBlur := fun _ img => cv.pixels img;
     inpaint := fun _ img => cv.pixels img;
     loadJson := fun path =>
       if String.eqb path "untyped.json" then
         Ok (JObject {[ "jobs" :=
               JArray [JObject {[ "input" := JString "a.mp4";
                                  "operations" := JArray [JObject ∅] ]}] ]})
       else if String.eqb path "jobs.json" then
         Ok (JObject {[ "jobs" :=
               JArray [JObject {[ "input" := JString "a.mp4";
                                  "operations" :=
                                    JArray [JObject {[ "type" := JString "voiceover" ]}] ]};
                       JObject {[ "output" := JString "c.mp4" ]}] ]})
       else if String.eqb path "array.json" then Ok (JArray [])
       else Throw (runtime_error ("Cannot open config: " +:+ path)) |}.

Definition demo_input : AVFormatContext :=
  {| streams := [AVMEDIA_TYPE_VIDEO; AVMEDIA_TYPE_AUDIO; AVMEDIA_TYPE_SUBTITLE];
     packets := [packet 0; packet 1; packet 2; packet 0] |}.

Definition descriptor (tag : string) : OperationDescriptor :=
  {| type := tag; params := JNull |}.

Definition good_job : VideoJob :=
  {| input := "a.mp4"; output := "b.mp4";
     operations := [descriptor "subtitles_remove"; descriptor "sharpen";
                    descriptor "voiceover"] |}.

(** The input opens, the output format cannot be guessed. *)
Definition no_output_job : VideoJob :=
  {| input := "a.mp4"; output := "b.xyz"; operations := [] |}.

Definition no_input_job : VideoJob :=
  {| input := "missing.mp4"; output := "b.mp4"; operations := [] |}.

(** [{"type": "voiceover", "lang": 5}] as a config file gives it. *)
Definition ill_typed_voiceover : OperationDescriptor :=
  {| type := "voiceover";
     params := JObject {[ "type" := JString "voiceover"; "lang" := JNumber 5 ]} |}.

Definition ill_typed_job : VideoJob :=
  {| input := "a.mp4"; output := "b.mp4";
     operations := [ill_typed_voiceover] |}.

(** The context of [good_job] when its input has been opened, and the
    same context once the decoder has been sent a first packet. *)
Definition opened_context : VideoContext :=
  Vocabulary.opened demo_input good_job.

Definition decoding_context : VideoContext :=
  set_videoDecoder (Some [packet 0]) opened_context.

Definition demo_chain : list IVideoOperation :=
  [SubtitleRemoveOperation; VoiceoverReplaceOperation "auto" "" ""].

(** Two operations of the same class, told apart by their service. *)
Definition two_voices : list IVideoOperation :=
  [VoiceoverReplaceOperation "auto" "first" "";
   VoiceoverReplaceOperation "auto" "second" ""].

Definition cli_options (cfg : option string) : ProgramOptions :=
  {| opt_operations := ["subtitles_remove"; "voiceover"];
     opt_input := "a.mp4"; opt_output := "b.mp4";
     configPath := cfg;
     subtitleSrcLang := None; subtitleDstLang := None;
     ttsLang := Some "fr"; ttsBaseUrl := None; ttsApiKey := None |}.

(** A 2x2 frame whose rows lie 8 bytes apart: 6 bytes of pixels, 2 of
    padding. *)
Definition padded_frame : AVFrame :=
  {| pts := 0; Core.width := 2; Core.height := 2;
     data := [1; 2; 3; 4; 5; 6; 0; 0; 7; 8; 9; 10; 11; 12; 0; 0] |}.

(** The same pixels without padding. *)
Definition packed_frame : AVFrame :=
  {| pts := 0; Core.width := 2; Core.height := 2;
     data := [1; 2; 3; 4; 5; 6; 7; 8; 9; 10; 11; 12] |}.

(** What an allocation of 12 bytes may hold. *)
Definition fresh_matrix : list Z := replicate 12 255.

Definition painted : cv.Mat :=
  {| cv.rows := 2; cv.cols := 2;
     cv.pixels := [21; 22; 23; 24; 25; 26; 27; 28; 29; 30; 31; 32] |}.

End Examples.

(** * Properties *)

(** ** The writer and the loops *)

Section WriterLemmas.
Context {A B : Type}.

Lemma wbind_log (m : W A) (k : A -> W B) :
  (wbind m k).1 = m.1 ++ (k m.2).1.
Proof. destruct m as [l a]; simpl. destruct (k a); reflexivity. Qed.

Lemma wbind_val (m : W A) (k : A -> W B) :
  (wbind m k).2 = (k m.2).2.
Proof. destruct m as [l a]; simpl. destruct (k a); reflexivity. Qed.

Lemma wbind_eq (m : W A) (k : A -> W B) :
  wbind m k = (m.1 ++ (k m.2).1, (k m.2).2).
Proof. destruct m as [l a]; simpl. destruct (k a); reflexivity. Qed.

End WriterLemmas.

Lemma wfold_cons {A St} (body : A -> St -> W St) a l s :
  wfold body (a :: l) s =
  ((body a s).1 ++ (wfold body l (body a s).2).1,
   (wfold body l (body a s).2).2).
Proof. simpl. apply wbind_eq. Qed.

Lemma wfold_i_cons {A St} (body : nat -> A -> St -> W St) a l i s :
  wfold_i body (a :: l) i s =
  ((body i a s).1 ++ (wfold_i body l (S i) (body i a s).2).1,
   (wfold_i body l (S i) (body i a s).2).2).
Proof. simpl. apply wbind_eq. Qed.

(** ** SubtitleRemove *)

(** C8. For every session state, [SubtitleRemoveOperation::prepare] sets
    the subtitle stream role to the sentinel [-1] and empties the cue
    list, and applying it again to the result changes nothing. *)
Theorem SubtitleRemove_prepare_idempotent (ctx : VideoContext) :
  let ctx1 := Operations.SubtitleRemove_prepare ctx in
  subtitleStreamIndex ctx1 = -1
  /\ cues (subtitles ctx1) = []
  /\ Operations.SubtitleRemove_prepare ctx1 = ctx1
  /\ Operations.prepare Operations.SubtitleRemoveOperation ctx = ([], ctx1).
Proof.
  destruct ctx as [i d e o v a s [c l] g]; cbn.
  repeat split; reflexivity.
Qed.

(** ** WatermarkRemove *)

Module WatermarkFacts.
Import Operations Vocabulary.

Lemma in_rect_zero px py : ~ in_rect cv.zero px py.
Proof. unfold in_rect; simpl; lia. Qed.

(** [rect_and] is the intersection of the two rectangles. *)
Lemma rect_and_spec a b px py :
  in_rect (cv.rect_and a b) px py <-> in_rect a px py /\ in_rect b px py.
Proof.
  unfold cv.rect_and, cv.empty.
  destruct a as [ax ay aw ah], b as [bx b_y bw bh]; simpl.
  destruct (Z.leb_spec aw 0); simpl; [unfold in_rect; simpl; lia|].
  destruct (Z.leb_spec ah 0); simpl; [unfold in_rect; simpl; lia|].
  destruct (Z.leb_spec bw 0); simpl; [unfold in_rect; simpl; lia|].
  destruct (Z.leb_spec bh 0); simpl; [unfold in_rect; simpl; lia|].
  destruct (Z.ltb_spec ax bx), (Z.ltb_spec ay b_y); simpl;
    split_tests; simpl; unfold in_rect; simpl; lia.
Qed.

(** A rectangle has a pixel, or it has none. *)
Lemma classic_area r :
  (exists px py, in_rect r px py) \/ (forall px py, ~ in_rect r px py).
Proof.
  destruct (Z.ltb_spec 0 (cv.width r)), (Z.ltb_spec 0 (cv.height r)).
  - left. exists (cv.x r), (cv.y r). unfold in_rect. lia.
  - right. unfold in_rect. lia.
  - right. unfold in_rect. lia.
  - right. unfold in_rect. lia.
Qed.

(** A rectangle [rect_and] returns is empty exactly when its area is not
    positive. *)
Lemma rect_and_area a b :
  (cv.area (cv.rect_and a b) <=? 0) = true <->
  forall px py, ~ in_rect (cv.rect_and a b) px py.
Proof.
  assert (Hz : cv.rect_and a b = cv.zero \/
               (0 < cv.width (cv.rect_and a b) /\ 0 < cv.height (cv.rect_and a b))).
  { unfold cv.rect_and, cv.empty.
    repeat match goal with
      | |- context [if ?c then _ else _] => destruct c eqn:?; simpl
      end; auto.
    all: right;
      match goal with
      | H : (_ <=? 0) || (_ <=? 0) = false |- _ =>
          apply orb_false_iff in H as [?%Z.leb_gt ?%Z.leb_gt]
      end; lia. }
  rewrite Z.leb_le. destruct Hz as [-> | [Hw Hh]].
  - split; [intros _ px py; apply in_rect_zero | intros _; unfold cv.area, cv.zero; simpl; lia].
  - unfold cv.area. split; [intros Hle; exfalso; nia|].
    intros H. exfalso.
    apply (H (cv.x (cv.rect_and a b)) (cv.y (cv.rect_and a b))).
    unfold in_rect; lia.
Qed.

Section WithCollaborators.
Context (env : Collaborators).

Lemma apply_region_dims r img :
  cv.cols (apply_region env r img).2 = cv.cols img
  /\ cv.rows (apply_region env r img).2 = cv.rows img.
Proof.
  unfold apply_region.
  repeat match goal with
    | |- context [if ?c then _ else _] => destruct c
    end; simpl; auto.
Qed.

(** What [apply_region] calls depends on the size of the image only. *)
Lemma apply_region_log_dims r img1 img2 :
  cv.cols img1 = cv.cols img2 -> cv.rows img1 = cv.rows img2 ->
  (apply_region env r img1).1 = (apply_region env r img2).1.
Proof.
  intros Hc Hr. unfold apply_region. rewrite Hc, Hr.
  repeat match goal with
    | |- context [if ?c then _ else _] => destruct c
    end; reflexivity.
Qed.

Lemma apply_dims rs : forall img,
  cv.cols (apply env rs img).2 = cv.cols img
  /\ cv.rows (apply env rs img).2 = cv.rows img.
Proof.
  induction rs as [|r rs IH]; intros img; [simpl; auto|].
  unfold apply in *. rewrite wfold_cons. cbn [snd].
  destruct (IH (apply_region env r img).2) as [-> ->].
  apply apply_region_dims.
Qed.

Lemma apply_log rs : forall img,
  (apply env rs img).1 = flat_map (fun r => (apply_region env r img).1) rs.
Proof.
  induction rs as [|r rs IH]; intros img; [reflexivity|].
  unfold apply in *. rewrite wfold_cons. cbn [fst flat_map].
  f_equal. rewrite IH.
  destruct (apply_region_dims r img) as [Hc Hr].
  clear IH. induction rs as [|r' rs IH']; [reflexivity|].
  cbn [flat_map]. rewrite IH'. f_equal.
  apply apply_region_log_dims; assumption.
Qed.

(** One region: either nothing of it lies in the frame and it is
    skipped, or the kernel of its method is called on exactly the part
    of it that lies in the frame. *)
Lemma apply_region_cases r img :
  ((forall px py,
       ~ (in_rect (region_rect r) px py /\ in_rect (frame_rect img) px py))
   /\ apply_region env r img = ([], img))
  \/ (exists rect,
         (apply_region env r img).1 = [EvKernel (kernel_of r) rect]
         /\ (forall px py,
               in_rect rect px py <->
               in_rect (region_rect r) px py /\ in_rect (frame_rect img) px py)
         /\ exists px py, in_rect rect px py).
Proof.
  unfold apply_region.
  change {| cv.x := x r; cv.y := y r;
            cv.width := width r; cv.height := height r |}
    with (region_rect r).
  change {| cv.x := 0; cv.y := 0;
            cv.width := cv.cols img; cv.height := cv.rows img |}
    with (frame_rect img).
  pose proof (rect_and_area (region_rect r) (frame_rect img)) as Hempty.
  pose proof (rect_and_spec (region_rect r) (frame_rect img)) as Hspec.
  set (rect := cv.rect_and (region_rect r) (frame_rect img)) in *.
  destruct (cv.area rect <=? 0) eqn:Harea.
  - left. split; [|reflexivity].
    intros px py Hin. apply Hspec in Hin.
    apply Hempty in Hin; [exact Hin | reflexivity].
  - right. exists rect. split; [|split].
    + unfold kernel_of. destruct (String.eqb (method r) "inpaint"); reflexivity.
    + exact Hspec.
    + destruct (classic_area rect) as [Hex | Hno]; [exact Hex|].
      apply Hempty in Hno. congruence.
Qed.

(** All that [apply] logs is kernel calls on rectangles inside the
    frame. *)
Lemma apply_calls_inside rs img e :
  In e (apply env rs img).1 ->
  exists k rect,
    e = EvKernel k rect
    /\ forall px py, in_rect rect px py ->
         0 <= px < cv.cols img /\ 0 <= py < cv.rows img.
Proof.
  rewrite apply_log, in_flat_map.
  intros (r & _ & Hin).
  destruct (apply_region_cases r img)
    as [[_ Heq] | (rect & Heq & Hspec & _)].
  - rewrite Heq in Hin. destruct Hin.
  - rewrite Heq in Hin. destruct Hin as [<- | []].
    exists (kernel_of r), rect. split; [reflexivity|].
    intros px py Hin. apply Hspec in Hin as [_ Hf].
    unfold in_rect, frame_rect in Hf. simpl in Hf. lia.
Qed.

(** With kernels that change only the rectangle they are given, [apply]
    changes no pixel outside the parts of the regions that lie in the
    frame; in particular no pixel outside the frame. *)
Lemma apply_changes_clipped_regions_only rs : forall img px py,
  local_kernel (GaussianBlur env) -> local_kernel (inpaint env) ->
  (forall r, In r rs ->
     ~ (in_rect (region_rect r) px py /\ in_rect (frame_rect img) px py)) ->
  pixel_at (apply env rs img).2 px py = pixel_at img px py.
Proof.
  induction rs as [|r rs IH]; intros img px py Hblur Hinp Hout;
    [reflexivity|].
  unfold apply in *. rewrite wfold_cons. cbn [snd].
  destruct (apply_region_dims r img) as [Hc Hr].
  rewrite IH; try assumption.
  - destruct (apply_region_cases r img)
      as [[_ Heq] | (rect & Hlog & Hspec & _)]; [rewrite Heq; reflexivity|].
    assert (Hnot : ~ in_rect rect px py).
    { rewrite Hspec. apply Hout. left. reflexivity. }
    revert Hlog. unfold apply_region.
    repeat match goal with
      | |- context [if ?c then _ else _] => destruct c
      end; simpl; intros Hlog; try discriminate;
      injection Hlog as _ <-; auto.
  - intros r' Hin. unfold frame_rect. rewrite Hc, Hr.
    apply Hout. right. exact Hin.
Qed.

(** C9. For every frame and every configured region list,
    [WatermarkRemoveOperation] calls a kernel once per region whose
    part inside the frame is not empty, in list order, with the
    region's method, on exactly the intersection of the region with
    the frame rectangle; a region with an empty intersection is
    skipped and leaves the image as it is; every rectangle handed to a
    kernel lies inside the frame; the image keeps its size; and with an
    empty region list [processFrame] returns the frame untouched
    without calling anything. *)
Theorem WatermarkRemove_clips_to_frame
    (regions_ : list WatermarkRegion) (img : cv.Mat) :
  let res := apply env regions_ img in
  res.1 = flat_map (fun r => (apply_region env r img).1) regions_
  /\ (forall r,
        ((forall px py,
             ~ (in_rect (region_rect r) px py
                /\ in_rect (frame_rect img) px py))
         /\ apply_region env r img = ([], img))
        \/ (exists rect,
               (apply_region env r img).1 = [EvKernel (kernel_of r) rect]
               /\ (forall px py,
                     in_rect rect px py <->
                     in_rect (region_rect r) px py
                     /\ in_rect (frame_rect img) px py)
               /\ exists px py, in_rect rect px py))
  /\ (forall e, In e res.1 ->
        exists k rect,
          e = EvKernel k rect
          /\ forall px py, in_rect rect px py ->
               0 <= px < cv.cols img /\ 0 <= py < cv.rows img)
  /\ cv.cols res.2 = cv.cols img
  /\ cv.rows res.2 = cv.rows img
  /\ (forall ctx frame pts,
        processFrame env (WatermarkRemoveOperation []) ctx frame pts
        = ([], (ctx, frame)))
  /\ (forall ctx frame pts,
        (processFrame env (WatermarkRemoveOperation regions_) ctx frame pts).1
        = (apply env regions_ (FfmpegAdapter.toMat frame)).1).
Proof.
  cbn zeta. split; [apply apply_log|].
  split; [intros r; apply apply_region_cases|].
  split; [apply apply_calls_inside|].
  split; [apply apply_dims|]. split; [apply apply_dims|].
  split; [reflexivity|].
  intros ctx frame pts. destruct regions_ as [|r rs]; [reflexivity|].
  unfold processFrame, WatermarkRemove_processFrame.
  rewrite !wbind_log. simpl. rewrite !app_nil_r. reflexivity.
Qed.

End WithCollaborators.

End WatermarkFacts.

(** ** Outcomes and the JSON accessors *)

Lemma omap_Forall2 {A B} (f : A -> outcome B) l : forall ys,
  omap f l = Ok ys -> Forall2 (fun x y => f x = Ok y) l ys.
Proof.
  induction l as [|x l IH]; simpl; intros ys H.
  - injection H as <-. constructor.
  - destruct (f x) as [y|e] eqn:Hx; simpl in H; [|discriminate].
    destruct (omap f l) as [ys'|e]; simpl in H; [|discriminate].
    injection H as <-. constructor; auto.
Qed.

Lemma omap_all_ok {A B} (f : A -> outcome B) l :
  Forall (fun x => is_ok (f x) = true) l -> exists ys, omap f l = Ok ys.
Proof.
  induction 1 as [|x l Hx _ [ys IH]]; simpl; [eauto|].
  destruct (f x); [|discriminate]. rewrite IH. simpl. eauto.
Qed.

Lemma omap_throws {A B} (f : A -> outcome B) l x :
  In x l -> is_ok (f x) = false -> is_ok (omap f l) = false.
Proof.
  induction l as [|a l IH]; simpl; [tauto|].
  intros [-> | Hin] Hx.
  - destruct (f x); [discriminate | reflexivity].
  - destruct (f a); [|reflexivity]. simpl.
    specialize (IH Hin Hx). destruct (omap f l); [discriminate | reflexivity].
Qed.

Lemma omap_is_ok {A B} (f : A -> outcome B) l :
  is_ok (omap f l) = forallb (fun x => is_ok (f x)) l.
Proof.
  induction l as [|a l IH]; simpl; [reflexivity|].
  destruct (f a); simpl; [|reflexivity].
  rewrite <- IH. destruct (omap f l); reflexivity.
Qed.

Lemma forallb_pointwise {A} (f g : A -> bool) l :
  (forall x, f x = g x) -> forallb f l = forallb g l.
Proof.
  intros H. induction l as [|a l IH]; simpl; [reflexivity|].
  rewrite H, IH. reflexivity.
Qed.

Lemma contains_at j key :
  contains j key = true -> exists v, at_ j key = Ok v.
Proof.
  destruct j; simpl; try discriminate.
  destruct (o !! key); [eauto | discriminate].
Qed.

Lemma not_contains_at j key :
  contains j key = false -> is_ok (at_ j key) = false.
Proof.
  destruct j; simpl; try reflexivity.
  destruct (o !! key); [discriminate | reflexivity].
Qed.

Lemma at_contains j key v : at_ j key = Ok v -> contains j key = true.
Proof.
  destruct j; simpl; try discriminate.
  destruct (o !! key); [reflexivity | discriminate].
Qed.

(** ** The operation chain *)

Module ChainFacts.
Import Operations Vocabulary VideoPipelineEngine.

Lemma build_one_spec d ops :
  build_one d ops =
  match registry (type d) with
  | Some mk =>
      match mk (params d) with
      | Ok o => ([], Ok (ops ++ [o]))
      | Throw e => ([], Throw e)
      end
  | None => ([unknown_warning d], Ok ops)
  end.
Proof.
  unfold build_one, registry, unknown_warning.
  repeat match goal with
    | |- context [String.eqb ?a ?b] => destruct (String.eqb a b)
    end; simpl;
  try match goal with
    | |- context [match ?c with Ok _ => _ | Throw _ => _ end] => destruct c
    end; reflexivity.
Qed.

Lemma buildOperations_from ds : forall ops0,
  Forall constructible ds ->
  exists chain,
    efold build_one ds ops0
    = (map unknown_warning (List.filter (fun d => negb (recognized d)) ds),
       Ok (ops0 ++ chain))
    /\ Forall2 built_from (List.filter recognized ds) chain.
Proof.
  induction ds as [|d ds IH]; intros ops0 Hok.
  - exists []. simpl. rewrite app_nil_r. split; [reflexivity | constructor].
  - inversion Hok as [|? ? Hd Hds]; subst.
    cbn [efold]. rewrite build_one_spec.
    unfold recognized, constructible in *. cbn [List.filter].
    destruct (registry (type d)) as [mk|] eqn:Hreg.
    + specialize (Hd mk eq_refl).
      destruct (mk (params d)) as [o|e] eqn:Hmk; [|discriminate].
      destruct (IH (ops0 ++ [o]) Hds) as (chain & Hrun & Hchain).
      exists (o :: chain). cbn [ebind negb]. rewrite Hrun.
      rewrite <- app_assoc. split; [reflexivity|].
      constructor; [|exact Hchain]. exists mk. auto.
    + destruct (IH ops0 Hds) as (chain & Hrun & Hchain).
      exists chain. cbn [ebind negb map]. rewrite Hrun. auto.
Qed.

(** A descriptor whose tag is known and whose constructor throws makes
    the whole loop throw. *)
Lemma buildOperations_throws ds : forall ops0 d mk,
  In d ds -> registry (type d) = Some mk -> is_ok (mk (params d)) = false ->
  is_ok (efold build_one ds ops0).2 = false.
Proof.
  induction ds as [|a ds IH]; intros ops0 d mk Hin Hreg Hmk; [destruct Hin|].
  cbn [efold]. rewrite build_one_spec.
  destruct Hin as [-> | Hin].
  - rewrite Hreg. destruct (mk (params d)); [discriminate | reflexivity].
  - destruct (registry (type a)) as [mk'|].
    + destruct (mk' (params a)) as [o|e]; [|reflexivity].
      cbn [ebind]. specialize (IH (ops0 ++ [o]) d mk Hin Hreg Hmk).
      destruct (efold build_one ds (ops0 ++ [o])); exact IH.
    + cbn [ebind]. specialize (IH ops0 d mk Hin Hreg Hmk).
      destruct (efold build_one ds ops0); exact IH.
Qed.

(** C5, as stated, fails: a recognised descriptor whose parameters the
    constructor rejects aborts chain building with an exception. *)
Lemma buildOperations_ill_typed_params_abort :
  buildOperations Examples.ill_typed_job []
  = ([], Throw (runtime_error "not a string"))
  /\ ~ exists log chain,
        buildOperations Examples.ill_typed_job [] = (log, Ok chain).
Proof.
  split; [vm_compute; reflexivity|].
  intros (log & chain & H). vm_compute in H. discriminate.
Qed.

(** C5, amended. For every job whose recognised descriptors have
    parameters their constructors accept, [buildOperations] returns; the
    chain holds one operation per descriptor with a known tag, built from
    that descriptor, in declared order; every other descriptor adds a
    warning, in declared order, and nothing else. *)
Theorem buildOperations_chain (job : VideoJob) :
  Forall constructible (operations job) ->
  exists chain,
    buildOperations job []
    = (map unknown_warning
         (List.filter (fun d => negb (recognized d)) (operations job)),
       Ok chain)
    /\ Forall2 built_from (List.filter recognized (operations job)) chain.
Proof.
  intros Hok. unfold buildOperations.
  destruct (buildOperations_from (operations job) [] Hok) as (chain & H & Hc).
  exists chain. split; [exact H | exact Hc].
Qed.

Lemma buildOperations_chain_witness :
  exists chain,
    buildOperations Examples.good_job []
    = ([unknown_warning (Examples.descriptor "sharpen")], Ok chain)
    /\ Forall2 built_from
         [Examples.descriptor "subtitles_remove"; Examples.descriptor "voiceover"]
         chain.
Proof.
  apply (buildOperations_chain Examples.good_job).
  repeat constructor; intros mk Hmk; vm_compute in Hmk;
    try discriminate; injection Hmk as <-; reflexivity.
Defined.

End ChainFacts.

(** ** The job builder *)

Module JobFacts.
Import Vocabulary JobManager.

Lemma read_descriptor_is_ok e :
  is_ok (read_descriptor e) = typed_operation e.
Proof.
  unfold read_descriptor, typed_operation.
  destruct (at_ e "type") as [[]|]; reflexivity.
Qed.

Lemma read_descriptor_reflects e d :
  read_descriptor e = Ok d -> descriptor_reflects e d.
Proof.
  unfold read_descriptor, descriptor_reflects.
  destruct (at_ e "type") as [[]|]; simpl; try discriminate.
  intros H. injection H as <-. auto.
Qed.

Lemma value_string_is_ok j key dflt :
  is_ok (value_string j key dflt) = string_or_absent j key.
Proof.
  unfold value_string, string_or_absent.
  destruct (contains j key); [|reflexivity].
  destruct (at_ j key) as [[]|]; reflexivity.
Qed.

Lemma value_string_reflects j key dflt s :
  value_string j key dflt = Ok s -> field_reflects j key dflt s.
Proof.
  unfold value_string, field_reflects.
  destruct (contains j key).
  - destruct (at_ j key) as [[]|]; simpl; try discriminate.
    intros H. injection H as <-. split; [reflexivity | discriminate].
  - intros H. injection H as <-. split; [discriminate | reflexivity].
Qed.

(** [buildJobFromConfig] returns exactly on the job objects of
    [job_cfg_ok]. *)
Lemma buildJobFromConfig_is_ok m jobCfg :
  is_ok (buildJobFromConfig m jobCfg) = job_cfg_ok jobCfg.
Proof.
  unfold buildJobFromConfig, job_cfg_ok.
  rewrite <- !value_string_is_ok
    with (dflt := opt_input (options_ m)) (key := "input").
  rewrite <- !value_string_is_ok
    with (dflt := opt_output (options_ m)) (key := "output").
  destruct (contains jobCfg "operations").
  - destruct (at_ jobCfg "operations") as [[]|]; try reflexivity.
    simpl.
    rewrite <- (forallb_pointwise _ _ a read_descriptor_is_ok).
    rewrite <- omap_is_ok.
    destruct (omap read_descriptor a); [|reflexivity]. simpl.
    destruct (value_string jobCfg "input" _); [|reflexivity]. simpl.
    destruct (value_string jobCfg "output" _); reflexivity.
  - simpl.
    destruct (value_string jobCfg "input" _); [|reflexivity]. simpl.
    destruct (value_string jobCfg "output" _); reflexivity.
Qed.

Lemma buildJobFromConfig_reflects m jobCfg job :
  buildJobFromConfig m jobCfg = Ok job ->
  job_reflects (options_ m) jobCfg job.
Proof.
  unfold buildJobFromConfig, job_reflects, operations_reflect.
  destruct (contains jobCfg "operations") eqn:Hc.
  - destruct (at_ jobCfg "operations") as [[]|]; simpl; try discriminate.
    destruct (omap read_descriptor a) as [ops|] eqn:Hops; simpl;
      [|discriminate].
    destruct (value_string jobCfg "input" _) as [i|] eqn:Hi; simpl;
      [|discriminate].
    destruct (value_string jobCfg "output" _) as [o|] eqn:Ho; simpl;
      [|discriminate].
    intros H. injection H as <-. simpl.
    split; [eapply value_string_reflects; eassumption|].
    split; [eapply value_string_reflects; eassumption|].
    split; [discriminate|]. intros _. exists a. split; [reflexivity|].
    apply omap_Forall2 in Hops.
    eapply Forall2_impl; [exact Hops|].
    intros e d. apply read_descriptor_reflects.
  - simpl.
    destruct (value_string jobCfg "input" _) as [i|] eqn:Hi; simpl;
      [|discriminate].
    destruct (value_string jobCfg "output" _) as [o|] eqn:Ho; simpl;
      [|discriminate].
    intros H. injection H as <-. simpl.
    split; [eapply value_string_reflects; eassumption|].
    split; [eapply value_string_reflects; eassumption|].
    split; [reflexivity | discriminate].
Qed.

Lemma untyped_job_throws m jobCfg :
  untyped_job jobCfg -> is_ok (buildJobFromConfig m jobCfg) = false.
Proof.
  intros (elems & e & Hat & Hin & Hty).
  rewrite buildJobFromConfig_is_ok. unfold job_cfg_ok.
  rewrite (at_contains _ _ _ Hat), Hat.
  assert (forallb typed_operation elems = false) as ->; [|reflexivity].
  apply not_true_is_false. rewrite forallb_forall. intros Hall.
  specialize (Hall e Hin). unfold typed_operation in Hall.
  apply not_contains_at in Hty. destruct (at_ e "type"); discriminate.
Qed.

Section WithCollaborators.
Context (env : Collaborators).

Lemma new_with_config options path doc :
  configPath options = Some path -> loadJson env path = Ok doc ->
  new env options = Ok {| options_ := options; config_ := doc |}.
Proof. intros Hp Hl. unfold new. rewrite Hp, Hl. reflexivity. Qed.

Lemma buildJobs_jobs m arr :
  is_Some (configPath (options_ m)) ->
  at_ (config_ m) "jobs" = Ok (JArray arr) ->
  buildJobs m = omap (buildJobFromConfig m) arr.
Proof.
  intros Hp Hat. unfold buildJobs.
  rewrite (bool_decide_eq_true_2 _ Hp), (at_contains _ _ _ Hat), Hat.
  destruct (config_ m); try discriminate. reflexivity.
Qed.

(** C3, as stated, fails: a document with a ["jobs"] array of length 1
    whose job object has an operation without ["type"] yields no job;
    building throws. *)
Lemma buildJobs_throws_on_untyped_operation :
  loadJson Examples.demo_env "untyped.json"
  = Ok (JObject {[ "jobs" :=
          JArray [JObject {[ "input" := JString "a.mp4";
                             "operations" := JArray [JObject ∅] ]}] ]})
  /\ obind (new Examples.demo_env (Examples.cli_options (Some "untyped.json")))
           buildJobs
     = Throw (out_of_range "map::at")
  /\ ~ exists jobs,
        obind (new Examples.demo_env
                 (Examples.cli_options (Some "untyped.json"))) buildJobs
        = Ok jobs.
Proof.
  split; [|split]; try (vm_compute; reflexivity).
  intros (jobs & H). vm_compute in H. discriminate.
Qed.

(** C3, amended. When a config path is supplied and the loaded document
    is an object with a ["jobs"] array of length N whose elements are job
    objects [buildJobFromConfig] accepts ([job_cfg_ok]), the builder
    returns exactly N jobs, the i-th built from the i-th element: input
    and output are the element's own strings, and the CLI values only
    where the element has no such field; the operations are the
    element's typed operation objects in order.  When no config path is
    supplied, or the loaded document is not an object, the builder
    returns exactly the one job assembled from the CLI options. *)
Theorem buildJobs_precedence :
  (forall options path o arr,
      configPath options = Some path ->
      loadJson env path = Ok (JObject o) ->
      o !! "jobs" = Some (JArray arr) ->
      Forall (fun jobCfg => job_cfg_ok jobCfg = true) arr ->
      exists m jobs,
        new env options = Ok m /\ buildJobs m = Ok jobs
        /\ length jobs = length arr
        /\ Forall2 (job_reflects options) arr jobs)
  /\ (forall options,
        configPath options = None ->
        exists m, new env options = Ok m
                  /\ buildJobs m = Ok [buildJobFromCli m])
  /\ (forall options path doc,
        configPath options = Some path ->
        loadJson env path = Ok doc ->
        is_object doc = false ->
        exists m, new env options = Ok m
                  /\ buildJobs m = Ok [buildJobFromCli m]).
Proof.
  split; [|split].
  - intros options path o arr Hp Hl Hjobs Hok.
    set (m := {| options_ := options; config_ := JObject o |}).
    assert (Hbuild : buildJobs m = omap (buildJobFromConfig m) arr).
    { apply buildJobs_jobs; simpl; [rewrite Hp; eauto|].
      rewrite Hjobs. reflexivity. }
    destruct (omap_all_ok (buildJobFromConfig m) arr) as [jobs Hjobs'].
    { eapply Forall_impl; [exact Hok|]. intros jobCfg H. simpl.
      rewrite buildJobFromConfig_is_ok. exact H. }
    exists m, jobs. split; [eapply new_with_config; eassumption|].
    split; [congruence|].
    apply omap_Forall2 in Hjobs'.
    split; [symmetry; eapply Forall2_length; exact Hjobs'|].
    eapply Forall2_impl; [exact Hjobs'|].
    intros jobCfg job. apply (buildJobFromConfig_reflects m).
  - intros options Hp.
    exists {| options_ := options; config_ := JNull |}.
    unfold new, buildJobs. rewrite Hp. simpl. rewrite andb_false_r.
    split; reflexivity.
  - intros options path doc Hp Hl Hobj.
    exists {| options_ := options; config_ := doc |}.
    split; [eapply new_with_config; eassumption|].
    unfold buildJobs. simpl. rewrite Hobj, andb_false_r. reflexivity.
Qed.

End WithCollaborators.

Lemma buildJobs_precedence_witness :
  (exists m jobs,
      new Examples.demo_env (Examples.cli_options (Some "jobs.json")) = Ok m
      /\ buildJobs m = Ok jobs /\ length jobs = 2%nat
      /\ map input jobs = ["a.mp4"; "a.mp4"]
      /\ map output jobs = ["b.mp4"; "c.mp4"])
  /\ (exists m,
        new Examples.demo_env (Examples.cli_options None) = Ok m
        /\ buildJobs m = Ok [buildJobFromCli m])
  /\ (exists m,
        new Examples.demo_env (Examples.cli_options (Some "array.json")) = Ok m
        /\ buildJobs m = Ok [buildJobFromCli m]).
Proof.
  destruct (buildJobs_precedence Examples.demo_env) as (Hjobs & Hcli & Hother).
  split; [|split].
  - edestruct (Hjobs (Examples.cli_options (Some "jobs.json")) "jobs.json")
      as (m & jobs & Hnew & Hbuild & Hlen & Hall).
    + reflexivity.
    + vm_compute. reflexivity.
    + vm_compute. reflexivity.
    + repeat constructor.
    + exists m, jobs. split; [exact Hnew|]. split; [exact Hbuild|].
      split; [exact Hlen|].
      vm_compute in Hnew. injection Hnew as <-.
      vm_compute in Hbuild. injection Hbuild as <-.
      split; reflexivity.
  - apply Hcli. reflexivity.
  - apply (Hother _ "array.json" (JArray [])); reflexivity.
Defined.

Lemma buildJobs_untyped_throws m :
  is_Some (configPath (options_ m)) ->
  config_has_untyped (config_ m) ->
  is_ok (buildJobs m) = false.
Proof.
  intros Hp [[Hnojobs Hbad] | (arr & jobCfg & Hat & Hin & Hbad)].
  - pose proof (untyped_job_throws m _ Hbad) as Hthrow.
    destruct Hbad as (elems & e & Hops & _).
    unfold buildJobs. rewrite (bool_decide_eq_true_2 _ Hp), Hnojobs.
    destruct (config_ m); try discriminate. simpl.
    destruct (buildJobFromConfig m (JObject o)); [discriminate | reflexivity].
  - rewrite (buildJobs_jobs m arr Hp Hat).
    eapply omap_throws; [exact Hin|]. apply untyped_job_throws. exact Hbad.
Qed.

(** C10. When jobs are built from a config document in which an element
    of a job object's ["operations"] array has no ["type"], job building
    throws; [main] logs the fatal error and exits with code 1, and
    nothing else is in the log: no job was started.  An element whose
    ["type"] is a string outside the registry is, in contrast, read into
    a descriptor, and chain building skips it with a warning. *)
Theorem untyped_operation_aborts_run
    (env : Collaborators) (options : ProgramOptions) (path : string)
    (doc : json) :
  configPath options = Some path ->
  loadJson env path = Ok doc ->
  config_has_untyped doc ->
  (exists m, new env options = Ok m /\ is_ok (buildJobs m) = false)
  /\ (exists msg,
        main env options = ([EvLog LError "Fatal error: {}" [AStr msg]], 1))
  /\ (forall e tag ops,
        at_ e "type" = Ok (JString tag) -> registry tag = None ->
        read_descriptor e = Ok {| type := tag; params := e |}
        /\ VideoPipelineEngine.build_one {| type := tag; params := e |} ops
           = ([EvLog LWarn "Unknown operation type: {}" [AStr tag]], Ok ops)).
Proof.
  intros Hp Hl Hbad.
  pose proof (new_with_config env options path doc Hp Hl) as Hnew.
  set (m := {| options_ := options; config_ := doc |}) in *.
  assert (Hthrow : is_ok (buildJobs m) = false).
  { apply buildJobs_untyped_throws; simpl; [rewrite Hp; eauto | exact Hbad]. }
  split; [exists m; auto|]. split.
  - unfold main, lift_o. rewrite Hnew. cbn [ebind].
    destruct (buildJobs m) as [jobs|ex]; [discriminate|].
    exists (what ex). reflexivity.
  - intros e tag ops Hat Hreg. split.
    + unfold read_descriptor. rewrite Hat. reflexivity.
    + rewrite ChainFacts.build_one_spec. simpl. rewrite Hreg. reflexivity.
Qed.

Lemma untyped_operation_aborts_run_witness :
  (exists m, new Examples.demo_env (Examples.cli_options (Some "untyped.json")) = Ok m
             /\ is_ok (buildJobs m) = false)
  /\ main Examples.demo_env (Examples.cli_options (Some "untyped.json"))
     = ([EvLog LError "Fatal error: {}" [AStr "map::at"]], 1).
Proof.
  destruct (untyped_operation_aborts_run Examples.demo_env
              (Examples.cli_options (Some "untyped.json")) "untyped.json"
              (JObject {[ "jobs" :=
                 JArray [JObject {[ "input" := JString "a.mp4";
                                    "operations" := JArray [JObject ∅] ]}] ]}))
    as (Hm & _ & _).
  - reflexivity.
  - vm_compute. reflexivity.
  - right. eexists _, _. split; [vm_compute; reflexivity|].
    split; [left; reflexivity|].
    eexists _, _. split; [vm_compute; reflexivity|].
    split; [left; reflexivity | reflexivity].
  - split; [exact Hm | vm_compute; reflexivity].
Defined.

End JobFacts.

(** ** The engine *)

Module EngineFacts.
Import Operations Vocabulary VideoPipelineEngine.

(** *** Counting acquisitions and releases *)

Lemma n_acquired_app r a b :
  n_acquired r (a ++ b) = (n_acquired r a + n_acquired r b)%nat.
Proof. unfold n_acquired. rewrite List.filter_app, length_app. reflexivity. Qed.

Lemma n_released_app r a b :
  n_released r (a ++ b) = (n_released r a + n_released r b)%nat.
Proof. unfold n_released. rewrite List.filter_app, length_app. reflexivity. Qed.

Lemma neutral_counts log :
  Forall neutral log ->
  forall r, n_acquired r log = 0%nat /\ n_released r log = 0%nat.
Proof.
  intros H r. unfold n_acquired, n_released.
  induction H as [|e l He _ [IHa IHr]]; [split; reflexivity|].
  destruct (He r) as [Ha Hr]. simpl. rewrite Ha, Hr. auto.
Qed.

Lemma steady_refl ctx : steady ctx [] ctx.
Proof.
  unfold steady. repeat split; auto; intros r; simpl; lia.
Qed.

Lemma steady_trans c1 l1 c2 l2 c3 :
  steady c1 l1 c2 -> steady c2 l2 c3 -> steady c1 (l1 ++ l2) c3.
Proof.
  intros (Hi & Ho & He & Hv & Ha & Hs & Hr & Hh)
         (Hi' & Ho' & He' & Hv' & Ha' & Hs' & Hr' & Hh').
  unfold steady. repeat split; try congruence.
  - destruct Hs' as [Hs' | Hs']; [|auto]. rewrite Hs'. exact Hs.
  - intros r. rewrite n_released_app, Hr, Hr'. reflexivity.
  - intros r. rewrite n_acquired_app, <- Hh', <- Hh. lia.
Qed.

(** A step that only logs neutral events and leaves the handles and the
    video and audio roles alone. *)
Lemma steady_neutral ctx log ctx' :
  Forall neutral log ->
  inputFormat ctx' = inputFormat ctx ->
  outputFormat ctx' = outputFormat ctx ->
  videoEncoder ctx' = videoEncoder ctx ->
  videoDecoder ctx' = videoDecoder ctx ->
  videoStreamIndex ctx' = videoStreamIndex ctx ->
  audioStreamIndex ctx' = audioStreamIndex ctx ->
  (subtitleStreamIndex ctx' = subtitleStreamIndex ctx
   \/ subtitleStreamIndex ctx' = -1) ->
  steady ctx log ctx'.
Proof.
  intros Hn Hi Ho He Hd Hv Ha Hs. unfold steady.
  repeat split; auto.
  - intros r. apply (neutral_counts log Hn r).
  - intros r. destruct (neutral_counts log Hn r) as [-> _].
    destruct r; simpl; rewrite ?Hi, ?Ho, ?He, ?Hd; lia.
Qed.

Lemma neutral_log lvl fmt args : neutral (EvLog lvl fmt args).
Proof. intros []; split; reflexivity. Qed.

Lemma neutral_kernel k rect : neutral (EvKernel k rect).
Proof. intros []; split; reflexivity. Qed.

#[local] Hint Resolve neutral_log neutral_kernel : core.

Section WithCollaborators.
Context (env : Collaborators).

Lemma prepare_steady op ctx :
  steady ctx (prepare op ctx).1 (prepare op ctx).2.
Proof.
  destruct op; simpl; apply steady_neutral; simpl; auto.
Qed.

Lemma finalize_steady op ctx :
  steady ctx (finalize op ctx).1 (finalize op ctx).2.
Proof.
  destruct op; simpl; apply steady_neutral; simpl; auto.
Qed.

Lemma processFrame_log_kernels op ctx frame t :
  Forall (fun e => exists k rect, e = EvKernel k rect)
         (processFrame env op ctx frame t).1.
Proof.
  destruct op; simpl; try constructor.
  unfold WatermarkRemove_processFrame.
  destruct regions_ as [|r rs]; [constructor|].
  rewrite !wbind_log. simpl. rewrite !app_nil_r.
  apply Forall_forall. intros e Hin. apply list_elem_of_In in Hin.
  apply (WatermarkFacts.apply_calls_inside env) in Hin
    as (k & rect & -> & _). eauto.
Qed.

Lemma processFrame_log_neutral op ctx frame t :
  Forall neutral (processFrame env op ctx frame t).1.
Proof.
  eapply Forall_impl; [apply processFrame_log_kernels|].
  intros e (k & rect & ->). auto.
Qed.

Lemma processFrame_keeps op ctx frame t :
  (processFrame env op ctx frame t).2.1 = ctx
  /\ pts (processFrame env op ctx frame t).2.2 = pts frame.
Proof.
  destruct op; simpl; auto.
  unfold WatermarkRemove_processFrame.
  destruct regions_ as [|r rs]; [auto|].
  rewrite !wbind_val. simpl. auto.
Qed.

(** *** Loops that keep a relation between states *)

Lemma wfold_rel {A St} (R : St -> list event -> St -> Prop)
    (body : A -> St -> W St) (l : list A) :
  (forall s, R s [] s) ->
  (forall s1 l1 s2 l2 s3, R s1 l1 s2 -> R s2 l2 s3 -> R s1 (l1 ++ l2) s3) ->
  (forall a s, R s (body a s).1 (body a s).2) ->
  forall s, R s (wfold body l s).1 (wfold body l s).2.
Proof.
  intros Hrefl Htrans Hbody.
  induction l as [|a l IH]; intros s; [apply Hrefl|].
  rewrite wfold_cons. cbn [fst snd]. eapply Htrans; [apply Hbody | apply IH].
Qed.

Lemma wfold_i_rel {A St} (R : St -> list event -> St -> Prop)
    (body : nat -> A -> St -> W St) (l : list A) :
  (forall s, R s [] s) ->
  (forall s1 l1 s2 l2 s3, R s1 l1 s2 -> R s2 l2 s3 -> R s1 (l1 ++ l2) s3) ->
  (forall i a s, R s (body i a s).1 (body i a s).2) ->
  forall i s, R s (wfold_i body l i s).1 (wfold_i body l i s).2.
Proof.
  intros Hrefl Htrans Hbody.
  induction l as [|a l IH]; intros i s; [apply Hrefl|].
  rewrite wfold_i_cons. cbn [fst snd]. eapply Htrans; [apply Hbody | apply IH].
Qed.

Lemma steady_cons e ctx log ctx' :
  neutral e -> steady ctx log ctx' -> steady ctx (e :: log) ctx'.
Proof.
  intros He H. change (e :: log) with ([e] ++ log).
  eapply steady_trans; [|exact H].
  apply steady_neutral; auto.
Qed.

Lemma neutral_pipeline e : is_pipeline_event e = true -> neutral e.
Proof. destruct e; try discriminate; intros _ []; split; reflexivity. Qed.

Lemma prepare_all_steady ops ctx :
  steady ctx (prepare_all ops ctx).1 (prepare_all ops ctx).2.
Proof.
  unfold prepare_all.
  apply (wfold_i_rel steady); [apply steady_refl | apply steady_trans|].
  intros i op c. rewrite wbind_log, wbind_val. simpl.
  apply steady_cons; [apply neutral_pipeline; reflexivity|].
  apply prepare_steady.
Qed.

Lemma finalize_all_steady ops ctx :
  steady ctx (finalize_all ops ctx).1 (finalize_all ops ctx).2.
Proof.
  unfold finalize_all.
  apply (wfold_i_rel steady); [apply steady_refl | apply steady_trans|].
  intros i op c. rewrite wbind_log, wbind_val. simpl.
  apply steady_cons; [apply neutral_pipeline; reflexivity|].
  apply finalize_steady.
Qed.

(** The chain pass keeps the context steady and the time stamp of the
    frame. *)
Lemma process_all_steady ops ctx frame t :
  steady ctx (process_all env ops ctx frame t).1
             (process_all env ops ctx frame t).2.1
  /\ pts (process_all env ops ctx frame t).2.2 = pts frame.
Proof.
  unfold process_all.
  apply (wfold_i_rel
           (fun s l s' => steady s.1 l s'.1 /\ pts s'.2 = pts s.2)).
  - intros s. split; [apply steady_refl | reflexivity].
  - intros s1 l1 s2 l2 s3 [H1 H1'] [H2 H2'].
    split; [eapply steady_trans; eassumption | congruence].
  - intros i op [c f]. rewrite wbind_log, wbind_val. simpl.
    destruct (processFrame_keeps op c f t) as [Hc Hp].
    split; [|exact Hp].
    apply steady_cons; [apply neutral_pipeline; reflexivity|].
    rewrite Hc. apply steady_neutral; auto.
    apply processFrame_log_neutral.
Qed.

(** *** [decodeFrame] *)

Lemma decodeFrame_log ctx p fr :
  let d := FfmpegAdapter.decodeFrame env ctx p fr in
  d.1 = match videoDecoder ctx with
        | None => [EvAllocDecoder]
        | Some _ => []
        end ++ [EvDecodeFrame p d.2.1.2 d.2.2].
Proof.
  unfold FfmpegAdapter.decodeFrame.
  destruct (videoDecoder ctx) as [sent|]; simpl.
  - destruct (avcodec_send_packet env sent p <? 0); [reflexivity|].
    destruct (avcodec_receive_frame env (sent ++ [p])); reflexivity.
  - destruct (avcodec_send_packet env [] p <? 0); [reflexivity|].
    destruct (avcodec_receive_frame env [p]); reflexivity.
Qed.

Lemma decodeFrame_steady ctx p fr :
  let d := FfmpegAdapter.decodeFrame env ctx p fr in
  steady ctx d.1 d.2.1.1.
Proof.
  unfold FfmpegAdapter.decodeFrame.
  destruct (videoDecoder ctx) as [sent|] eqn:Hd; simpl.
  - destruct (avcodec_send_packet env sent p <? 0);
      [|destruct (avcodec_receive_frame env (sent ++ [p]))];
      unfold steady; simpl; repeat split; auto;
      intros []; unfold n_acquired, n_released, held; simpl;
      rewrite ?Hd; simpl; lia.
  - destruct (avcodec_send_packet env [] p <? 0);
      [|destruct (avcodec_receive_frame env [p])];
      unfold steady; simpl; repeat split; auto;
      intros []; unfold n_acquired, n_released, held; simpl;
      rewrite ?Hd; simpl; lia.
Qed.

(** *** One packet *)

Lemma process_packet_video ops p ctx :
  stream_index p = videoStreamIndex ctx ->
  let d := FfmpegAdapter.decodeFrame env ctx p av_frame_alloc in
  let c := process_all env ops d.2.1.1 d.2.2 (pts d.2.2) in
  process_packet env ops p ctx =
  if d.2.1.2 >=? 0
  then (d.1 ++ c.1 ++ [EvEncodeFrame c.2.2], c.2.1)
  else (d.1, d.2.1.1).
Proof.
  intros Hv. unfold process_packet. rewrite Hv, Z.eqb_refl.
  rewrite wbind_eq.
  destruct (FfmpegAdapter.decodeFrame env ctx p av_frame_alloc)
    as [dl [[c1 ret] frame]]; cbn [fst snd].
  destruct (ret >=? 0); [|simpl; rewrite app_nil_r; reflexivity].
  rewrite wbind_eq.
  destruct (process_all env ops c1 frame (pts frame)) as [pl [c2 f2]].
  simpl. rewrite ?app_nil_r. reflexivity.
Qed.

Lemma process_packet_audio ops p ctx :
  stream_index p <> videoStreamIndex ctx ->
  stream_index p = audioStreamIndex ctx ->
  process_packet env ops p ctx = ([EvCopyPacket p], ctx).
Proof.
  intros Hv Ha. unfold process_packet.
  apply Z.eqb_neq in Hv. rewrite Hv, Ha, Z.eqb_refl. reflexivity.
Qed.

Lemma process_packet_other ops p ctx :
  stream_index p <> videoStreamIndex ctx ->
  stream_index p <> audioStreamIndex ctx ->
  process_packet env ops p ctx = ([], ctx).
Proof.
  intros Hv Ha. unfold process_packet.
  apply Z.eqb_neq in Hv, Ha. rewrite Hv, Ha. reflexivity.
Qed.

Lemma process_packet_steady ops p ctx :
  steady ctx (process_packet env ops p ctx).1 (process_packet env ops p ctx).2.
Proof.
  destruct (Z.eq_dec (stream_index p) (videoStreamIndex ctx)) as [Hv|Hv].
  - rewrite (process_packet_video ops p ctx Hv). cbn zeta.
    pose proof (decodeFrame_steady ctx p av_frame_alloc) as Hd.
    cbn zeta in Hd.
    destruct (_ >=? 0); [|exact Hd]. cbn [fst snd].
    eapply steady_trans; [exact Hd|].
    rewrite <- (app_nil_r (_ ++ [EvEncodeFrame _])), <- app_assoc.
    eapply steady_trans; [apply process_all_steady|].
    apply steady_cons; [apply neutral_pipeline; reflexivity|].
    apply steady_refl.
  - destruct (Z.eq_dec (stream_index p) (audioStreamIndex ctx)) as [Ha|Ha].
    + rewrite (process_packet_audio ops p ctx Hv Ha). simpl.
      apply steady_cons; [apply neutral_pipeline; reflexivity|].
      apply steady_refl.
    + rewrite (process_packet_other ops p ctx Hv Ha). apply steady_refl.
Qed.

Lemma read_loop_steady ops pkts ctx :
  steady ctx (read_loop env ops pkts ctx).1 (read_loop env ops pkts ctx).2.
Proof.
  unfold read_loop.
  apply (wfold_rel steady); [apply steady_refl | apply steady_trans|].
  intros p c. apply process_packet_steady.
Qed.

Lemma processFrames_eq ops ctx :
  let c1 := prepare_all ops ctx in
  let c2 := read_loop env ops (input_packets c1.2) c1.2 in
  let c3 := finalize_all ops c2.2 in
  processFrames env ops ctx
  = (c1.1 ++ c2.1 ++ EvFlushEncoder :: c3.1, c3.2).
Proof.
  unfold processFrames. rewrite !wbind_eq. simpl. reflexivity.
Qed.

Lemma processFrames_steady ops ctx :
  steady ctx (processFrames env ops ctx).1 (processFrames env ops ctx).2.
Proof.
  rewrite processFrames_eq. cbn zeta. cbn [fst snd].
  eapply steady_trans; [apply prepare_all_steady|].
  eapply steady_trans; [apply read_loop_steady|].
  apply steady_cons; [apply neutral_pipeline; reflexivity|].
  apply finalize_all_steady.
Qed.

(** *** The trace of the per-packet protocol *)

Lemma pipeline_trace_app a b :
  pipeline_trace (a ++ b) = pipeline_trace a ++ pipeline_trace b.
Proof. apply List.filter_app. Qed.

Lemma prepare_trace op ctx : pipeline_trace (prepare op ctx).1 = [].
Proof. destruct op; reflexivity. Qed.

Lemma finalize_trace op ctx : pipeline_trace (finalize op ctx).1 = [].
Proof. destruct op; reflexivity. Qed.

Lemma processFrame_trace op ctx frame t :
  pipeline_trace (processFrame env op ctx frame t).1 = [].
Proof.
  pose proof (processFrame_log_kernels op ctx frame t) as H.
  induction H as [|e l (k & rect & ->) _ IH]; [reflexivity|].
  exact IH.
Qed.

(** A loop whose turn [i] logs the event [E i] and then calls a hook
    that adds nothing to the trace. *)
Lemma wfold_i_trace {A St} (E : nat -> event) (h : A -> St -> W St)
    (l : list A) :
  (forall i, is_pipeline_event (E i) = true) ->
  (forall a s, pipeline_trace (h a s).1 = []) ->
  forall i s,
    pipeline_trace
      (wfold_i (fun i a s => let* _ := tell (E i) in h a s) l i s).1
    = map E (seq i (length l)).
Proof.
  intros HE Hh. induction l as [|a l IH]; intros i s; [reflexivity|].
  rewrite wfold_i_cons. cbn [fst snd length seq map].
  rewrite pipeline_trace_app, IH, wbind_log. cbn [tell fst snd app].
  unfold pipeline_trace at 1. cbn [List.filter]. rewrite HE.
  fold (pipeline_trace (h a s).1). rewrite Hh. reflexivity.
Qed.

Lemma prepare_all_trace ops ctx :
  pipeline_trace (prepare_all ops ctx).1 = map EvPrepare (seq 0 (length ops)).
Proof.
  unfold prepare_all.
  apply (wfold_i_trace EvPrepare prepare); [reflexivity | apply prepare_trace].
Qed.

Lemma finalize_all_trace ops ctx :
  pipeline_trace (finalize_all ops ctx).1
  = map EvFinalize (seq 0 (length ops)).
Proof.
  unfold finalize_all.
  apply (wfold_i_trace EvFinalize finalize);
    [reflexivity | apply finalize_trace].
Qed.

Lemma process_all_trace ops ctx frame t :
  pipeline_trace (process_all env ops ctx frame t).1
  = chain_pass (length ops) t.
Proof.
  unfold process_all, chain_pass.
  apply (wfold_i_trace (fun i => EvProcessFrame i t)
           (fun op st => processFrame env op st.1 st.2 t));
    [reflexivity|].
  intros op st. apply processFrame_trace.
Qed.

Lemma decodeFrame_trace ctx p fr :
  let d := FfmpegAdapter.decodeFrame env ctx p fr in
  pipeline_trace d.1 = [EvDecodeFrame p d.2.1.2 d.2.2].
Proof.
  cbn zeta. rewrite decodeFrame_log.
  destruct (videoDecoder ctx); reflexivity.
Qed.

(** Every packet contributes one block to the trace. *)
Lemma process_packet_block ops p ctx :
  packet_block (length ops)
    (pipeline_trace (process_packet env ops p ctx).1).
Proof.
  destruct (Z.eq_dec (stream_index p) (videoStreamIndex ctx)) as [Hv|Hv].
  - rewrite (process_packet_video ops p ctx Hv). cbn zeta.
    pose proof (decodeFrame_trace ctx p av_frame_alloc) as Hd.
    cbn zeta in Hd.
    destruct (Z.geb_spec
                (FfmpegAdapter.decodeFrame env ctx p av_frame_alloc).2.1.2 0)
      as [Hret|Hret]; cbn [fst snd].
    + rewrite !pipeline_trace_app, Hd, process_all_trace.
      apply block_frame; [lia|]. apply process_all_steady.
    + rewrite Hd. apply block_skipped. lia.
  - destruct (Z.eq_dec (stream_index p) (audioStreamIndex ctx)) as [Ha|Ha].
    + rewrite (process_packet_audio ops p ctx Hv Ha). apply block_copied.
    + rewrite (process_packet_other ops p ctx Hv Ha). apply block_ignored.
Qed.

Lemma read_loop_blocks ops pkts : forall ctx,
  exists blocks,
    Forall (packet_block (length ops)) blocks
    /\ length blocks = length pkts
    /\ pipeline_trace (read_loop env ops pkts ctx).1 = concat blocks.
Proof.
  unfold read_loop. induction pkts as [|p pkts IH]; intros ctx.
  - exists []. repeat split. constructor.
  - rewrite wfold_cons. cbn [fst].
    destruct (IH (process_packet env ops p ctx).2) as (bs & Hall & Hlen & Htr).
    exists (pipeline_trace (process_packet env ops p ctx).1 :: bs).
    split; [constructor; [apply process_packet_block | exact Hall]|].
    split; [simpl; congruence|].
    rewrite pipeline_trace_app, Htr. reflexivity.
Qed.

(** *** Orders of the frames *)

Lemma emitted_app a b : emitted (a ++ b) = emitted a ++ emitted b.
Proof. apply List.flat_map_app. Qed.

Lemma submitted_app a b : submitted (a ++ b) = submitted a ++ submitted b.
Proof. apply List.flat_map_app. Qed.

Lemma processed_by_app i a b :
  processed_by i (a ++ b) = processed_by i a ++ processed_by i b.
Proof. apply List.flat_map_app. Qed.

(** The three projections look at events of the trace only. *)
Lemma projections_of_trace log i :
  emitted (pipeline_trace log) = emitted log
  /\ submitted (pipeline_trace log) = submitted log
  /\ processed_by i (pipeline_trace log) = processed_by i log.
Proof.
  induction log as [|e log (IH1 & IH2 & IH3)]; [auto|].
  unfold pipeline_trace in *. cbn [List.filter].
  destruct e; simpl; rewrite ?IH1, ?IH2, ?IH3; auto.
Qed.

Lemma processed_by_pass i t n : forall a,
  processed_by i (map (fun j => EvProcessFrame j t) (seq a n))
  = if (a <=? i)%nat && (i <? a + n)%nat then [t] else [].
Proof.
  induction n as [|n IH]; intros a.
  - simpl. destruct (Nat.leb_spec a i), (Nat.ltb_spec i (a + 0)); simpl;
      try reflexivity; lia.
  - cbn [seq map]. unfold processed_by in *. cbn [flat_map].
    rewrite IH.
    destruct (Nat.eqb_spec i a), (Nat.leb_spec a i), (Nat.leb_spec (S a) i),
      (Nat.ltb_spec i (S a + n)), (Nat.ltb_spec i (a + S n));
      simpl; try reflexivity; lia.
Qed.

Lemma hooks_emit_nothing (E : nat -> event) l :
  (forall i, match E i with
             | EvDecodeFrame _ _ _ | EvEncodeFrame _ | EvProcessFrame _ _ => False
             | _ => True
             end) ->
  forall j, emitted (map E l) = [] /\ submitted (map E l) = []
            /\ processed_by j (map E l) = [].
Proof.
  intros HE j. induction l as [|i l (IH1 & IH2 & IH3)]; [auto|].
  unfold emitted, submitted, processed_by in *. cbn [map flat_map].
  rewrite IH1, IH2, IH3. specialize (HE i).
  destruct (E i); simpl; tauto.
Qed.

Lemma chain_pass_silent n t :
  emitted (chain_pass n t) = [] /\ submitted (chain_pass n t) = [].
Proof.
  unfold chain_pass. generalize (seq 0 n). intros l.
  induction l as [|i l [IH1 IH2]]; [auto|].
  unfold emitted, submitted in *. simpl. auto.
Qed.

Lemma block_orders n b :
  packet_block n b ->
  submitted b = emitted b
  /\ forall i, (i < n)%nat -> processed_by i b = emitted b.
Proof.
  intros Hb. destruct Hb as [p ret f f' Hret Hpts | p ret f Hret | p |].
  - change (EvDecodeFrame p ret f :: chain_pass n (pts f) ++ [EvEncodeFrame f'])
      with ([EvDecodeFrame p ret f] ++ chain_pass n (pts f) ++ [EvEncodeFrame f']).
    rewrite !emitted_app, !submitted_app.
    destruct (chain_pass_silent n (pts f)) as [-> ->].
    assert (Hem : emitted [EvDecodeFrame p ret f] = [pts f]).
    { unfold emitted. simpl. destruct (Z.geb_spec ret 0); [reflexivity | lia]. }
    rewrite Hem. split.
    + unfold emitted, submitted. simpl. rewrite Hpts. reflexivity.
    + intros i Hi. rewrite !processed_by_app.
      unfold chain_pass. rewrite processed_by_pass.
      destruct (Nat.leb_spec 0 i), (Nat.ltb_spec i (0 + n)); try lia.
      reflexivity.
  - unfold emitted, submitted, processed_by. simpl.
    destruct (Z.geb_spec ret 0); [lia | auto].
  - auto.
  - auto.
Qed.

Lemma blocks_orders n bs :
  Forall (packet_block n) bs ->
  submitted (concat bs) = emitted (concat bs)
  /\ forall i, (i < n)%nat ->
       processed_by i (concat bs) = emitted (concat bs).
Proof.
  intros Hall. induction Hall as [|b bs Hb _ [IH1 IH2]]; [auto|].
  cbn [concat]. rewrite emitted_app, submitted_app.
  destruct (block_orders n b Hb) as [-> Hp]. rewrite IH1.
  split; [reflexivity|]. intros i Hi.
  rewrite processed_by_app, (Hp i Hi), (IH2 i Hi). reflexivity.
Qed.

(** *** The hooks, operation by operation *)

(** A [for] loop over the chain calls the hooks position by position. *)
Lemma wfold_i_from {St} (E : nat -> event)
    (hook : IVideoOperation -> St -> W St) (ops : list IVideoOperation) :
  forall (pre : list IVideoOperation) (acc : W St),
    let body := fun (i : nat) op s => let* _ := tell (E i) in hook op s in
    fold_left (call_at E hook (pre ++ ops)) (seq (length pre) (length ops))
      acc
    = (acc.1 ++ (wfold_i body ops (length pre) acc.2).1,
       (wfold_i body ops (length pre) acc.2).2).
Proof.
  induction ops as [|op ops IH]; intros pre acc body.
  - simpl. rewrite app_nil_r. destruct acc; reflexivity.
  - subst body. rewrite wfold_i_cons. cbn [fst snd length seq fold_left].
    rewrite wbind_log, wbind_val. cbn [tell fst snd].
    replace (pre ++ op :: ops) with ((pre ++ [op]) ++ ops)
      by (rewrite <- app_assoc; reflexivity).
    replace (S (length pre)) with (length (pre ++ [op]))
      by (rewrite length_app; simpl; lia).
    rewrite IH. cbn zeta.
    unfold call_at at 1 2 3.
    assert (Hop : ((pre ++ [op]) ++ ops) !! length pre = Some op).
    { rewrite <- app_assoc. apply list_lookup_middle. reflexivity. }
    rewrite Hop. cbn [fst snd].
    rewrite <- app_assoc. reflexivity.
Qed.

Lemma wfold_i_in_order {St} (E : nat -> event)
    (hook : IVideoOperation -> St -> W St) (ops : list IVideoOperation)
    (s : St) :
  wfold_i (fun (i : nat) op s => let* _ := tell (E i) in hook op s)
    ops 0%nat s
  = hooks_in_order E hook ops s.
Proof.
  unfold hooks_in_order.
  pose proof (wfold_i_from E hook ops [] ([], s)) as H.
  cbn [fst snd app length] in H. rewrite H.
  destruct (wfold_i _ ops 0%nat s); reflexivity.
Qed.

Lemma prepare_all_in_order ops ctx :
  prepare_all ops ctx = hooks_in_order EvPrepare prepare ops ctx.
Proof. apply (wfold_i_in_order EvPrepare prepare). Qed.

Lemma finalize_all_in_order ops ctx :
  finalize_all ops ctx = hooks_in_order EvFinalize finalize ops ctx.
Proof. apply (wfold_i_in_order EvFinalize finalize). Qed.

Lemma process_all_in_order ops ctx frame :
  process_all env ops ctx frame (pts frame) = frame_pass env ops ctx frame.
Proof.
  apply (wfold_i_in_order (fun i => EvProcessFrame i (pts frame))
           (fun op st => processFrame env op st.1 st.2 (pts frame))).
Qed.

Lemma process_packet_log ops p ctx :
  packet_log env ops p (process_packet env ops p ctx).1.
Proof.
  destruct (Z.eq_dec (stream_index p) (videoStreamIndex ctx)) as [Hv|Hv].
  - rewrite (process_packet_video ops p ctx Hv). cbn zeta.
    destruct (Z.geb_spec
                (FfmpegAdapter.decodeFrame env ctx p av_frame_alloc).2.1.2 0)
      as [Hret|Hret]; cbn [fst snd].
    + rewrite process_all_in_order. apply (log_frame env ops p ctx). lia.
    + apply (log_skipped env ops p ctx). lia.
  - destruct (Z.eq_dec (stream_index p) (audioStreamIndex ctx)) as [Ha|Ha].
    + rewrite (process_packet_audio ops p ctx Hv Ha). apply log_copied.
    + rewrite (process_packet_other ops p ctx Hv Ha). apply log_ignored.
Qed.

Lemma read_loop_logs ops pkts : forall ctx,
  exists logs,
    Forall2 (packet_log env ops) pkts logs
    /\ (read_loop env ops pkts ctx).1 = concat logs.
Proof.
  unfold read_loop. induction pkts as [|p pkts IH]; intros ctx.
  - exists []. split; [constructor|reflexivity].
  - rewrite wfold_cons. cbn [fst].
    destruct (IH (process_packet env ops p ctx).2) as (ls & Hall & Hlog).
    exists ((process_packet env ops p ctx).1 :: ls).
    split; [constructor; [apply process_packet_log | exact Hall]|].
    rewrite Hlog. reflexivity.
Qed.

(** C4. In every run of [processFrames] on a chain of [n] operations:
    the trace is the [n] prepare hooks in chain order, then one block
    per input packet in input order, then the encoder flush, then the
    [n] finalize hooks in chain order; the block of a decoded video
    frame is the decode, the [n] process-frame hooks in chain order on
    that frame, and the submission of the frame to the encoder; and the
    frames are submitted to the encoder, and processed by each operation
    of the chain, in the order the decoder emitted them.

    The hook called at position [i] of a phase is the hook of the
    operation at position [i] of the chain, on what the operations
    before it in the chain left: the whole log is what the prepare hooks
    of the operations do, one call per operation in chain order, then
    for each input packet what that packet contributes (for a decoded
    frame the decode, what the process-frame hooks of the operations do
    to the frame, one call per operation in chain order, and the
    submission to the encoder of the frame that comes out), then the
    flush, then what the finalize hooks of the operations do, one call
    per operation in chain order; and the context the run ends in is the
    one the last finalize hook leaves. *)
Theorem processFrames_protocol (ops : list IVideoOperation)
    (ctx : VideoContext) :
  let log := (processFrames env ops ctx).1 in
  let n := length ops in
  (exists blocks,
      Forall (packet_block n) blocks
      /\ length blocks = length (input_packets ctx)
      /\ pipeline_trace log
         = map EvPrepare (seq 0 n) ++ concat blocks
           ++ EvFlushEncoder :: map EvFinalize (seq 0 n))
  /\ submitted log = emitted log
  /\ (forall i, (i < n)%nat -> processed_by i log = emitted log)
  /\ (exists packet_logs ctx2,
        let prepared := hooks_in_order EvPrepare prepare ops ctx in
        let finalized := hooks_in_order EvFinalize finalize ops ctx2 in
        Forall2 (packet_log env ops) (input_packets ctx) packet_logs
        /\ processFrames env ops ctx
           = (prepared.1 ++ concat packet_logs
                ++ EvFlushEncoder :: finalized.1,
              finalized.2)).
Proof.
  cbn zeta. rewrite processFrames_eq. cbn zeta. cbn [fst].
  set (c1 := prepare_all ops ctx).
  set (c2 := read_loop env ops (input_packets c1.2) c1.2).
  set (c3 := finalize_all ops c2.2).
  set (n := length ops).
  set (log := c1.1 ++ c2.1 ++ EvFlushEncoder :: c3.1).
  destruct (read_loop_blocks ops (input_packets c1.2) c1.2)
    as (bs & Hall & Hlen & Htr).
  fold c2 n in Htr, Hall.
  assert (Hin : input_packets c1.2 = input_packets ctx).
  { unfold input_packets. subst c1.
    destruct (prepare_all_steady ops ctx) as (-> & _). reflexivity. }
  assert (Htrace :
    pipeline_trace log
    = map EvPrepare (seq 0 n) ++ concat bs
      ++ [EvFlushEncoder] ++ map EvFinalize (seq 0 n)).
  { subst log. change (EvFlushEncoder :: c3.1) with ([EvFlushEncoder] ++ c3.1).
    rewrite !pipeline_trace_app, Htr. subst c1 c3 n.
    rewrite prepare_all_trace, finalize_all_trace. reflexivity. }
  destruct (blocks_orders n bs Hall) as [Hsub Hproc].
  assert (Hhooks : forall i,
             emitted (map EvPrepare (seq 0 n)) = []
             /\ submitted (map EvPrepare (seq 0 n)) = []
             /\ processed_by i (map EvPrepare (seq 0 n)) = []
             /\ emitted (map EvFinalize (seq 0 n)) = []
             /\ submitted (map EvFinalize (seq 0 n)) = []
             /\ processed_by i (map EvFinalize (seq 0 n)) = []).
  { intros i.
    destruct (hooks_emit_nothing EvPrepare (seq 0 n) (fun _ => I) i)
      as (-> & -> & ->).
    destruct (hooks_emit_nothing EvFinalize (seq 0 n) (fun _ => I) i)
      as (-> & -> & ->).
    repeat split. }
  split; [|split; [|split]].
  - exists bs. split; [exact Hall|]. split; [|exact Htrace].
    rewrite Hlen, Hin. reflexivity.
  - destruct (projections_of_trace log 0%nat) as (<- & <- & _).
    destruct (Hhooks 0%nat) as (Hp1 & Hp2 & _ & Hf1 & Hf2 & _).
    rewrite Htrace, !emitted_app, !submitted_app, Hp1, Hp2, Hf1, Hf2, Hsub.
    reflexivity.
  - intros i Hi.
    destruct (projections_of_trace log i) as (<- & _ & <-).
    destruct (Hhooks i) as (Hp1 & _ & Hp3 & Hf1 & _ & Hf3).
    rewrite Htrace, !emitted_app, !processed_by_app, Hp1, Hp3, Hf1, Hf3.
    rewrite (Hproc i Hi). reflexivity.
  - destruct (read_loop_logs ops (input_packets c1.2) c1.2)
      as (ls & Hlogs & Hlog).
    fold c2 in Hlog. rewrite Hin in Hlogs.
    exists ls, c2.2. split; [exact Hlogs|].
    subst log c3. rewrite <- finalize_all_in_order, <- prepare_all_in_order.
    fold c1. rewrite Hlog. reflexivity.
Qed.

(** C6. For every video packet whose decode fails ([decodeFrame]
    returns a negative value), the loop body does nothing beyond the
    decode attempt: no process-frame hook runs and nothing is submitted
    to the encoder; and the loop goes on with the next packet, from the
    context the attempt left. *)
Theorem decode_failure_skips_frame (ops : list IVideoOperation)
    (p : AVPacket) (rest : list AVPacket) (ctx : VideoContext) :
  let d := FfmpegAdapter.decodeFrame env ctx p av_frame_alloc in
  stream_index p = videoStreamIndex ctx ->
  d.2.1.2 < 0 ->
  process_packet env ops p ctx = (d.1, d.2.1.1)
  /\ pipeline_trace d.1 = [EvDecodeFrame p d.2.1.2 d.2.2]
  /\ List.filter is_chain_or_encode (process_packet env ops p ctx).1 = []
  /\ read_loop env ops (p :: rest) ctx
     = (d.1 ++ (read_loop env ops rest d.2.1.1).1,
        (read_loop env ops rest d.2.1.1).2).
Proof.
  intros d Hv Hret.
  assert (Hstep : process_packet env ops p ctx = (d.1, d.2.1.1)).
  { rewrite (process_packet_video ops p ctx Hv). cbn zeta. fold d.
    destruct (Z.geb_spec d.2.1.2 0); [lia | reflexivity]. }
  split; [exact Hstep|].
  split; [apply decodeFrame_trace|].
  split.
  - rewrite Hstep. cbn [fst]. subst d. rewrite decodeFrame_log.
    destruct (videoDecoder ctx); reflexivity.
  - unfold read_loop. rewrite wfold_cons, Hstep. reflexivity.
Qed.

(** *** Roles *)

Lemma steady_roles_distinct ctx log ctx' :
  steady ctx log ctx' -> roles_distinct ctx -> roles_distinct ctx'.
Proof.
  intros (_ & _ & _ & Hv & Ha & Hs & _) [H1 H2].
  unfold roles_distinct. rewrite Hv, Ha.
  destruct Hs as [-> | ->]; [auto|].
  split; intros; [split|]; try lia; apply H1; assumption.
Qed.

Lemma assign_roles_distinct l : forall i ctx,
  0 <= i ->
  videoStreamIndex ctx < i -> audioStreamIndex ctx < i ->
  subtitleStreamIndex ctx < i -> roles_distinct ctx ->
  roles_distinct (FfmpegAdapter.assign_roles l i ctx).
Proof.
  induction l as [|t l IH]; intros i ctx Hi Hv Ha Hs Hd; [exact Hd|].
  cbn [FfmpegAdapter.assign_roles]. cbn zeta.
  destruct Hd as [H1 H2]. unfold roles_distinct in IH.
  repeat match goal with
    | |- context [if ?b then _ else _] => destruct b
    end; apply IH; simpl; try lia; split; intros; try split; try lia;
    try (apply H1; lia); try (apply H2; lia).
Qed.

(** After [initialize], no stream has two roles. *)
Lemma opened_roles_distinct fmt job : roles_distinct (opened fmt job).
Proof.
  unfold opened.
  assert (H : roles_distinct
                (FfmpegAdapter.assign_roles (streams fmt) 0
                   (set_inputFormat (Some fmt) default_context))).
  { apply assign_roles_distinct; simpl; try lia.
    split; simpl; intros; lia. }
  exact H.
Qed.

(** The contexts the packets of a run are dispatched in have distinct
    roles. *)
Lemma read_loop_contexts_distinct ops fmt job pre :
  let c1 := (prepare_all ops (opened fmt job)).2 in
  roles_distinct (read_loop env ops pre c1).2.
Proof.
  cbn zeta.
  eapply steady_roles_distinct; [apply read_loop_steady|].
  eapply steady_roles_distinct; [apply prepare_all_steady|].
  apply opened_roles_distinct.
Qed.

(** Dispatch in a context where no stream has two roles. *)
Lemma process_packet_by_role ops p ctx :
  let r := process_packet env ops p ctx in
  let d := FfmpegAdapter.decodeFrame env ctx p av_frame_alloc in
  let c := process_all env ops d.2.1.1 d.2.2 (pts d.2.2) in
  roles_distinct ctx ->
  0 <= stream_index p ->
  (stream_index p = videoStreamIndex ctx ->
   (0 <= d.2.1.2 ->
    r = (d.1 ++ c.1 ++ [EvEncodeFrame c.2.2], c.2.1)
    /\ pipeline_trace r.1
       = EvDecodeFrame p d.2.1.2 d.2.2
         :: chain_pass (length ops) (pts d.2.2) ++ [EvEncodeFrame c.2.2])
   /\ (d.2.1.2 < 0 -> r = (d.1, d.2.1.1)))
  /\ (stream_index p = audioStreamIndex ctx -> r = ([EvCopyPacket p], ctx))
  /\ (stream_index p = subtitleStreamIndex ctx -> r = ([], ctx))
  /\ (stream_index p <> videoStreamIndex ctx ->
      stream_index p <> audioStreamIndex ctx -> r = ([], ctx)).
Proof.
  intros r d c [H1 H2] Hp. subst r.
  split; [|split; [|split]].
  - intros Hv. rewrite (process_packet_video ops p ctx Hv). cbn zeta.
    fold d. fold c. split.
    + intros Hret. destruct (Z.geb_spec d.2.1.2 0); [|lia].
      split; [reflexivity|]. cbn [fst].
      rewrite !pipeline_trace_app. subst c d.
      rewrite decodeFrame_trace, process_all_trace. reflexivity.
    + intros Hret. destruct (Z.geb_spec d.2.1.2 0); [lia | reflexivity].
  - intros Ha. apply process_packet_audio; [|exact Ha].
    intros Hv. destruct H1 as [H1 _]; [lia|]. congruence.
  - intros Hs. apply process_packet_other.
    + intros Hv. destruct H1 as [_ H1]; [lia|]. congruence.
    + intros Ha. apply H2; [lia | congruence].
  - apply process_packet_other.
Qed.

(** C7. During the Running phase of a job whose input opened as [fmt],
    in the context [ctx] the loop has reached after any packets [pre],
    the loop body dispatches the next packet [p] by the role of its
    stream: on the video stream it is decoded and, when a frame comes
    out, the frame goes through the chain in chain order and to the
    encoder; on the audio stream the packet itself is copied to the
    output and the context is untouched; on the subtitle stream, or on
    any stream that is neither the video nor the audio stream, nothing
    happens: no hook runs and nothing is written. *)
Theorem packet_dispatch_by_role (ops : list IVideoOperation)
    (fmt : AVFormatContext) (job : VideoJob) (pre : list AVPacket)
    (p : AVPacket) :
  let ctx := (read_loop env ops pre (prepare_all ops (opened fmt job)).2).2 in
  let r := process_packet env ops p ctx in
  let d := FfmpegAdapter.decodeFrame env ctx p av_frame_alloc in
  let c := process_all env ops d.2.1.1 d.2.2 (pts d.2.2) in
  0 <= stream_index p ->
  (stream_index p = videoStreamIndex ctx ->
   (0 <= d.2.1.2 ->
    r = (d.1 ++ c.1 ++ [EvEncodeFrame c.2.2], c.2.1)
    /\ pipeline_trace r.1
       = EvDecodeFrame p d.2.1.2 d.2.2
         :: chain_pass (length ops) (pts d.2.2) ++ [EvEncodeFrame c.2.2])
   /\ (d.2.1.2 < 0 -> r = (d.1, d.2.1.1)))
  /\ (stream_index p = audioStreamIndex ctx -> r = ([EvCopyPacket p], ctx))
  /\ (stream_index p = subtitleStreamIndex ctx -> r = ([], ctx))
  /\ (stream_index p <> videoStreamIndex ctx ->
      stream_index p <> audioStreamIndex ctx -> r = ([], ctx)).
Proof.
  intros ctx r d c Hp.
  apply process_packet_by_role; [|exact Hp].
  apply read_loop_contexts_distinct.
Qed.

(** *** Resources over a whole run *)

Lemma ebind_ok {A B} (m : Eff A) (k : A -> Eff B) l a :
  m = (l, Ok a) -> ebind m k = (l ++ (k a).1, (k a).2).
Proof. intros ->. simpl. destruct (k a). reflexivity. Qed.

Lemma ebind_throw {A B} (m : Eff A) (k : A -> Eff B) l e :
  m = (l, Throw e) -> ebind m k = (l, Throw e).
Proof. intros ->. reflexivity. Qed.

Lemma assign_roles_handles l : forall i ctx,
  let ctx' := FfmpegAdapter.assign_roles l i ctx in
  inputFormat ctx' = inputFormat ctx
  /\ outputFormat ctx' = outputFormat ctx
  /\ videoDecoder ctx' = videoDecoder ctx
  /\ videoEncoder ctx' = videoEncoder ctx.
Proof.
  induction l as [|t l IH]; intros i ctx; [simpl; auto|].
  cbn [FfmpegAdapter.assign_roles]. cbn zeta.
  match goal with
  | |- context [FfmpegAdapter.assign_roles l (i + 1) ?c] =>
      destruct (IH (i + 1) c) as (-> & -> & -> & ->)
  end.
  repeat match goal with
    | |- context [if ?b then _ else _] => destruct b
    end; simpl; auto.
Qed.

Lemma buildOperations_log_neutral ds : forall ops0,
  Forall neutral (efold build_one ds ops0).1.
Proof.
  induction ds as [|d ds IH]; intros ops0; [constructor|].
  cbn [efold]. rewrite ChainFacts.build_one_spec.
  destruct (registry (type d)) as [mk|].
  - destruct (mk (params d)) as [o|e]; [|constructor].
    cbn [ebind]. specialize (IH (ops0 ++ [o])).
    destruct (efold build_one ds (ops0 ++ [o])). exact IH.
  - cbn [ebind]. specialize (IH ops0).
    destruct (efold build_one ds ops0). simpl.
    constructor; [apply neutral_log | exact IH].
Qed.

(** [close] releases what the context holds, each handle once. *)
Lemma close_counts ctx r :
  n_released r (FfmpegAdapter.close ctx).1 = held ctx r
  /\ n_acquired r (FfmpegAdapter.close ctx).1 = 0%nat.
Proof.
  unfold FfmpegAdapter.close.
  destruct ctx as [i d e o v a s t g].
  destruct i, d, e, o, r; split; reflexivity.
Qed.

Lemma close_clears ctx r : held (FfmpegAdapter.close ctx).2 r = 0%nat.
Proof.
  unfold FfmpegAdapter.close.
  destruct ctx as [i d e o v a s t g].
  destruct i, d, e, o, r; reflexivity.
Qed.

Lemma initialize_cases job :
  (avformat_open_input env (input job) = None
   /\ initialize env job default_context
      = ([EvOpenInput (input job) false],
         Throw (runtime_error ("Failed to open input file: " +:+ input job))))
  \/ (exists fmt,
        avformat_open_input env (input job) = Some fmt
        /\ avformat_alloc_output_context2 env (output job) = false
        /\ initialize env job default_context
           = ([EvOpenInput (input job) true; EvAllocOutput (output job) false],
              Throw (runtime_error "Failed to create output format context")))
  \/ (exists fmt,
        avformat_open_input env (input job) = Some fmt
        /\ avformat_alloc_output_context2 env (output job) = true
        /\ initialize env job default_context
           = ([EvOpenInput (input job) true; EvAllocOutput (output job) true],
              Ok (opened fmt job))).
Proof.
  unfold initialize, FfmpegAdapter.openInput, FfmpegAdapter.openOutput, opened.
  destruct (avformat_open_input env (input job)) as [fmt|]; [|left; auto].
  right. cbn [ebind].
  destruct (avformat_alloc_output_context2 env (output job));
    [right | left]; exists fmt; auto.
Qed.

Lemma opened_held fmt job r :
  held (opened fmt job) r
  = n_acquired r [EvOpenInput (input job) true; EvAllocOutput (output job) true].
Proof.
  unfold opened.
  destruct (assign_roles_handles (streams fmt) 0
              (set_inputFormat (Some fmt) default_context))
    as (Hi & Ho & Hd & He).
  cbn zeta in *.
  destruct r; unfold held; simpl; rewrite ?Hi, ?Ho, ?Hd, ?He; reflexivity.
Qed.

Lemma run_cases job :
  (exists l e,
      run env job = (l, Throw e) /\ forall r, n_released r l = 0%nat)
  \/ (exists l, run env job = (l, Ok tt) /\ released_exactly_once l).
Proof.
  unfold run.
  destruct (initialize_cases job)
    as [[_ Hinit] | [(fmt & _ & _ & Hinit) | (fmt & _ & _ & Hinit)]].
  - left. rewrite (ebind_throw _ _ _ _ Hinit).
    eexists _, _. split; [reflexivity|]. intros []; reflexivity.
  - left. rewrite (ebind_throw _ _ _ _ Hinit).
    eexists _, _. split; [reflexivity|]. intros []; reflexivity.
  - rewrite (ebind_ok _ _ _ _ Hinit).
    pose proof (buildOperations_log_neutral (operations job) []) as Hb.
    fold (buildOperations job []) in Hb.
    destruct (buildOperations job []) as [lb [ops|e]]; cbn [fst] in Hb.
    + right. cbn [ebind lift_w fst snd eret].
      pose proof (processFrames_steady ops (opened fmt job)) as Hp.
      destruct (processFrames env ops (opened fmt job)) as [lp ctx2].
      cbn [fst snd] in *. unfold shutdown.
      pose proof (close_counts ctx2) as Hc.
      destruct (FfmpegAdapter.close ctx2) as [lc ctx3].
      cbn [fst snd] in *.
      eexists. split; [reflexivity|].
      destruct Hp as (_ & _ & _ & _ & _ & _ & Hrel & Hheld).
      intros r. specialize (Hrel r). specialize (Hheld r).
      destruct (Hc r) as [Hcr Hca].
      destruct (neutral_counts lb Hb r) as [Hba Hbr].
      rewrite opened_held in Hheld.
      rewrite !app_nil_r.
      change ([EvOpenInput (input job) true; EvAllocOutput (output job) true]
                ++ lb ++ lp ++ lc)
        with ([EvOpenInput (input job) true; EvAllocOutput (output job) true]
                ++ (lb ++ lp ++ lc)).
      rewrite !n_released_app, !n_acquired_app.
      rewrite Hrel, Hcr, Hca, Hba, Hbr.
      assert (n_released r
                [EvOpenInput (input job) true; EvAllocOutput (output job) true]
              = 0%nat) as -> by (destruct r; reflexivity).
      assert (held ctx2 r <= 1)%nat
        by (destruct r; unfold held, present; simpl; repeat case_match; lia).
      lia.
    + left. cbn [ebind fst snd].
      eexists _, _. split; [reflexivity|].
      intros r. destruct (neutral_counts lb Hb r) as [_ Hbr].
      change ([EvOpenInput (input job) true; EvAllocOutput (output job) true]
                ++ lb)
        with ([EvOpenInput (input job) true; EvAllocOutput (output job) true]
                ++ lb).
      rewrite n_released_app, Hbr. destruct r; reflexivity.
Qed.

(** C1, as stated, fails: when the input opens and the output context
    cannot be created, [run] leaves by the exception of [openOutput]
    with the input acquired and never released. *)
Lemma run_leaks_input_on_failed_output :
  (VideoPipelineEngine.run Examples.demo_env Examples.no_output_job).1
  = [EvOpenInput "a.mp4" true; EvAllocOutput "b.xyz" false]
  /\ ~ released_exactly_once
        (VideoPipelineEngine.run Examples.demo_env Examples.no_output_job).1.
Proof.
  split; [vm_compute; reflexivity|].
  intros H. destruct (H InputContext) as [Heq _].
  vm_compute in Heq. discriminate.
Qed.

(** C1, amended. For every job run by the engine that reaches
    [shutdown] (no exception in [initialize] or [buildOperations]),
    every handle acquired during the run, input, output, decoder or
    encoder, was acquired once and is released exactly once; a run that
    [initialize] or [buildOperations] leaves by an exception releases
    nothing. *)
Theorem run_releases_on_completion (job : VideoJob) :
  match (VideoPipelineEngine.run env job).2 with
  | Ok _ => released_exactly_once (VideoPipelineEngine.run env job).1
  | Throw _ =>
      forall r, n_released r (VideoPipelineEngine.run env job).1 = 0%nat
  end.
Proof.
  destruct (run_cases job) as [(l & e & -> & H) | (l & -> & H)]; exact H.
Qed.

End WithCollaborators.

Lemma processFrames_protocol_witness :
  exists rest,
    (processFrames Examples.demo_env Examples.two_voices
       Examples.opened_context).1
    = [EvPrepare 0; MoreVocabulary.synthesizing_line "first";
       EvPrepare 1; MoreVocabulary.synthesizing_line "second"] ++ rest.
Proof.
  destruct (processFrames_protocol Examples.demo_env Examples.two_voices
              Examples.opened_context)
    as (_ & _ & _ & logs & ctx2 & _ & H).
  rewrite H. cbn [fst]. eexists. reflexivity.
Defined.

Lemma decode_failure_skips_frame_witness :
  process_packet Examples.demo_env Examples.demo_chain (Examples.packet 0)
    Examples.decoding_context
  = ([EvDecodeFrame (Examples.packet 0) (-11) av_frame_alloc],
     set_videoDecoder (Some [Examples.packet 0; Examples.packet 0])
       Examples.opened_context).
Proof.
  destruct (decode_failure_skips_frame Examples.demo_env Examples.demo_chain
              (Examples.packet 0) [] Examples.decoding_context)
    as [H _].
  - reflexivity.
  - vm_compute. reflexivity.
  - rewrite H. vm_compute. reflexivity.
Defined.

Lemma packet_dispatch_by_role_witness :
  let ctx :=
    (prepare_all Examples.demo_chain Examples.opened_context).2 in
  process_packet Examples.demo_env Examples.demo_chain (Examples.packet 1) ctx
  = ([EvCopyPacket (Examples.packet 1)], ctx)
  /\ process_packet Examples.demo_env Examples.demo_chain (Examples.packet 2) ctx
     = ([], ctx).
Proof.
  cbn zeta. split.
  - destruct (packet_dispatch_by_role Examples.demo_env Examples.demo_chain
               Examples.demo_input Examples.good_job [] (Examples.packet 1))
      as (_ & Haudio & _).
    + simpl. lia.
    + apply Haudio. reflexivity.
  - destruct (packet_dispatch_by_role Examples.demo_env Examples.demo_chain
               Examples.demo_input Examples.good_job [] (Examples.packet 2))
      as (_ & _ & _ & Hother).
    + simpl. lia.
    + apply Hother; vm_compute; discriminate.
Defined.

End EngineFacts.

(** ** Batches of jobs *)

Module BatchFacts.
Import Vocabulary JobManager.

Section WithCollaborators.
Context (env : Collaborators).

Lemma run_job_eq job :
  run_job env job tt
  = (job_banner job :: (VideoPipelineEngine.run env job).1,
     (VideoPipelineEngine.run env job).2).
Proof.
  unfold run_job, lift_w, tell, job_banner. cbn [fst snd ebind].
  destruct (VideoPipelineEngine.run env job). reflexivity.
Qed.

(** The jobs that ran to the end contribute their logs; the batch goes
    on with the next job. *)
Lemma run_app pre rest :
  Forall (fun j => (VideoPipelineEngine.run env j).2 = Ok tt) pre ->
  run env (pre ++ rest)
  = ((run env pre).1 ++ (run env rest).1, (run env rest).2)
  /\ (run env pre).2 = Ok tt.
Proof.
  unfold run. induction 1 as [|j pre Hj _ [IH1 IH2]].
  { simpl. destruct (efold (run_job env) rest tt). auto. }
  cbn [app efold]. rewrite !run_job_eq.
  destruct (VideoPipelineEngine.run env j) as [lj rj]. cbn [snd] in Hj.
  subst rj. cbn [ebind fst snd]. rewrite IH1.
  destruct (efold (run_job env) pre tt) as [lp rp]. cbn [snd] in IH2.
  subst rp. cbn [fst snd]. rewrite <- app_assoc. auto.
Qed.

Lemma engine_run_no_input job :
  avformat_open_input env (input job) = None ->
  VideoPipelineEngine.run env job
  = ([EvOpenInput (input job) false],
     Throw (runtime_error ("Failed to open input file: " +:+ input job))).
Proof.
  intros Hopen. unfold VideoPipelineEngine.run.
  destruct (EngineFacts.initialize_cases env job)
    as [[_ Hinit] | [(fmt & Hf & _) | (fmt & Hf & _)]]; try congruence.
  rewrite Hinit. reflexivity.
Qed.

(** C2, as stated, fails: the job after one whose input cannot be
    opened is never started. *)
Lemma job_after_failed_open_not_started :
  run Examples.demo_env [Examples.no_input_job; Examples.good_job]
  = ([job_banner Examples.no_input_job; EvOpenInput "missing.mp4" false],
     Throw (runtime_error "Failed to open input file: missing.mp4"))
  /\ ~ job_started Examples.good_job
        (run Examples.demo_env [Examples.no_input_job; Examples.good_job]).1.
Proof.
  split; [vm_compute; reflexivity|].
  vm_compute. intros [H | [H | []]]; discriminate.
Qed.

(** C2, amended. In every batch, when the jobs before [job] ran to the
    end and the input of [job] cannot be opened, [JobManager::run]
    leaves by the exception of [openInput] right after the attempt: its
    log is the log of the earlier jobs, the banner of [job] and the
    failed open, whatever jobs follow, so none of them is started; and
    [main] reports the failure as a fatal error and exits with code 1. *)
Theorem failed_open_stops_batch (pre post : list VideoJob) (job : VideoJob) :
  Forall (fun j => (VideoPipelineEngine.run env j).2 = Ok tt) pre ->
  avformat_open_input env (input job) = None ->
  let failure :=
    runtime_error ("Failed to open input file: " +:+ input job) in
  let log :=
    (run env pre).1 ++ [job_banner job; EvOpenInput (input job) false] in
  run env (pre ++ job :: post) = (log, Throw failure)
  /\ (forall options m,
        new env options = Ok m ->
        buildJobs m = Ok (pre ++ job :: post) ->
        main env options
        = (log ++ [EvLog LError "Fatal error: {}" [AStr (what failure)]], 1)).
Proof.
  intros Hpre Hopen failure log.
  assert (Hrun : run env (pre ++ job :: post) = (log, Throw failure)).
  { destruct (run_app pre (job :: post) Hpre) as [-> _].
    unfold run at 2 3. cbn [efold]. rewrite run_job_eq.
    rewrite (engine_run_no_input job Hopen). reflexivity. }
  split; [exact Hrun|].
  intros options m Hnew Hjobs. unfold main, lift_o.
  rewrite Hnew. cbn [ebind]. rewrite Hjobs. cbn [ebind].
  rewrite Hrun. reflexivity.
Qed.

End WithCollaborators.

Lemma failed_open_stops_batch_witness :
  run Examples.demo_env
    ([Examples.good_job] ++ Examples.no_input_job :: [Examples.good_job])
  = ((run Examples.demo_env [Examples.good_job]).1
       ++ [job_banner Examples.no_input_job; EvOpenInput "missing.mp4" false],
     Throw (runtime_error "Failed to open input file: missing.mp4")).
Proof.
  apply (failed_open_stops_batch Examples.demo_env
           [Examples.good_job] [Examples.good_job] Examples.no_input_job).
  - repeat constructor.
  - reflexivity.
Defined.

End BatchFacts.

(** * Further properties of the code *)

(** ** The [--type] list *)

Module ArgsFacts.
Import ArgsParser MoreVocabulary.

Lemma append_cons c (s t : string) : String c s +:+ t = String c (s +:+ t).
Proof. reflexivity. Qed.

Lemma append_nil_l (s : string) : EmptyString +:+ s = s.
Proof. reflexivity. Qed.

Lemma append_nil_r (s : string) : s +:+ EmptyString = s.
Proof.
  induction s as [|c s IH]; [reflexivity|]. rewrite append_cons, IH. reflexivity.
Qed.

Lemma append_assoc (a b c : string) : (a +:+ b) +:+ c = a +:+ (b +:+ c).
Proof.
  induction a as [|x a IH]; [reflexivity|].
  rewrite !append_cons, IH. reflexivity.
Qed.

Lemma append_length (a b : string) :
  String.length (a +:+ b) = (String.length a + String.length b)%nat.
Proof.
  induction a as [|x a IH]; [reflexivity|].
  rewrite append_cons. simpl. rewrite IH. reflexivity.
Qed.

Lemma no_comma_app a b :
  no_comma (a +:+ b) = no_comma a && no_comma b.
Proof.
  induction a as [|x a IH]; [reflexivity|].
  rewrite append_cons. simpl. rewrite IH, andb_assoc. reflexivity.
Qed.

(** One [getline] against the fields: it yields the first field and
    leaves a shorter stream. *)
Lemma getline_from_fields ss : forall item,
  let r := getline_from ss item in
  fields ss item = (if empty r.1 then [] else [r.1]) ++ fields r.2 EmptyString
  /\ (String.length r.2 <= String.length ss)%nat.
Proof.
  induction ss as [|c ss IH]; intros item; simpl.
  - rewrite app_nil_r. auto.
  - destruct (Ascii.eqb c ","%char); simpl; [auto|].
    destruct (IH (item +:+ String c EmptyString)) as [Heq Hlen].
    split; [exact Heq | lia].
Qed.

Lemma read_items_fields fuel : forall ss operations,
  (String.length ss < fuel)%nat ->
  read_items fuel ss operations = operations ++ fields ss EmptyString.
Proof.
  induction fuel as [|fuel IH]; intros ss operations Hfuel; [lia|].
  destruct ss as [|c ss]; [simpl; rewrite app_nil_r; reflexivity|].
  cbn [read_items getline].
  destruct (getline_from_fields (String c ss) EmptyString) as [Hf Hlen].
  cbn zeta in Hf, Hlen. rewrite Hf.
  assert (Hshort :
    (String.length (getline_from (String c ss) EmptyString).2
     < String.length (String c ss))%nat).
  { simpl. destruct (Ascii.eqb c ","%char); simpl; [lia|].
    destruct (getline_from_fields ss (EmptyString +:+ String c EmptyString))
      as [_ H].
    cbn zeta in H. lia. }
  destruct (getline_from (String c ss) EmptyString) as [item rest].
  cbn [fst snd] in *. rewrite IH by lia.
  destruct (empty item); [reflexivity|]. rewrite <- app_assoc. reflexivity.
Qed.

Lemma parse_operations_fields s :
  parse_operations s = fields s EmptyString.
Proof.
  unfold parse_operations. destruct s as [|c s]; [reflexivity|].
  cbn [empty]. rewrite read_items_fields by lia. reflexivity.
Qed.

Lemma empty_spec s : empty s = true <-> s = EmptyString.
Proof. destruct s; simpl; split; congruence. Qed.

Lemma fields_plain s : forall item,
  no_comma item = true -> Forall plain_name (fields s item).
Proof.
  induction s as [|c s IH]; intros item Hitem; simpl.
  - destruct (empty item) eqn:He; constructor; [|constructor].
    split; [|exact Hitem]. intros ->. discriminate.
  - destruct (Ascii.eqb c ","%char) eqn:Hc.
    + apply Forall_app. split; [|apply IH; reflexivity].
      destruct (empty item) eqn:He; constructor; [|constructor].
      split; [|exact Hitem]. intros ->. discriminate.
    + apply IH. rewrite no_comma_app, Hitem. simpl. rewrite Hc. reflexivity.
Qed.

Lemma fields_concat s : forall item,
  concat_strings (fields s item) = item +:+ remove_commas s.
Proof.
  induction s as [|c s IH]; intros item; simpl.
  - destruct (empty item) eqn:He; simpl.
    + apply empty_spec in He. subst. reflexivity.
    + reflexivity.
  - destruct (Ascii.eqb c ","%char).
    + assert (Happ : forall a b,
                concat_strings (a ++ b) = concat_strings a +:+ concat_strings b).
      { intros a b. induction a as [|x a IHa]; simpl; [reflexivity|].
        rewrite IHa, append_assoc. reflexivity. }
      rewrite Happ, IH, append_nil_l.
      destruct (empty item) eqn:He; simpl.
      * apply empty_spec in He. subst. reflexivity.
      * rewrite append_nil_r. reflexivity.
    + rewrite IH, append_assoc, append_cons, append_nil_l. reflexivity.
Qed.

Lemma fields_name a : forall s item,
  no_comma a = true -> fields (a +:+ s) item = fields s (item +:+ a).
Proof.
  induction a as [|c a IH]; intros s item Ha.
  - rewrite append_nil_r. reflexivity.
  - simpl in Ha. apply andb_true_iff in Ha as [Hc Ha].
    apply negb_true_iff in Hc. rewrite append_cons. cbn [fields].
    rewrite Hc, IH by exact Ha.
    rewrite append_assoc, append_cons, append_nil_l. reflexivity.
Qed.

(** X1. Whatever string [--type] carries, every operation name the
    parser stores is non-empty and has no comma, and the names written
    one after the other are the string with its commas removed: the
    split loses no character and keeps the order. *)
Theorem parse_operations_splits (operationsStr : string) :
  Forall plain_name (parse_operations operationsStr)
  /\ concat_strings (parse_operations operationsStr)
     = remove_commas operationsStr.
Proof.
  rewrite parse_operations_fields. split.
  - apply fields_plain. reflexivity.
  - apply fields_concat.
Qed.

(** X2. Splitting undoes joining: for every list of non-empty,
    comma-free names, the parser returns exactly that list, in order,
    from the names joined with commas. *)
Theorem parse_operations_join (items : list string) :
  Forall plain_name items ->
  parse_operations (join_commas items) = items.
Proof.
  rewrite parse_operations_fields.
  induction 1 as [|x items [Hne Hx] Hrest IH]; [reflexivity|].
  destruct items as [|y items].
  - simpl. rewrite <- (append_nil_r x) at 1. rewrite fields_name by exact Hx.
    rewrite append_nil_l. simpl. destruct x; [congruence | reflexivity].
  - change (join_commas (x :: y :: items))
      with (x +:+ "," +:+ join_commas (y :: items)).
    rewrite fields_name by exact Hx.
    rewrite append_nil_l, append_cons, append_nil_l. cbn [fields].
    change (Ascii.eqb ","%char ","%char) with true. cbn iota. rewrite IH.
    destruct x; [congruence | reflexivity].
Qed.

Lemma parse_operations_join_witness :
  parse_operations (join_commas ["subtitles_remove"; "voiceover"])
  = ["subtitles_remove"; "voiceover"].
Proof.
  apply parse_operations_join.
  repeat constructor; discriminate.
Defined.

End ArgsFacts.

(** ** Timecodes *)

Module TimecodeFacts.
Import Timecode MoreVocabulary.

Lemma to_int_small z : - 2 ^ 31 <= z < 2 ^ 31 -> to_int z = z.
Proof. intros H. unfold to_int. rewrite Z.mod_small; lia. Qed.

(** A field below 100 is printed as its two digits, a field below 1000
    as its three digits: checked by evaluation on every value. *)
Lemma setw_fill_2 n : 0 <= n < 100 -> setw_fill 2 "0"%char n = two_digits n.
Proof.
  intros Hn.
  assert (Hall : forallb (fun k => String.eqb (setw_fill 2 "0"%char k) (two_digits k))
                         (seqZ 0 100) = true).
  { vm_compute. reflexivity. }
  rewrite forallb_forall in Hall. apply String.eqb_eq, Hall.
  apply list_elem_of_In, elem_of_seqZ. lia.
Qed.

Lemma setw_fill_3 n : 0 <= n < 1000 -> setw_fill 3 "0"%char n = three_digits n.
Proof.
  intros Hn.
  assert (Hall : forallb (fun k => String.eqb (setw_fill 3 "0"%char k) (three_digits k))
                         (seqZ 0 1000) = true).
  { vm_compute. reflexivity. }
  rewrite forallb_forall in Hall. apply String.eqb_eq, Hall.
  apply list_elem_of_In, elem_of_seqZ. lia.
Qed.

Lemma toString_fields h m s r :
  0 <= h < 100 -> 0 <= m < 60 -> 0 <= s < 60 -> 0 <= r < 1000 ->
  toString (h * 3600000 + m * 60000 + s * 1000 + r) = timecode h m s r.
Proof.
  intros Hh Hm Hs Hr. unfold toString, timecode.
  set (ms := h * 3600000 + m * 60000 + s * 1000 + r).
  assert (Hq : Z.quot ms 1000 = h * 3600 + m * 60 + s).
  { rewrite Z.quot_div_nonneg by lia. symmetry.
    apply (Z.div_unique ms 1000 _ r); lia. }
  assert (Hrem : Z.rem ms 1000 = r).
  { rewrite Z.rem_mod_nonneg by lia. symmetry.
    apply (Z.mod_unique ms 1000 (h * 3600 + m * 60 + s) r); lia. }
  rewrite Hq, Hrem.
  assert (Hhours : Z.quot (h * 3600 + m * 60 + s) 3600 = h).
  { rewrite Z.quot_div_nonneg by lia. symmetry.
    apply (Z.div_unique _ 3600 _ (m * 60 + s)); lia. }
  assert (Hrem2 : Z.rem (h * 3600 + m * 60 + s) 3600 = m * 60 + s).
  { rewrite Z.rem_mod_nonneg by lia. symmetry.
    apply (Z.mod_unique _ 3600 h (m * 60 + s)); lia. }
  assert (Hmin : Z.quot (m * 60 + s) 60 = m).
  { rewrite Z.quot_div_nonneg by lia. symmetry.
    apply (Z.div_unique _ 60 _ s); lia. }
  assert (Hsec : Z.rem (h * 3600 + m * 60 + s) 60 = s).
  { rewrite Z.rem_mod_nonneg by lia. symmetry.
    apply (Z.mod_unique _ 60 (h * 60 + m) s); lia. }
  rewrite Hhours, Hrem2, Hmin, Hsec.
  rewrite !to_int_small by lia.
  rewrite !setw_fill_2, setw_fill_3 by lia. reflexivity.
Qed.

Lemma digit_inj a b :
  0 <= a < 10 -> 0 <= b < 10 -> digit a = digit b -> a = b.
Proof.
  intros Ha Hb H. unfold digit in H.
  apply (f_equal nat_of_ascii) in H.
  rewrite !nat_ascii_embedding in H by lia. lia.
Qed.

Lemma two_digits_inj a b :
  0 <= a < 100 -> 0 <= b < 100 -> two_digits a = two_digits b -> a = b.
Proof.
  intros Ha Hb H. unfold two_digits in H. injection H as H2 H1.
  apply digit_inj in H1; [|apply Z.mod_pos_bound; lia ..].
  assert (Hda : 0 <= a / 10 < 10)
    by (split; [apply Z.div_pos | apply Z.div_lt_upper_bound]; lia).
  assert (Hdb : 0 <= b / 10 < 10)
    by (split; [apply Z.div_pos | apply Z.div_lt_upper_bound]; lia).
  apply digit_inj in H2; [|assumption ..].
  rewrite (Z.div_mod a 10), (Z.div_mod b 10) by lia. lia.
Qed.

Lemma three_digits_inj a b :
  0 <= a < 1000 -> 0 <= b < 1000 -> three_digits a = three_digits b -> a = b.
Proof.
  intros Ha Hb H. unfold three_digits in H.
  assert (Hcons : forall c t c' t', String c t = String c' t' -> c = c' /\ t = t')
    by (intros c t c' t' E; injection E; auto).
  apply Hcons in H as [H2 H1].
  apply two_digits_inj in H1; [|apply Z.mod_pos_bound; lia ..].
  assert (Hda : 0 <= a / 100 < 10)
    by (split; [apply Z.div_pos | apply Z.div_lt_upper_bound]; lia).
  assert (Hdb : 0 <= b / 100 < 10)
    by (split; [apply Z.div_pos | apply Z.div_lt_upper_bound]; lia).
  apply digit_inj in H2; [|assumption ..].
  rewrite (Z.div_mod a 100), (Z.div_mod b 100) by lia. lia.
Qed.

Lemma timecode_inj h m s r h' m' s' r' :
  0 <= h < 100 -> 0 <= m < 60 -> 0 <= s < 60 -> 0 <= r < 1000 ->
  0 <= h' < 100 -> 0 <= m' < 60 -> 0 <= s' < 60 -> 0 <= r' < 1000 ->
  timecode h m s r = timecode h' m' s' r' ->
  h = h' /\ m = m' /\ s = s' /\ r = r'.
Proof.
  intros Hh Hm Hs Hr Hh' Hm' Hs' Hr' H.
  unfold timecode in H.
  unfold two_digits at 1 2 3 4 5 6 in H.
  rewrite !ArgsFacts.append_cons, !ArgsFacts.append_nil_l in H.
  injection H as H; intros.
  assert (Err : three_digits r = three_digits r')
    by (unfold three_digits, two_digits; congruence).
  assert (Ehh : two_digits h = two_digits h')
    by (unfold two_digits; congruence).
  assert (Emm : two_digits m = two_digits m')
    by (unfold two_digits; congruence).
  assert (Ess : two_digits s = two_digits s')
    by (unfold two_digits; congruence).
  repeat split;
    [apply two_digits_inj | apply two_digits_inj | apply two_digits_inj
     | apply three_digits_inj]; auto; lia.
Qed.

(** The fields of a time below 100 hours. *)
Lemma split_ms ms :
  0 <= ms < 360000000 ->
  exists h m s r,
    ms = h * 3600000 + m * 60000 + s * 1000 + r
    /\ 0 <= h < 100 /\ 0 <= m < 60 /\ 0 <= s < 60 /\ 0 <= r < 1000.
Proof.
  intros Hms.
  exists (ms / 3600000), (ms mod 3600000 / 60000),
         (ms mod 60000 / 1000), (ms mod 1000).
  pose proof (Z.div_mod ms 3600000 ltac:(lia)).
  pose proof (Z.mod_pos_bound ms 3600000 ltac:(lia)).
  pose proof (Z.div_mod (ms mod 3600000) 60000 ltac:(lia)).
  pose proof (Z.mod_pos_bound (ms mod 3600000) 60000 ltac:(lia)).
  pose proof (Z.div_mod (ms mod 60000) 1000 ltac:(lia)).
  pose proof (Z.mod_pos_bound (ms mod 60000) 1000 ltac:(lia)).
  pose proof (Z.mod_pos_bound ms 1000 ltac:(lia)).
  pose proof (Z.div_mod ms 60000 ltac:(lia)).
  pose proof (Z.mod_pos_bound ms 60000 ltac:(lia)).
  pose proof (Z.div_mod ms 1000 ltac:(lia)).
  assert (ms mod 3600000 mod 60000 = ms mod 60000).
  { symmetry.
    apply (Z.mod_unique _ 60000 (ms / 60000 - 60 * (ms / 3600000))); lia. }
  assert (ms mod 60000 mod 1000 = ms mod 1000).
  { symmetry.
    apply (Z.mod_unique _ 1000 (ms / 1000 - 60 * (ms / 60000))); lia. }
  assert (0 <= ms / 3600000 < 100)
    by (split; [apply Z.div_pos | apply Z.div_lt_upper_bound]; lia).
  assert (0 <= ms mod 3600000 / 60000 < 60)
    by (split; [apply Z.div_pos | apply Z.div_lt_upper_bound]; lia).
  assert (0 <= ms mod 60000 / 1000 < 60)
    by (split; [apply Z.div_pos | apply Z.div_lt_upper_bound]; lia).
  repeat split; lia.
Qed.

(** X3. For hours below 100, minutes and seconds below 60 and
    milliseconds below 1000, [toString] of the time they add up to is
    [HH:MM:SS,mmm], each field with its leading zeros. *)
Theorem toString_format (h m s r : Z) :
  0 <= h < 100 -> 0 <= m < 60 -> 0 <= s < 60 -> 0 <= r < 1000 ->
  toString (h * 3600000 + m * 60000 + s * 1000 + r) = timecode h m s r.
Proof. apply toString_fields. Qed.

Lemma toString_format_witness :
  toString 2200 = "00:00:02,200"%string.
Proof.
  change 2200 with (0 * 3600000 + 0 * 60000 + 2 * 1000 + 200).
  rewrite toString_format by lia. reflexivity.
Defined.

(** X4. Below 100 hours [toString] always gives 12 characters, and two
    different times never get the same string. *)
Theorem toString_injective (a b : Z) :
  0 <= a < 360000000 -> 0 <= b < 360000000 ->
  String.length (toString a) = 12%nat
  /\ (toString a = toString b -> a = b).
Proof.
  intros Ha Hb.
  destruct (split_ms a Ha) as (h & m & s & r & -> & Hh & Hm & Hs & Hr).
  destruct (split_ms b Hb) as (h' & m' & s' & r' & -> & Hh' & Hm' & Hs' & Hr').
  rewrite !toString_fields by assumption. split; [reflexivity|].
  intros H.
  apply timecode_inj in H as (-> & -> & -> & ->); auto.
Qed.

Lemma toString_injective_witness :
  String.length (toString 2200) = 12%nat
  /\ (toString 2200 = toString 4000 -> 2200 = 4000).
Proof. apply toString_injective; lia. Defined.

End TimecodeFacts.

(** ** Opening and closing the session *)

Module SessionFacts.
Import MoreVocabulary Vocabulary FfmpegAdapter.

Lemma assign_roles_first l : forall i ctx,
  0 <= i ->
  -1 <= videoStreamIndex ctx -> -1 <= audioStreamIndex ctx ->
  -1 <= subtitleStreamIndex ctx ->
  let ctx' := assign_roles l i ctx in
  videoStreamIndex ctx'
  = (if videoStreamIndex ctx <? 0
     then first_index_from AVMEDIA_TYPE_VIDEO l i else videoStreamIndex ctx)
  /\ audioStreamIndex ctx'
     = (if audioStreamIndex ctx <? 0
        then first_index_from AVMEDIA_TYPE_AUDIO l i else audioStreamIndex ctx)
  /\ subtitleStreamIndex ctx'
     = (if subtitleStreamIndex ctx <? 0
        then first_index_from AVMEDIA_TYPE_SUBTITLE l i
        else subtitleStreamIndex ctx).
Proof.
  induction l as [|t l IH]; intros i ctx Hi Hv Ha Hs.
  - simpl.
    repeat match goal with
      | |- context [?a <? ?b] => destruct (Z.ltb_spec a b); simpl
      end; repeat split; lia.
  - cbn [assign_roles first_index_from]. cbn zeta.
    match goal with
    | |- context [assign_roles l (i + 1) ?c] =>
        destruct (IH (i + 1) c) as (-> & -> & ->)
    end;
    destruct t; simpl;
      repeat match goal with
        | |- context [?a <? ?b] => destruct (Z.ltb_spec a b); simpl in *
        end; repeat split; lia.
Qed.

Lemma first_index_from_lookup t l : forall i,
  0 <= i ->
  let k := first_index_from t l i in
  k = -1 \/ (i <= k /\ l !! Z.to_nat (k - i) = Some t).
Proof.
  induction l as [|x l IH]; intros i Hi; [left; reflexivity|].
  cbn [first_index_from]. cbn zeta.
  destruct (bool_decide_reflect (x = t)) as [-> | Hne].
  - right. split; [lia|]. rewrite Z.sub_diag. reflexivity.
  - destruct (IH (i + 1) ltac:(lia)) as [H | [Hle Hl]]; [left; exact H|].
    right. split; [lia|].
    replace (Z.to_nat (first_index_from t l (i + 1) - i))
      with (S (Z.to_nat (first_index_from t l (i + 1) - (i + 1)))) by lia.
    exact Hl.
Qed.

(** X5. When the input opens, [openInput] on a fresh context gives each
    role the index of the first stream of its codec type, and [-1] when
    the input has no such stream: later streams of a type never replace
    the first one, and an assigned index names a stream of that type. *)
Theorem openInput_first_stream_wins (env : Collaborators) (path : string)
    (fmt : AVFormatContext) :
  avformat_open_input env path = Some fmt ->
  exists ctx,
    openInput env path default_context = ([EvOpenInput path true], Ok ctx)
    /\ inputFormat ctx = Some fmt
    /\ videoStreamIndex ctx = first_index AVMEDIA_TYPE_VIDEO (streams fmt)
    /\ audioStreamIndex ctx = first_index AVMEDIA_TYPE_AUDIO (streams fmt)
    /\ subtitleStreamIndex ctx
       = first_index AVMEDIA_TYPE_SUBTITLE (streams fmt)
    /\ (0 <= videoStreamIndex ctx ->
        streams fmt !! Z.to_nat (videoStreamIndex ctx)
        = Some AVMEDIA_TYPE_VIDEO)
    /\ (0 <= audioStreamIndex ctx ->
        streams fmt !! Z.to_nat (audioStreamIndex ctx)
        = Some AVMEDIA_TYPE_AUDIO)
    /\ (0 <= subtitleStreamIndex ctx ->
        streams fmt !! Z.to_nat (subtitleStreamIndex ctx)
        = Some AVMEDIA_TYPE_SUBTITLE).
Proof.
  intros Hopen. unfold openInput. rewrite Hopen.
  eexists. split; [reflexivity|].
  destruct (assign_roles_first (streams fmt) 0
              (set_inputFormat (Some fmt) default_context))
    as (Hv & Ha & Hs); [simpl; lia ..|].
  cbn zeta in Hv, Ha, Hs. simpl in Hv, Ha, Hs.
  destruct (EngineFacts.assign_roles_handles (streams fmt) 0
              (set_inputFormat (Some fmt) default_context)) as (Hi & _).
  cbn zeta in Hi. rewrite Hi, Hv, Ha, Hs. unfold first_index.
  split; [reflexivity|]. repeat split; try reflexivity.
  - intros H0.
    destruct (first_index_from_lookup AVMEDIA_TYPE_VIDEO (streams fmt) 0
                ltac:(lia)) as [H | [_ H]]; cbn zeta in H; [lia|].
    rewrite Z.sub_0_r in H. exact H.
  - intros H0.
    destruct (first_index_from_lookup AVMEDIA_TYPE_AUDIO (streams fmt) 0
                ltac:(lia)) as [H | [_ H]]; cbn zeta in H; [lia|].
    rewrite Z.sub_0_r in H. exact H.
  - intros H0.
    destruct (first_index_from_lookup AVMEDIA_TYPE_SUBTITLE (streams fmt) 0
                ltac:(lia)) as [H | [_ H]]; cbn zeta in H; [lia|].
    rewrite Z.sub_0_r in H. exact H.
Qed.

Lemma openInput_first_stream_wins_witness :
  exists ctx,
    openInput Examples.demo_env "a.mp4" default_context
    = ([EvOpenInput "a.mp4" true], Ok ctx)
    /\ videoStreamIndex ctx = 0 /\ audioStreamIndex ctx = 1
    /\ subtitleStreamIndex ctx = 2.
Proof.
  destruct (openInput_first_stream_wins Examples.demo_env "a.mp4"
              Examples.demo_input eq_refl)
    as (ctx & Hopen & _ & Hv & Ha & Hs & _).
  exists ctx. split; [exact Hopen|]. rewrite Hv, Ha, Hs.
  repeat split; reflexivity.
Defined.

(** X6. [close] may be called twice: after it, every handle of the
    context is null and the rest of the context is untouched, and a
    second call releases nothing and changes nothing. *)
Theorem close_idempotent (ctx : VideoContext) :
  let ctx1 := (close ctx).2 in
  close ctx1 = ([], ctx1)
  /\ inputFormat ctx1 = None /\ outputFormat ctx1 = None
  /\ videoDecoder ctx1 = None /\ videoEncoder ctx1 = None
  /\ videoStreamIndex ctx1 = videoStreamIndex ctx
  /\ audioStreamIndex ctx1 = audioStreamIndex ctx
  /\ subtitleStreamIndex ctx1 = subtitleStreamIndex ctx
  /\ subtitles ctx1 = subtitles ctx
  /\ generatedVoiceover ctx1 = generatedVoiceover ctx.
Proof.
  destruct ctx as [i d e o v a s t g].
  destruct i, d, e, o; cbn; repeat split; reflexivity.
Qed.

End SessionFacts.

(** ** The operations *)

Module OperationFacts.
Import Operations MoreVocabulary Vocabulary VideoPipelineEngine.

(** *** Watermark regions *)

Lemma value_int_absent j key dflt :
  contains j key = false -> value_int j key dflt = Ok dflt.
Proof. intros H. unfold value_int. rewrite H. reflexivity. Qed.

Lemma read_region_fields e r :
  read_region e = Ok r ->
  value_int e "width" 0 = Ok (width r) /\ value_int e "height" 0 = Ok (height r).
Proof.
  unfold read_region.
  destruct (value_int e "x" 0); simpl; [|discriminate].
  destruct (value_int e "y" 0); simpl; [|discriminate].
  destruct (value_int e "width" 0); simpl; [|discriminate].
  destruct (value_int e "height" 0); simpl; [|discriminate].
  destruct (value_string e "method" "blur"); simpl; [|discriminate].
  intros H. injection H as <-. auto.
Qed.

Lemma flat_region_skipped env r img :
  width r <= 0 \/ height r <= 0 -> apply_region env r img = ([], img).
Proof.
  intros H. unfold apply_region, cv.rect_and, cv.empty. cbn [cv.width cv.height].
  assert ((width r <=? 0) || (height r <=? 0) = true) as ->.
  { apply orb_true_iff. rewrite !Z.leb_le. exact H. }
  reflexivity.
Qed.

(** X7. A region object that leaves out ["width"] or ["height"] is
    constructed with that size at 0, and [apply] never calls a kernel
    for it, on any frame: such a region removes nothing.  The same holds
    for every region whose width or height is not positive. *)
Theorem region_without_size_is_skipped (env : Collaborators) (e : json)
    (r : WatermarkRegion) (img : cv.Mat) :
  read_region e = Ok r ->
  contains e "width" = false \/ contains e "height" = false ->
  (width r = 0 \/ height r = 0)
  /\ apply_region env r img = ([], img)
  /\ (forall r', width r' <= 0 \/ height r' <= 0 ->
                 apply_region env r' img = ([], img)).
Proof.
  intros Hread Hmiss.
  destruct (read_region_fields e r Hread) as [Hw Hh].
  assert (Hzero : width r = 0 \/ height r = 0).
  { destruct Hmiss as [Hm | Hm]; [left | right].
    - rewrite (value_int_absent _ _ _ Hm) in Hw. congruence.
    - rewrite (value_int_absent _ _ _ Hm) in Hh. congruence. }
  split; [exact Hzero|]. split.
  - apply flat_region_skipped. lia.
  - intros r'. apply flat_region_skipped.
Qed.

Lemma region_without_size_is_skipped_witness :
  apply_region Examples.demo_env
    {| x := 5; y := 5; width := 0; height := 0; method := "blur" |}
    {| cv.rows := 4; cv.cols := 4; cv.pixels := [] |}
  = ([], {| cv.rows := 4; cv.cols := 4; cv.pixels := [] |}).
Proof.
  apply (region_without_size_is_skipped Examples.demo_env
           (JObject {[ "x" := JNumber 5; "y" := JNumber 5 ]})).
  - vm_compute. reflexivity.
  - left. vm_compute. reflexivity.
Defined.

(** *** Frames through the chain *)

Lemma processFrame_untouched env op ctx frame t :
  touches_frames op = false ->
  processFrame env op ctx frame t = ([], (ctx, frame)).
Proof.
  destruct op as [| |[|r rs]|]; simpl; try reflexivity. discriminate.
Qed.

Lemma processFrame_size env op ctx frame t :
  let frame' := (processFrame env op ctx frame t).2.2 in
  pts frame' = pts frame /\ Core.width frame' = Core.width frame
  /\ Core.height frame' = Core.height frame.
Proof.
  destruct op as [| |[|r rs]|]; simpl; auto.
  unfold WatermarkRemove_processFrame. rewrite !wbind_val. simpl. auto.
Qed.

(** X8. The chain pass never changes the time stamp or the size of a
    frame; and through a chain in which no operation removes watermarks
    the frame comes out as it went in, the context too, and nothing but
    the hook calls is logged: what is encoded is what was decoded. *)
Theorem chain_pass_keeps_frame (env : Collaborators)
    (ops : list IVideoOperation) (ctx : VideoContext) (frame : AVFrame)
    (t : Z) :
  let out := process_all env ops ctx frame t in
  pts out.2.2 = pts frame
  /\ Core.width out.2.2 = Core.width frame
  /\ Core.height out.2.2 = Core.height frame
  /\ (Forall (fun op => touches_frames op = false) ops ->
      out = (chain_pass (length ops) t, (ctx, frame))).
Proof.
  cbn zeta. unfold process_all, chain_pass. generalize 0%nat.
  revert ctx frame.
  induction ops as [|op ops IH]; intros ctx frame i.
  - simpl. auto.
  - rewrite wfold_i_cons. cbn [fst snd length seq map].
    rewrite wbind_log, wbind_val. cbn [tell fst snd app].
    destruct (processFrame_size env op ctx frame t) as (Hp & Hw & Hh).
    cbn zeta in Hp, Hw, Hh.
    destruct (processFrame env op ctx frame t) as [l [c f]] eqn:Hstep.
    cbn [fst snd] in *.
    destruct (IH c f (S i)) as (IHp & IHw & IHh & IHeq).
    split; [congruence|]. split; [congruence|]. split; [congruence|].
    intros Hall. inversion Hall as [|? ? Hop Hops]; subst.
    rewrite (processFrame_untouched env op ctx frame t Hop) in Hstep.
    injection Hstep as <- <- <-.
    specialize (IHeq Hops).
    destruct (wfold_i _ ops (S i) (ctx, frame)) as [l' s'].
    injection IHeq as -> ->. reflexivity.
Qed.

Lemma chain_pass_keeps_frame_witness :
  process_all Examples.demo_env Examples.demo_chain Examples.opened_context
    (Examples.frame_at 7) 7
  = ([EvProcessFrame 0 7; EvProcessFrame 1 7],
     (Examples.opened_context, Examples.frame_at 7)).
Proof.
  apply (chain_pass_keeps_frame Examples.demo_env Examples.demo_chain).
  repeat constructor.
Defined.

(** *** Subtitles *)

(** X9. [SubtitleTranslateOperation::prepare] replaces whatever track
    the session held by the track of the subtitle stream, translated:
    as many cues, the same start and end times, each text prefixed with
    the destination language in brackets, and the track tagged with the
    destination language; nothing else of the context changes, and a
    second [prepare] changes nothing. *)
Theorem SubtitleTranslate_prepare_track (src dst : string)
    (ctx : VideoContext) :
  let source := SubtitleAdapter.readSubtitles ctx in
  let ctx1 := SubtitleTranslate_prepare src dst ctx in
  language (subtitles ctx1) = dst
  /\ length (cues (subtitles ctx1)) = length (cues source)
  /\ map start_ms (cues (subtitles ctx1)) = map start_ms (cues source)
  /\ map end_ms (cues (subtitles ctx1)) = map end_ms (cues source)
  /\ map text (cues (subtitles ctx1))
     = map (fun cue => "[" +:+ dst +:+ "] " +:+ text cue) (cues source)
  /\ ctx1 = set_subtitles (subtitles ctx1) ctx
  /\ SubtitleTranslate_prepare src dst ctx1 = ctx1.
Proof.
  cbn zeta. unfold SubtitleTranslate_prepare.
  destruct ctx as [i d e o v a s t g]. cbn.
  rewrite length_map, !map_map. cbn.
  repeat split; reflexivity.
Qed.

(** X10. The prepare hooks of SubtitleRemove and SubtitleTranslate
    commute: in either order the session ends with no cue, the
    destination language on the track and no subtitle role. *)
Theorem SubtitleRemove_Translate_commute (src dst : string)
    (ctx : VideoContext) :
  SubtitleTranslate_prepare src dst (SubtitleRemove_prepare ctx)
  = SubtitleRemove_prepare (SubtitleTranslate_prepare src dst ctx)
  /\ SubtitleRemove_prepare (SubtitleTranslate_prepare src dst ctx)
     = set_subtitleStreamIndex (-1)
         (set_subtitles {| cues := []; language := dst |} ctx).
Proof.
  destruct ctx as [i d e o v a s t g]. split; reflexivity.
Qed.

Lemma prepare_keeps_cleared op ctx :
  subtitleStreamIndex ctx = -1 -> cues (subtitles ctx) = [] ->
  subtitleStreamIndex (prepare op ctx).2 = -1
  /\ cues (subtitles (prepare op ctx).2) = [].
Proof.
  intros Hi Hc. destruct op; simpl; auto.
  unfold SubtitleTranslate_prepare, SubtitleAdapter.readSubtitles.
  rewrite Hi. simpl. auto.
Qed.

Lemma prepare_loop_cleared ops : forall i ctx,
  let body := fun (i : nat) op c => let* _ := tell (EvPrepare i) in prepare op c in
  (existsb is_subtitle_remove ops = true
   \/ (subtitleStreamIndex ctx = -1 /\ cues (subtitles ctx) = [])) ->
  subtitleStreamIndex (wfold_i body ops i ctx).2 = -1
  /\ cues (subtitles (wfold_i body ops i ctx).2) = [].
Proof.
  induction ops as [|op ops IH]; intros i ctx body H.
  - destruct H as [H | H]; [discriminate | exact H].
  - subst body. rewrite wfold_i_cons. cbn [snd]. rewrite wbind_val.
    cbn [tell snd]. apply IH.
    destruct H as [H | [Hi Hc]].
    + cbn [existsb] in H. apply orb_true_iff in H as [H | H]; [|left; exact H].
      right. destruct op; try discriminate. simpl. auto.
    + right. apply prepare_keeps_cleared; assumption.
Qed.

(** X11. If the chain holds a SubtitleRemove operation, at any
    position and among any other operations, the prepare phase ends with
    no cue in the session and no subtitle role. *)
Theorem prepare_phase_removes_subtitles (ops : list IVideoOperation)
    (ctx : VideoContext) :
  existsb is_subtitle_remove ops = true ->
  subtitleStreamIndex (prepare_all ops ctx).2 = -1
  /\ cues (subtitles (prepare_all ops ctx).2) = [].
Proof.
  intros H. unfold prepare_all. apply prepare_loop_cleared. left. exact H.
Qed.

Lemma prepare_phase_removes_subtitles_witness :
  subtitleStreamIndex
    (prepare_all
       [SubtitleRemoveOperation; SubtitleTranslateOperation "auto" "uk"]
       Examples.opened_context).2 = -1
  /\ cues (subtitles
             (prepare_all
                [SubtitleRemoveOperation; SubtitleTranslateOperation "auto" "uk"]
                Examples.opened_context).2) = [].
Proof. apply prepare_phase_removes_subtitles. reflexivity. Defined.

End OperationFacts.

(** ** The Running phase *)

Module RunningFacts.
Import Operations MoreVocabulary Vocabulary VideoPipelineEngine.

Section WithCollaborators.
Context (env : Collaborators).

Lemma set_videoDecoder_same ctx : set_videoDecoder (videoDecoder ctx) ctx = ctx.
Proof. destruct ctx; reflexivity. Qed.

Lemma set_videoDecoder_twice d1 d2 ctx :
  set_videoDecoder d2 (set_videoDecoder d1 ctx) = set_videoDecoder d2 ctx.
Proof. destruct ctx; reflexivity. Qed.

Lemma process_all_context ops ctx frame t :
  (process_all env ops ctx frame t).2.1 = ctx.
Proof.
  unfold process_all.
  apply (EngineFacts.wfold_i_rel (fun s (_ : list event) s' => s'.1 = s.1)).
  - reflexivity.
  - intros s1 l1 s2 l2 s3 H1 H2. congruence.
  - intros i op [c f]. rewrite wbind_val. cbn [tell snd fst].
    apply EngineFacts.processFrame_keeps.
Qed.

Lemma decodeFrame_context ctx p fr :
  exists sent,
    (FfmpegAdapter.decodeFrame env ctx p fr).2.1.1
    = set_videoDecoder (Some sent) ctx.
Proof.
  unfold FfmpegAdapter.decodeFrame.
  destruct (videoDecoder ctx) as [sent|]; simpl.
  - exists (sent ++ [p]).
    destruct (avcodec_send_packet env sent p <? 0); [reflexivity|].
    destruct (avcodec_receive_frame env (sent ++ [p])); reflexivity.
  - exists [p].
    destruct (avcodec_send_packet env [] p <? 0); [reflexivity|].
    destruct (avcodec_receive_frame env [p]); reflexivity.
Qed.

(** What one packet does to the context: a decoder after a video
    packet, nothing otherwise. *)
Lemma process_packet_context ops p ctx :
  let c := (process_packet env ops p ctx).2 in
  if on_video ctx p
  then exists sent, c = set_videoDecoder (Some sent) ctx
  else c = ctx.
Proof.
  cbn zeta. unfold on_video.
  destruct (Z.eqb_spec (stream_index p) (videoStreamIndex ctx)) as [Hv|Hv].
  - rewrite (EngineFacts.process_packet_video env ops p ctx Hv). cbn zeta.
    destruct (decodeFrame_context ctx p av_frame_alloc) as [sent Hd].
    exists sent. destruct (_ >=? 0); cbn [snd]; [|exact Hd].
    rewrite process_all_context. exact Hd.
  - destruct (Z.eq_dec (stream_index p) (audioStreamIndex ctx)) as [Ha|Ha].
    + rewrite (EngineFacts.process_packet_audio env ops p ctx Hv Ha).
      reflexivity.
    + rewrite (EngineFacts.process_packet_other env ops p ctx Hv Ha).
      reflexivity.
Qed.

Lemma existsb_pointwise {A} (f g : A -> bool) l :
  (forall x, f x = g x) -> existsb f l = existsb g l.
Proof.
  intros H. induction l as [|a l IH]; simpl; [reflexivity|].
  rewrite H, IH. reflexivity.
Qed.

Lemma read_loop_cons ops p pkts ctx :
  read_loop env ops (p :: pkts) ctx
  = ((process_packet env ops p ctx).1
       ++ (read_loop env ops pkts (process_packet env ops p ctx).2).1,
     (read_loop env ops pkts (process_packet env ops p ctx).2).2).
Proof. unfold read_loop. apply wfold_cons. Qed.

Lemma read_loop_context ops pkts : forall ctx,
  let c := (read_loop env ops pkts ctx).2 in
  c = set_videoDecoder (videoDecoder c) ctx
  /\ (is_Some (videoDecoder c) <->
      is_Some (videoDecoder ctx) \/ existsb (on_video ctx) pkts = true).
Proof.
  induction pkts as [|p pkts IH]; intros ctx.
  - simpl. rewrite set_videoDecoder_same. split; [reflexivity|].
    split; [auto | intros [H | H]; [exact H | discriminate]].
  - cbn zeta. rewrite read_loop_cons. cbn [snd existsb].
    pose proof (process_packet_context ops p ctx) as Hp. cbn zeta in Hp.
    destruct (IH (process_packet env ops p ctx).2) as [Hc Hd].
    cbn zeta in Hc, Hd.
    assert (Hsame : forall q, on_video (process_packet env ops p ctx).2 q
                              = on_video ctx q).
    { intros q. unfold on_video.
      destruct (on_video ctx p); [destruct Hp as [sent ->]|rewrite Hp];
        destruct ctx; reflexivity. }
    rewrite (existsb_pointwise _ _ pkts Hsame) in Hd.
    destruct (on_video ctx p) eqn:Hv.
    + destruct Hp as [sent Hp]. rewrite Hp in Hc, Hd |- *.
      rewrite set_videoDecoder_twice in Hc. split; [exact Hc|].
      rewrite Hd. destruct ctx; simpl. split; [auto|]. intros _. left. eauto.
    + rewrite Hp in Hc, Hd |- *. split; [exact Hc|]. rewrite Hd. simpl. tauto.
Qed.

(** X12. The read loop changes nothing of the context but the decoder:
    the roles, the subtitle track, the generated voiceover and the other
    handles are as before, whatever the chain and the packets. *)
Theorem read_loop_changes_decoder_only (ops : list IVideoOperation)
    (pkts : list AVPacket) (ctx : VideoContext) :
  let c := (read_loop env ops pkts ctx).2 in
  c = set_videoDecoder (videoDecoder c) ctx.
Proof. apply read_loop_context. Qed.

(** X13. The decoder is allocated at the first packet of the video
    stream and never again: a loop entered without a decoder allocates
    one exactly when some packet is on the video stream, and a loop
    entered with a decoder allocates none. *)
Theorem decoder_allocated_on_first_video_packet
    (ops : list IVideoOperation) (pkts : list AVPacket)
    (ctx : VideoContext) :
  n_acquired Decoder (read_loop env ops pkts ctx).1
  = match videoDecoder ctx with
    | Some _ => 0%nat
    | None => if existsb (on_video ctx) pkts then 1%nat else 0%nat
    end.
Proof.
  destruct (EngineFacts.read_loop_steady env ops pkts ctx)
    as (_ & _ & _ & _ & _ & _ & _ & Hheld).
  specialize (Hheld Decoder). unfold held, present in Hheld.
  destruct (read_loop_context ops pkts ctx) as [_ Hd]. cbn zeta in Hd.
  destruct (videoDecoder ctx) as [sent|].
  - destruct (videoDecoder (read_loop env ops pkts ctx).2); lia.
  - destruct (existsb (on_video ctx) pkts).
    + destruct (videoDecoder (read_loop env ops pkts ctx).2) as [d|]; [lia|].
      destruct Hd as [_ Hd]. destruct Hd as [d Hd]; [auto | discriminate].
    + destruct (videoDecoder (read_loop env ops pkts ctx).2) as [d|]; [|lia].
      destruct Hd as [Hd _].
      destruct Hd as [[d' Hd] | Hd]; [eauto | discriminate | discriminate].
Qed.

Lemma packets_of_trace log :
  decoded_packets (pipeline_trace log) = decoded_packets log
  /\ copied_packets (pipeline_trace log) = copied_packets log.
Proof.
  induction log as [|e log [IH1 IH2]]; [auto|].
  unfold pipeline_trace, decoded_packets, copied_packets in *.
  cbn [List.filter]. destruct e; simpl; rewrite ?IH1, ?IH2; auto.
Qed.

Lemma chain_pass_packets n t :
  decoded_packets (chain_pass n t) = []
  /\ copied_packets (chain_pass n t) = [].
Proof.
  unfold chain_pass. generalize (seq 0 n). intros l.
  induction l as [|i l [IH1 IH2]]; [auto|].
  unfold decoded_packets, copied_packets in *. simpl. auto.
Qed.

Lemma process_packet_packets ops p ctx :
  decoded_packets (process_packet env ops p ctx).1
  = (if on_video ctx p then [p] else [])
  /\ copied_packets (process_packet env ops p ctx).1
     = (if on_audio ctx p then [p] else []).
Proof.
  unfold on_video, on_audio.
  destruct (Z.eqb_spec (stream_index p) (videoStreamIndex ctx)) as [Hv|Hv].
  - destruct (packets_of_trace (process_packet env ops p ctx).1) as [<- <-].
    rewrite (EngineFacts.process_packet_video env ops p ctx Hv). cbn zeta.
    pose proof (EngineFacts.decodeFrame_trace env ctx p av_frame_alloc) as Hd.
    cbn zeta in Hd.
    destruct (_ >=? 0); cbn [fst negb andb].
    + rewrite !EngineFacts.pipeline_trace_app, Hd,
        EngineFacts.process_all_trace.
      unfold decoded_packets, copied_packets.
      rewrite !flat_map_app.
      destruct (chain_pass_packets (length ops)
                  (pts (FfmpegAdapter.decodeFrame env ctx p av_frame_alloc).2.2))
        as [H1 H2].
      unfold decoded_packets, copied_packets in H1, H2. rewrite H1, H2.
      split; reflexivity.
    + rewrite Hd. split; reflexivity.
  - destruct (Z.eqb_spec (stream_index p) (audioStreamIndex ctx)) as [Ha|Ha].
    + rewrite (EngineFacts.process_packet_audio env ops p ctx Hv Ha).
      split; reflexivity.
    + rewrite (EngineFacts.process_packet_other env ops p ctx Hv Ha).
      split; reflexivity.
Qed.

(** X14. Over the whole input, the packets handed to the decoder are
    exactly the packets of the video-role stream, and the packets
    copied to the output exactly the packets of the audio-role stream,
    each once and in input order; no other packet is decoded or
    copied. *)
Theorem read_loop_routes_in_order (ops : list IVideoOperation)
    (pkts : list AVPacket) (ctx : VideoContext) :
  decoded_packets (read_loop env ops pkts ctx).1
  = List.filter (on_video ctx) pkts
  /\ copied_packets (read_loop env ops pkts ctx).1
     = List.filter (on_audio ctx) pkts.
Proof.
  revert ctx. induction pkts as [|p pkts IH]; intros ctx; [auto|].
  rewrite read_loop_cons. cbn [fst List.filter].
  unfold decoded_packets, copied_packets in *. rewrite !flat_map_app.
  destruct (process_packet_packets ops p ctx) as [Hd Hc].
  unfold decoded_packets, copied_packets in Hd, Hc. rewrite Hd, Hc.
  destruct (IH (process_packet env ops p ctx).2) as [-> ->].
  pose proof (process_packet_context ops p ctx) as Hp. cbn zeta in Hp.
  assert (Hsame : forall q,
             on_video (process_packet env ops p ctx).2 q = on_video ctx q
             /\ on_audio (process_packet env ops p ctx).2 q = on_audio ctx q).
  { intros q. unfold on_video, on_audio.
    destruct (on_video ctx p); [destruct Hp as [sent ->]|rewrite Hp];
      destruct ctx; auto. }
  rewrite (List.filter_ext _ _ (fun q => proj1 (Hsame q))).
  rewrite (List.filter_ext _ _ (fun q => proj2 (Hsame q))).
  destruct (on_video ctx p), (on_audio ctx p); split; reflexivity.
Qed.

End WithCollaborators.
End RunningFacts.

(** ** JSON values *)

Module JsonFacts.

(** X15. Assigning [j[key] = v] makes [key] present with value [v] and
    makes [j] an object, whatever [j] was; reading any other key, with
    [contains] or with a defaulted [value], gives what it gave before:
    on a non-object the old value is dropped, and no other key
    appears. *)
Theorem set_then_lookup (j : json) (key : string) (v : json) :
  is_object (Json.set j key v) = true
  /\ contains (Json.set j key v) key = true
  /\ at_ (Json.set j key v) key = Ok v
  /\ (forall key' dflt n,
        key' <> key ->
        contains (Json.set j key v) key' = contains j key'
        /\ value_string (Json.set j key v) key' dflt = value_string j key' dflt
        /\ value_int (Json.set j key v) key' n = value_int j key' n)
  /\ (forall s dflt, v = JString s ->
        value_string (Json.set j key v) key dflt = Ok s).
Proof.
  assert (Hobj : forall o : gmap string json,
             contains (JObject (<[key := v]> o)) key = true
             /\ at_ (JObject (<[key := v]> o)) key = Ok v).
  { intros o. simpl. rewrite lookup_insert_eq. auto. }
  assert (Hother : forall (o : gmap string json) key',
             key' <> key -> (<[key := v]> o) !! key' = o !! key').
  { intros o key' Hne. apply lookup_insert_ne. congruence. }
  split; [destruct j; reflexivity|].
  split; [destruct j; apply Hobj|].
  split; [destruct j; apply Hobj|].
  split.
  - intros key' dflt n Hne.
    unfold value_string, value_int.
    destruct j; simpl; rewrite ?Hother by exact Hne;
      rewrite ?lookup_empty; auto.
  - intros s dflt ->. unfold value_string.
    destruct j; simpl; rewrite lookup_insert_eq; reflexivity.
Qed.

End JsonFacts.

(** ** Building and running jobs *)

Module BuilderFacts.
Import Operations Vocabulary MoreVocabulary JobManager.

Section WithCollaborators.
Context (env : Collaborators).

(** *** The engine *)

Lemma buildOperations_ok_constructible ds : forall ops0,
  is_ok (efold VideoPipelineEngine.build_one ds ops0).2 = true ->
  Forall constructible ds.
Proof.
  induction ds as [|d ds IH]; intros ops0 H; [constructor|].
  cbn [efold] in H. rewrite ChainFacts.build_one_spec in H.
  destruct (registry (type d)) as [mk|] eqn:Hreg.
  - destruct (mk (params d)) as [o|e] eqn:Hmk; [|discriminate].
    cbn [ebind] in H.
    destruct (efold VideoPipelineEngine.build_one ds (ops0 ++ [o]))
      as [l r] eqn:Hrest. cbn [snd] in H.
    constructor.
    + intros mk' Hmk'. rewrite Hreg in Hmk'. injection Hmk' as <-.
      rewrite Hmk. reflexivity.
    + apply (IH (ops0 ++ [o])). rewrite Hrest. exact H.
  - cbn [ebind] in H.
    destruct (efold VideoPipelineEngine.build_one ds ops0)
      as [l r] eqn:Hrest. cbn [snd] in H.
    constructor; [intros mk' Hmk'; rewrite Hreg in Hmk'; discriminate|].
    apply (IH ops0). rewrite Hrest. exact H.
Qed.

(** X16. The run of a job ends without exception exactly when its
    input opens, its output context can be created, and every
    descriptor of a recognised type has parameters its constructor
    accepts; unknown operation types, decode failures and the content of
    the packets never make a run fail. *)
Theorem run_succeeds_iff (job : VideoJob) :
  succeeds env job = true
  <-> is_Some (avformat_open_input env (input job))
      /\ avformat_alloc_output_context2 env (output job) = true
      /\ Forall constructible (operations job).
Proof.
  unfold succeeds, VideoPipelineEngine.run.
  destruct (EngineFacts.initialize_cases env job)
    as [[Hopen Hinit] | [(fmt & Hopen & Hout & Hinit)
                        | (fmt & Hopen & Hout & Hinit)]].
  - rewrite (EngineFacts.ebind_throw _ _ _ _ Hinit). rewrite Hopen. simpl.
    split; [discriminate|]. intros ([x Hx] & _). discriminate.
  - rewrite (EngineFacts.ebind_throw _ _ _ _ Hinit). rewrite Hout. simpl.
    split; [discriminate|]. intros (_ & H & _). discriminate.
  - rewrite (EngineFacts.ebind_ok _ _ _ _ Hinit). cbn [snd].
    rewrite Hopen, Hout.
    split.
    + intros H. split; [eauto|]. split; [reflexivity|].
      apply (buildOperations_ok_constructible (operations job) []).
      fold (VideoPipelineEngine.buildOperations job []).
      destruct (VideoPipelineEngine.buildOperations job []) as [l [ops|e]];
        [reflexivity | discriminate].
    + intros (_ & _ & Hok).
      destruct (ChainFacts.buildOperations_from (operations job) [] Hok)
        as (chain & Hb & _).
      fold (VideoPipelineEngine.buildOperations job []) in Hb.
      rewrite Hb. cbn [ebind lift_w fst snd eret].
      destruct (VideoPipelineEngine.processFrames env chain
                  (opened fmt job)) as [lp c2].
      cbn [fst snd].
      destruct (VideoPipelineEngine.shutdown c2). reflexivity.
Qed.

(** *** Batches and [main] *)

Lemma run_attempted (jobs : list VideoJob) :
  (run env jobs).1
  = flat_map (job_log env) (attempted (succeeds env) jobs)
  /\ is_ok (run env jobs).2 = forallb (succeeds env) jobs.
Proof.
  unfold run. induction jobs as [|j jobs [IHl IHr]]; [auto|].
  cbn [efold attempted flat_map forallb]. rewrite BatchFacts.run_job_eq.
  unfold succeeds at 1 3, job_log at 1.
  destruct (VideoPipelineEngine.run env j) as [lj [[]|e]]; cbn [ebind fst snd is_ok].
  - destruct (efold (run_job env) jobs tt) as [l r]. cbn [fst snd] in *.
    rewrite IHl, IHr. auto.
  - cbn [flat_map]. rewrite app_nil_r. auto.
Qed.

Lemma attempted_all f jobs :
  forallb f jobs = true -> attempted f jobs = jobs.
Proof.
  induction jobs as [|j jobs IH]; [reflexivity|].
  cbn [forallb attempted]. intros H. apply andb_true_iff in H as [-> H].
  rewrite IH by exact H. reflexivity.
Qed.

(** X17. A batch is run in order and stops at the first job that
    fails: the log of [JobManager::run] is the banner and engine log of
    each job up to and including the first failing one, and the call
    returns normally exactly when every job succeeds. *)
Theorem batch_runs_until_first_failure (jobs : list VideoJob) :
  (run env jobs).1
  = flat_map (job_log env) (attempted (succeeds env) jobs)
  /\ is_ok (run env jobs).2 = forallb (succeeds env) jobs.
Proof. apply run_attempted. Qed.

(** X18. [main] exits with 0 or 1.  It exits with 0 exactly when the
    config loads (if one is named), the jobs build and every job runs to
    the end, and the log is then the logs of the jobs in order; it exits
    with 1 in every other case, and the last line of the log is then the
    fatal error.  A config file that cannot be loaded is reported
    alone: nothing else is logged and no job is started. *)
Theorem main_exit_code (options : ProgramOptions) :
  let r := main env options in
  (r.2 = 0 \/ r.2 = 1)
  /\ (r.2 = 0 <->
      exists m jobs,
        new env options = Ok m /\ buildJobs m = Ok jobs
        /\ forallb (succeeds env) jobs = true)
  /\ (r.2 = 0 ->
      exists m jobs,
        new env options = Ok m /\ buildJobs m = Ok jobs
        /\ r.1 = flat_map (job_log env) jobs)
  /\ (r.2 = 1 -> exists log msg, r.1 = log ++ [fatal_line msg])
  /\ (forall path e,
        configPath options = Some path -> loadJson env path = Throw e ->
        r = ([fatal_line (what e)], 1)).
Proof.
  cbn zeta. unfold main, lift_o.
  destruct (new env options) as [m|e] eqn:Hnew; cbn [ebind].
  - destruct (buildJobs m) as [jobs|e] eqn:Hjobs; cbn [ebind].
    + destruct (run_attempted jobs) as [Hlog Hres].
      destruct (run env jobs) as [l [[]|e]]; cbn [fst snd is_ok] in *.
      * split; [auto|]. split.
        { split; [|reflexivity]. intros _. exists m, jobs.
          split; [reflexivity|]. split; [exact Hjobs | symmetry; exact Hres]. }
        split.
        { intros _. exists m, jobs. split; [reflexivity|].
          split; [exact Hjobs|].
          rewrite Hlog, attempted_all by (symmetry; exact Hres). reflexivity. }
        split; [discriminate|].
        intros path e Hp Hl. unfold new in Hnew. rewrite Hp, Hl in Hnew.
        discriminate.
      * split; [auto|]. split.
        { split; [discriminate|].
          intros (m' & jobs' & Hm & Hj & Hall).
          injection Hm as <-. rewrite Hjobs in Hj. injection Hj as <-.
          congruence. }
        split; [discriminate|]. split; [intros _; eauto|].
        intros path e' Hp Hl. unfold new in Hnew. rewrite Hp, Hl in Hnew.
        discriminate.
    + split; [auto|]. split.
      { split; [discriminate|].
        intros (m' & jobs' & Hm & Hj & _).
        injection Hm as <-. congruence. }
      split; [discriminate|].
      split; [intros _; exists [], (what e); reflexivity|].
      intros path e' Hp Hl. unfold new in Hnew. rewrite Hp, Hl in Hnew.
      discriminate.
  - split; [auto|]. split.
    { split; [discriminate|]. intros (m' & jobs' & Hm & _). discriminate. }
    split; [discriminate|].
    split; [intros _; exists [], (what e); reflexivity|].
    intros path e' Hp Hl. unfold new in Hnew. rewrite Hp, Hl in Hnew.
    injection Hnew as <-. reflexivity.
Qed.

(** *** Config documents *)

(** X19. A config document that is an object without a ["jobs"] key
    is one job: the builder returns exactly one job, built from the
    document itself, when the document is a job object
    [buildJobFromConfig] accepts, and throws otherwise. *)
Theorem buildJobs_single_document (m : JobManager) (o : gmap string json) :
  is_Some (configPath (options_ m)) ->
  config_ m = JObject o ->
  o !! "jobs" = None ->
  (job_cfg_ok (JObject o) = true ->
   exists job, buildJobs m = Ok [job]
               /\ job_reflects (options_ m) (JObject o) job)
  /\ (job_cfg_ok (JObject o) = false -> is_ok (buildJobs m) = false).
Proof.
  intros Hp Hcfg Hjobs.
  pose proof (JobFacts.buildJobFromConfig_is_ok m (JObject o)) as Hok.
  pose proof (JobFacts.buildJobFromConfig_reflects m (JObject o)) as Hrefl.
  unfold buildJobs. rewrite (bool_decide_eq_true_2 _ Hp), Hcfg.
  cbn [is_object andb contains]. rewrite Hjobs.
  destruct (buildJobFromConfig m (JObject o)) as [job|e]; cbn [is_ok] in Hok.
  - split; [|intros H; congruence].
    intros _. exists job. split; [reflexivity|]. apply Hrefl. reflexivity.
  - split; [intros H; congruence | reflexivity].
Qed.

(** X20. With a ["jobs"] key the builder succeeds exactly when its
    value is an array of job objects [buildJobFromConfig] accepts: any
    other value throws "not an array", and an empty array builds no
    job. *)
Theorem buildJobs_jobs_exact (m : JobManager) (o : gmap string json)
    (v : json) :
  is_Some (configPath (options_ m)) ->
  config_ m = JObject o ->
  o !! "jobs" = Some v ->
  is_ok (buildJobs m)
  = match v with JArray arr => forallb job_cfg_ok arr | _ => false end
  /\ (is_array v = false ->
      buildJobs m = Throw (runtime_error "not an array"))
  /\ (v = JArray [] -> buildJobs m = Ok []).
Proof.
  intros Hp Hcfg Hjobs.
  unfold buildJobs. rewrite (bool_decide_eq_true_2 _ Hp), Hcfg.
  cbn [is_object andb contains at_]. rewrite Hjobs. cbn [obind].
  destruct v; cbn [items obind is_ok is_array];
    try (repeat split; [discriminate || reflexivity ..]; discriminate).
  split; [|split; [discriminate|]].
  - rewrite omap_is_ok.
    apply forallb_pointwise. intros jc.
    apply JobFacts.buildJobFromConfig_is_ok.
  - intros H. injection H as ->. reflexivity.
Qed.

(** X21. An element of a ["jobs"] array that is not an object (a
    number, a string, null, an array) is not rejected: it builds a job
    with the CLI input and output and no operation. *)
Theorem non_object_job_element (m : JobManager) (jobCfg : json) :
  is_object jobCfg = false ->
  buildJobFromConfig m jobCfg
  = Ok {| input := opt_input (options_ m);
          output := opt_output (options_ m);
          operations := [] |}.
Proof.
  intros H. destruct jobCfg; try discriminate; reflexivity.
Qed.

(** *** Jobs from the command line *)

Lemma cli_descriptor_builds options name ops0 :
  VideoPipelineEngine.build_one
    {| type := name; params := cli_params options name |} ops0
  = match cli_operation options name with
    | Some o => ([], Ok (ops0 ++ [o]))
    | None => ([EvLog LWarn "Unknown operation type: {}" [AStr name]], Ok ops0)
    end.
Proof.
  rewrite ChainFacts.build_one_spec.
  unfold registry, cli_operation, cli_params, unknown_warning. cbn [type params].
  destruct (String.eqb name "subtitles_translate").
  { vm_compute. reflexivity. }
  destruct (String.eqb name "subtitles_remove"); [reflexivity|].
  destruct (String.eqb name "watermark_remove").
  { destruct (String.eqb name "voiceover"); vm_compute; reflexivity. }
  destruct (String.eqb name "voiceover"); [|reflexivity].
  vm_compute. reflexivity.
Qed.

Lemma cli_chain_from options names : forall ops0,
  efold VideoPipelineEngine.build_one
    (map (fun op => {| type := op; params := cli_params options op |}) names)
    ops0
  = (map (fun n => EvLog LWarn "Unknown operation type: {}" [AStr n])
       (List.filter (fun n => negb (known_name n)) names),
     Ok (ops0 ++ flat_map (fun n => match cli_operation options n with
                                    | Some o => [o]
                                    | None => []
                                    end) names)).
Proof.
  induction names as [|n names IH]; intros ops0.
  - simpl. rewrite app_nil_r. reflexivity.
  - cbn [map efold]. rewrite cli_descriptor_builds.
    cbn [List.filter flat_map].
    assert (Hknown : known_name n
                     = match cli_operation options n with
                       | Some _ => true | None => false
                       end).
    { unfold known_name, cli_operation.
      repeat match goal with
        | |- context [String.eqb ?a ?b] => destruct (String.eqb a b)
        end; reflexivity. }
    rewrite Hknown.
    destruct (cli_operation options n) as [o|]; cbn [ebind negb].
    + rewrite IH. rewrite <- app_assoc. reflexivity.
    + rewrite IH. reflexivity.
Qed.

(** X22. A job assembled from the command line never aborts chain
    building: every name among the four known ones becomes its
    operation, carrying the values of the CLI flags and the defaults
    ("auto", empty) for the flags left out, in the order of [--type];
    every other name adds one warning and nothing else. *)
Theorem cli_job_builds (m : JobManager) :
  let job := buildJobFromCli m in
  input job = opt_input (options_ m)
  /\ output job = opt_output (options_ m)
  /\ map type (operations job) = opt_operations (options_ m)
  /\ VideoPipelineEngine.buildOperations job []
     = (map (fun n => EvLog LWarn "Unknown operation type: {}" [AStr n])
          (List.filter (fun n => negb (known_name n))
             (opt_operations (options_ m))),
        Ok (flat_map (fun n => match cli_operation (options_ m) n with
                               | Some o => [o]
                               | None => []
                               end) (opt_operations (options_ m)))).
Proof.
  cbn zeta. unfold buildJobFromCli. cbn [input output operations].
  split; [reflexivity|]. split; [reflexivity|]. split.
  - rewrite map_map. cbn [type]. apply map_id.
  - unfold VideoPipelineEngine.buildOperations. cbn [operations].
    apply (cli_chain_from (options_ m) (opt_operations (options_ m)) []).
Qed.

End WithCollaborators.

Lemma buildJobs_single_document_witness :
  exists job,
    buildJobs {| options_ := Examples.cli_options (Some "job.json");
                 config_ := JObject {[ "output" := JString "c.mp4" ]} |}
    = Ok [job]
    /\ input job = "a.mp4" /\ output job = "c.mp4".
Proof.
  destruct (buildJobs_single_document
              {| options_ := Examples.cli_options (Some "job.json");
                 config_ := JObject {[ "output" := JString "c.mp4" ]} |}
              {[ "output" := JString "c.mp4" ]})
    as [Hok _].
  - simpl. eauto.
  - reflexivity.
  - vm_compute. reflexivity.
  - destruct Hok as (job & Hjob & _); [vm_compute; reflexivity|].
    exists job. split; [exact Hjob|].
    vm_compute in Hjob. injection Hjob as <-. split; reflexivity.
Defined.

Lemma buildJobs_jobs_exact_witness :
  buildJobs {| options_ := Examples.cli_options (Some "job.json");
               config_ := JObject {[ "jobs" := JString "all" ]} |}
  = Throw (runtime_error "not an array").
Proof.
  destruct (buildJobs_jobs_exact
              {| options_ := Examples.cli_options (Some "job.json");
                 config_ := JObject {[ "jobs" := JString "all" ]} |}
              {[ "jobs" := JString "all" ]} (JString "all"))
    as (_ & Hthrow & _).
  - simpl. eauto.
  - reflexivity.
  - vm_compute. reflexivity.
  - apply Hthrow. reflexivity.
Defined.

Lemma non_object_job_element_witness :
  buildJobFromConfig
    {| options_ := Examples.cli_options (Some "job.json"); config_ := JNull |}
    (JNumber 5)
  = Ok {| input := "a.mp4"; output := "b.mp4"; operations := [] |}.
Proof.
  exact (non_object_job_element
           {| options_ := Examples.cli_options (Some "job.json");
              config_ := JNull |} (JNumber 5) eq_refl).
Defined.

End BuilderFacts.

(** ** The frame and matrix buffers *)

Module PixelFacts.
Import PixelBuffers MoreVocabulary.

Lemma memcpy_lookup dst doff src soff n r i :
  memcpy dst doff src soff n = Some r ->
  length r = length dst /\
  r !! i = if (doff <=? Z.of_nat i) && (Z.of_nat i <? doff + n)
           then src !! Z.to_nat (soff + (Z.of_nat i - doff))
           else dst !! i.
Proof.
  unfold memcpy. intros H.
  destruct (_ && _) eqn:Hb in H; [|discriminate].
  injection H as <-.
  repeat (apply andb_prop in Hb; destruct Hb as [Hb ?]).
  split.
  - rewrite !length_app, !length_take, !length_drop. lia.
  - destruct (_ && _) eqn:Hc.
    + apply andb_prop in Hc; destruct Hc.
      rewrite lookup_app_r by (rewrite length_take; lia).
      rewrite length_take.
      rewrite lookup_app_l by (rewrite length_take, length_drop; lia).
      rewrite lookup_take_lt by lia.
      rewrite lookup_drop. f_equal. lia.
    + apply andb_false_iff in Hc.
      destruct (Z_lt_le_dec (Z.of_nat i) doff).
      * rewrite lookup_app_l by (rewrite length_take; lia).
        rewrite lookup_take_lt by lia. reflexivity.
      * assert (doff + n <= Z.of_nat i) by (destruct Hc; lia).
        rewrite lookup_app_r by (rewrite length_take; lia).
        rewrite lookup_app_r
          by (rewrite !length_take, length_drop; lia).
        rewrite lookup_drop. f_equal.
        rewrite !length_take, length_drop. lia.
Qed.


Lemma mul_int_exact : exact_product mul_int.
Proof.
  intros a b o. unfold mul_int. cbv zeta.
  destruct (_ && _); congruence.
Qed.

Lemma mul_size_exact : exact_product mul_size.
Proof. intros a b o. unfold mul_size. congruence. Qed.

Lemma mul_int_fits a b :
  - 2 ^ 31 <= a * b < 2 ^ 31 -> mul_int a b = Some (a * b).
Proof.
  intros H. unfold mul_int. cbv zeta.
  destruct (Z.leb_spec (- 2 ^ 31) (a * b)); [|lia].
  destruct (Z.ltb_spec (a * b) (2 ^ 31)); [|lia].
  reflexivity.
Qed.

Lemma row_index i y s n :
  0 <= n <= s -> 0 <= i ->
  (y * s <=? i) && (i <? y * s + n) = (i / s =? y) && (i mod s <? n).
Proof.
  intros Hn Hi.
  destruct (Z.eq_dec s 0) as [->|Hs].
  - assert (n = 0) as -> by lia.
    rewrite Z.mod_0_r. replace (y * 0 + 0) with 0 by lia.
    destruct (Z.ltb_spec i 0); [lia|].
    rewrite !andb_false_r. reflexivity.
  - assert (0 < s) by lia.
    pose proof (Z.div_mod i s Hs).
    pose proof (Z.mod_pos_bound i s ltac:(lia)).
    destruct (Z.leb_spec (y * s) i), (Z.ltb_spec i (y * s + n)),
      (Z.eqb_spec (i / s) y), (Z.ltb_spec (i mod s) n);
      simpl; try reflexivity; exfalso; try nia.
Qed.

Lemma copy_rows_lookup dmul smul count : forall y0 dst dstep src sstep n r,
  exact_product dmul -> exact_product smul ->
  0 <= n <= dstep ->
  copy_rows dmul smul count y0 dst dstep src sstep (Some n) = Some r ->
  length r = length dst /\
  forall i, r !! i = copied y0 (Z.of_nat count) dstep sstep n dst src i.
Proof.
  induction count as [|c IH]; intros y0 dst dstep src sstep n r Hd Hs Hn H.
  - simpl in H. injection H as <-. split; [reflexivity|].
    intros i. unfold copied. cbv zeta.
    destruct (Z.leb_spec y0 (Z.of_nat i / dstep)),
      (Z.ltb_spec (Z.of_nat i / dstep) (y0 + Z.of_nat 0));
      simpl; try reflexivity; lia.
  - simpl in H.
    destruct (dmul y0 dstep) as [doff|] eqn:Hdo; [|discriminate].
    destruct (smul y0 sstep) as [soff|] eqn:Hso; [|discriminate].
    apply Hd in Hdo. apply Hs in Hso. subst doff soff.
    destruct (memcpy dst _ src _ n) as [dst'|] eqn:Hm; [|discriminate].
    destruct (IH _ _ _ _ _ _ _ Hd Hs Hn H) as [Hlen Hlk].
    split.
    + rewrite Hlen. exact (proj1 (memcpy_lookup _ _ _ _ _ _ 0%nat Hm)).
    + intros i. rewrite Hlk. unfold copied. cbv zeta.
      pose proof (proj2 (memcpy_lookup _ _ _ _ _ _ i Hm)) as Hi.
      rewrite (row_index (Z.of_nat i) y0 dstep n Hn ltac:(lia)) in Hi.
      rewrite Hi.
      set (q := Z.of_nat i / dstep). set (k := Z.of_nat i mod dstep).
      assert (Hik : q = y0 -> Z.of_nat i - y0 * dstep = k).
      { intros <-. unfold q, k.
        destruct (Z.eq_dec dstep 0) as [->|Hz].
        - rewrite Z.mod_0_r. lia.
        - pose proof (Z.div_mod (Z.of_nat i) dstep Hz). lia. }
      destruct (Z.leb_spec (y0 + 1) q), (Z.ltb_spec q (y0 + 1 + Z.of_nat c)),
        (Z.ltb_spec k n), (Z.eqb_spec q y0),
        (Z.leb_spec y0 q), (Z.ltb_spec q (y0 + Z.of_nat (S c)));
        simpl; try reflexivity; try lia.
      rewrite Hik by assumption. subst q. f_equal. lia.
Qed.

Lemma memcpy_defined dst doff src soff n :
  0 <= doff -> 0 <= soff -> 0 <= n ->
  doff + n <= Z.of_nat (length dst) ->
  soff + n <= Z.of_nat (length src) ->
  exists r, memcpy dst doff src soff n = Some r.
Proof.
  intros. unfold memcpy.
  destruct (Z.leb_spec 0 doff), (Z.leb_spec 0 soff), (Z.leb_spec 0 n),
    (Z.leb_spec (doff + n) (Z.of_nat (length dst))),
    (Z.leb_spec (soff + n) (Z.of_nat (length src))); try lia.
  simpl. eauto.
Qed.

Lemma copy_rows_defined dmul smul count : forall y0 dst dstep src sstep n,
  (forall y, y0 <= y < y0 + Z.of_nat count ->
     dmul y dstep = Some (y * dstep) /\ smul y sstep = Some (y * sstep)) ->
  0 <= y0 -> 0 <= n -> 0 <= dstep -> 0 <= sstep ->
  (forall y, y0 <= y < y0 + Z.of_nat count ->
     y * dstep + n <= Z.of_nat (length dst)
     /\ y * sstep + n <= Z.of_nat (length src)) ->
  exists r,
    copy_rows dmul smul count y0 dst dstep src sstep (Some n) = Some r.
Proof.
  induction count as [|c IH]; intros y0 dst dstep src sstep n Hmul Hy Hn Hd Hs Hb.
  - simpl. eauto.
  - simpl.
    destruct (Hmul y0 ltac:(lia)) as [-> ->].
    destruct (Hb y0 ltac:(lia)) as [Hb1 Hb2].
    destruct (memcpy_defined dst (y0 * dstep) src (y0 * sstep) n)
      as [dst' Hm]; try lia.
    rewrite Hm.
    apply IH; try lia.
    + intros y Hy'. apply Hmul. lia.
    + intros y Hy'.
      rewrite (proj1 (memcpy_lookup _ _ _ _ _ _ 0%nat Hm)).
      apply Hb. lia.
Qed.


Lemma fits_spec linesize frame :
  fits linesize frame = true -> fits_facts linesize frame.
Proof.
  unfold fits. intros H.
  repeat (apply andb_prop in H; destruct H as [H ?]).
  constructor; lia.
Qed.

Lemma row_offsets_int linesize frame y :
  fits_facts linesize frame -> 0 <= y < Core.height frame ->
  mul_int y linesize = Some (y * linesize)
  /\ y * linesize + Core.width frame * 3 <= Z.of_nat (length (data frame)).
Proof.
  intros [] Hy. split; [apply mul_int_fits|]; nia.
Qed.

Lemma width_int linesize frame :
  fits_facts linesize frame -> 0 < Core.height frame ->
  mul_int (Core.width frame) 3 = Some (Core.width frame * 3).
Proof. intros [] Hh. apply mul_int_fits. nia. Qed.

Lemma copied_no_rows y0 dstep sstep n dst src i :
  copied y0 0 dstep sstep n dst src i = dst !! i.
Proof.
  unfold copied. cbv zeta.
  destruct (Z.leb_spec y0 (Z.of_nat i / dstep)),
    (Z.ltb_spec (Z.of_nat i / dstep) (y0 + 0)); simpl; try reflexivity; lia.
Qed.

Lemma copy_rows_spec dmul smul h dst dstep src sstep n len :
  exact_product dmul -> exact_product smul ->
  0 <= h -> 0 <= n <= dstep -> 0 <= sstep ->
  (0 < h -> len = Some n) ->
  (forall y, 0 <= y < h ->
     (dmul y dstep = Some (y * dstep) /\ smul y sstep = Some (y * sstep))
     /\ y * dstep + n <= Z.of_nat (length dst)
     /\ y * sstep + n <= Z.of_nat (length src)) ->
  exists r,
    copy_rows dmul smul (Z.to_nat h) 0 dst dstep src sstep len = Some r
    /\ length r = length dst
    /\ forall i, r !! i = copied 0 h dstep sstep n dst src i.
Proof.
  intros Hd Hs Hh Hn Hss Hlen Hrows.
  destruct (Z.eq_dec h 0) as [->|Hpos].
  - exists dst. split; [reflexivity|]. split; [reflexivity|].
    intros i. symmetry. apply copied_no_rows.
  - rewrite Hlen by lia.
    destruct (copy_rows_defined dmul smul (Z.to_nat h) 0 dst dstep src sstep n)
      as [r Hr]; try lia.
    + intros y Hy. apply Hrows. lia.
    + intros y Hy. apply Hrows. lia.
    + exists r. split; [exact Hr|].
      destruct (copy_rows_lookup _ _ _ _ _ _ _ _ _ _ Hd Hs Hn Hr) as [Hl Hk].
      split; [exact Hl|].
      intros i. rewrite Hk. rewrite Z2Nat.id by lia. reflexivity.
Qed.

(** Index [y * s + k] lies in row [y], column [k]. *)
Lemma copied_in_row h dstep sstep n dst src y k :
  0 <= y < h -> 0 <= k < n -> n <= dstep ->
  copied 0 h dstep sstep n dst src (Z.to_nat (y * dstep + k))
  = src !! Z.to_nat (y * sstep + k).
Proof.
  intros Hy Hk Hn. unfold copied. cbv zeta.
  rewrite Z2Nat.id by nia.
  assert (Hq : (y * dstep + k) / dstep = y).
  { symmetry. apply (Z.div_unique _ dstep y k); lia. }
  assert (Hm : (y * dstep + k) mod dstep = k).
  { symmetry. apply (Z.mod_unique _ dstep y k); lia. }
  rewrite Hq, Hm.
  destruct (Z.leb_spec 0 y), (Z.ltb_spec y (0 + h)), (Z.ltb_spec k n);
    simpl; try reflexivity; lia.
Qed.

Lemma alloc_spec fresh linesize frame :
  fits_facts linesize frame ->
  Mat_alloc fresh frame
  = Some {| cv.rows := Core.height frame; cv.cols := Core.width frame;
            cv.pixels := fresh |}.
Proof.
  intros []. unfold Mat_alloc.
  destruct (Z.ltb_spec (Core.height frame) 0), (Z.ltb_spec (Core.width frame) 0);
    simpl; try reflexivity; lia.
Qed.

Lemma toMat_spec fresh linesize frame :
  fits linesize frame = true ->
  allocated_for frame fresh = true ->
  exists px,
    toMat fresh linesize frame
    = Some {| cv.rows := Core.height frame; cv.cols := Core.width frame;
              cv.pixels := px |}
    /\ length px = length fresh
    /\ forall i, px !! i
         = copied 0 (Core.height frame) (Core.width frame * 3) linesize
             (Core.width frame * 3) fresh (data frame) i.
Proof.
  intros Hf Ha. apply fits_spec in Hf.
  unfold allocated_for in Ha. apply Z.eqb_eq in Ha.
  unfold toMat. rewrite (alloc_spec _ linesize) by assumption.
  cbn [cv.pixels]. unfold step. cbn [cv.cols].
  destruct (copy_rows_spec mul_size mul_int (Core.height frame) fresh
              (Core.width frame * 3) (data frame) linesize (Core.width frame * 3)
              (mul_int (Core.width frame) 3)) as (px & -> & Hl & Hk).
  - apply mul_size_exact.
  - apply mul_int_exact.
  - apply Hf.
  - destruct Hf; lia.
  - destruct Hf; lia.
  - apply (width_int linesize). exact Hf.
  - intros y Hy. destruct (row_offsets_int linesize frame y Hf Hy).
    repeat split; try assumption. destruct Hf. nia.
  - exists px. repeat split; assumption.
Qed.

Lemma fromMat_spec img linesize frame :
  fits linesize frame = true ->
  cv.rows img = Core.height frame -> cv.cols img = Core.width frame ->
  allocated_for frame (cv.pixels img) = true ->
  exists d,
    fromMat img linesize frame
    = Some {| pts := pts frame; Core.width := Core.width frame;
              Core.height := Core.height frame; data := d |}
    /\ length d = length (data frame)
    /\ forall i, d !! i
         = copied 0 (Core.height frame) linesize (Core.width frame * 3)
             (Core.width frame * 3) (data frame) (cv.pixels img) i.
Proof.
  intros Hf Hr Hc Ha. apply fits_spec in Hf.
  unfold allocated_for in Ha. apply Z.eqb_eq in Ha.
  unfold fromMat, step. rewrite Hr, Hc.
  destruct (copy_rows_spec mul_int mul_size (Core.height frame) (data frame)
              linesize (cv.pixels img) (Core.width frame * 3) (Core.width frame * 3)
              (mul_int (Core.width frame) 3)) as (d & -> & Hl & Hk).
  - apply mul_int_exact.
  - apply mul_size_exact.
  - apply Hf.
  - destruct Hf; lia.
  - destruct Hf; lia.
  - apply (width_int linesize). exact Hf.
  - intros y Hy. destruct (row_offsets_int linesize frame y Hf Hy).
    repeat split; try assumption. destruct Hf. nia.
  - exists d. repeat split; assumption.
Qed.


Lemma copied_cases h dstep sstep n dst src i :
  0 <= n <= dstep ->
  (exists y k, 0 <= y < h /\ 0 <= k < n /\ Z.of_nat i = y * dstep + k
     /\ copied 0 h dstep sstep n dst src i = src !! Z.to_nat (y * sstep + k))
  \/ ((h <= Z.of_nat i / dstep \/ n <= Z.of_nat i mod dstep)
      /\ copied 0 h dstep sstep n dst src i = dst !! i).
Proof.
  intros Hn. unfold copied. cbv zeta.
  set (q := Z.of_nat i / dstep). set (k := Z.of_nat i mod dstep).
  destruct (Z.eq_dec dstep 0) as [Hz|Hz].
  - right. subst dstep. assert (n = 0) as -> by lia.
    unfold k. rewrite Z.mod_0_r.
    destruct (Z.ltb_spec (Z.of_nat i) 0); [lia|].
    rewrite andb_false_r. split; [right; lia|reflexivity].
  - pose proof (Z.div_mod (Z.of_nat i) dstep Hz) as Hdm.
    pose proof (Z.mod_pos_bound (Z.of_nat i) dstep ltac:(lia)) as Hb.
    assert (0 <= q) by (apply Z.div_pos; lia).
    fold q k in Hdm, Hb.
    destruct (Z.leb_spec 0 q), (Z.ltb_spec q (0 + h)), (Z.ltb_spec k n);
      simpl; try lia.
    + left. exists q, k. repeat split; try lia. 
    + right. split; [right; lia|reflexivity].
    + right. split; [left; lia|reflexivity].
    + right. split; [left; lia|reflexivity].
Qed.

(** X23. On a frame whose plane 0 holds its rows [linesize] bytes
    apart, [toMat] is defined (every [memcpy] stays inside both buffers,
    no [int] product overflows) and returns a matrix of the frame's size
    whose row [y] is the first [3 * width] bytes of row [y] of the frame:
    the row padding of the frame is not copied, and nothing of the fresh
    allocation is left in a row. *)
Theorem toMat_copies_rows fresh linesize frame :
  fits linesize frame = true ->
  allocated_for frame fresh = true ->
  exists img,
    toMat fresh linesize frame = Some img
    /\ cv.rows img = Core.height frame /\ cv.cols img = Core.width frame
    /\ length (cv.pixels img) = length fresh
    /\ forall y k, 0 <= y < Core.height frame -> 0 <= k < Core.width frame * 3 ->
         cv.pixels img !! Z.to_nat (y * step img + k)
         = data frame !! Z.to_nat (y * linesize + k).
Proof.
  intros Hf Ha.
  destruct (toMat_spec fresh linesize frame Hf Ha) as (px & -> & Hl & Hk).
  eexists. split; [reflexivity|]. cbn [cv.rows cv.cols cv.pixels].
  repeat split; try assumption.
  intros y k Hy Hkk. unfold step. cbn [cv.cols].
  rewrite Hk. apply copied_in_row; lia.
Qed.

Lemma toMat_copies_rows_witness :
  fits 8 Examples.padded_frame = true
  /\ exists img,
       toMat Examples.fresh_matrix 8 Examples.padded_frame = Some img
       /\ cv.rows img = 2 /\ cv.cols img = 2.
Proof.
  split; [reflexivity|].
  destruct (toMat_copies_rows Examples.fresh_matrix 8 Examples.padded_frame
              eq_refl eq_refl) as (img & H & Hr & Hc & _).
  exists img. repeat split; assumption.
Defined.


(** X24. [fromMat] of a matrix of the frame's size is defined, overwrites
    the first [3 * width] bytes of every row of the frame with the row of
    the matrix, and leaves every other byte of the frame's buffer (the
    row padding, and what follows the last row) as well as [pts], [width]
    and [height] as they were. *)
Theorem fromMat_writes_rows_keeps_padding img linesize frame :
  fits linesize frame = true ->
  cv.rows img = Core.height frame -> cv.cols img = Core.width frame ->
  allocated_for frame (cv.pixels img) = true ->
  exists frame',
    fromMat img linesize frame = Some frame'
    /\ (pts frame' = pts frame /\ Core.width frame' = Core.width frame
        /\ Core.height frame' = Core.height frame
        /\ length (data frame') = length (data frame))
    /\ (forall y k, 0 <= y < Core.height frame -> 0 <= k < Core.width frame * 3 ->
          data frame' !! Z.to_nat (y * linesize + k)
          = cv.pixels img !! Z.to_nat (y * step img + k))
    /\ (forall i : nat,
          Core.height frame <= Z.of_nat i / linesize
          \/ Core.width frame * 3 <= Z.of_nat i mod linesize ->
          data frame' !! i = data frame !! i).
Proof.
  intros Hf Hr Hc Ha.
  destruct (fromMat_spec img linesize frame Hf Hr Hc Ha) as (d & -> & Hl & Hk).
  pose proof (fits_spec _ _ Hf) as [].
  eexists. split; [reflexivity|]. cbn [pts Core.width Core.height data].
  split; [repeat split; assumption|]. split.
  - intros y k Hy Hkk. unfold step. rewrite Hc, Hk.
    apply copied_in_row; lia.
  - intros i Hi. rewrite Hk.
    destruct (copied_cases (Core.height frame) linesize (Core.width frame * 3)
                (Core.width frame * 3) (data frame) (cv.pixels img) i)
      as [(y & k & Hy & Hkk & Hidx & _)|[_ ->]]; [lia| |reflexivity].
    exfalso.
    assert (Z.of_nat i / linesize = y)
      by (symmetry; apply (Z.div_unique _ linesize y k); lia).
    assert (Z.of_nat i mod linesize = k)
      by (symmetry; apply (Z.mod_unique _ linesize y k); lia).
    lia.
Qed.

Lemma fromMat_writes_rows_keeps_padding_witness :
  exists frame',
    fromMat Examples.painted 8 Examples.padded_frame = Some frame'
    /\ length (data frame') = 16%nat
    /\ data frame' !! 7%nat = Some 0.
Proof.
  destruct (fromMat_writes_rows_keeps_padding Examples.painted 8
              Examples.padded_frame eq_refl eq_refl eq_refl eq_refl)
    as (frame' & H & (_ & _ & _ & Hl) & _ & Hpad).
  exists frame'. split; [exact H|]. split; [exact Hl|].
  rewrite (Hpad 7%nat); [reflexivity|]. right. vm_compute. discriminate.
Defined.


(** X25. Round trip: writing back the matrix [toMat] made of a frame
    gives the frame itself, padding included, whatever the allocation of
    the matrix held. *)
Theorem fromMat_toMat_round_trip fresh linesize frame :
  fits linesize frame = true ->
  allocated_for frame fresh = true ->
  exists img,
    toMat fresh linesize frame = Some img
    /\ fromMat img linesize frame = Some frame.
Proof.
  intros Hf Ha.
  destruct (toMat_spec fresh linesize frame Hf Ha) as (px & Ht & Hl & Hk).
  eexists. split; [exact Ht|].
  destruct (fromMat_spec
              {| cv.rows := Core.height frame; cv.cols := Core.width frame;
                 cv.pixels := px |} linesize frame Hf eq_refl eq_refl)
    as (d & -> & Hdl & Hdk).
  { unfold allocated_for in *. cbn [cv.pixels]. rewrite Hl. exact Ha. }
  pose proof (fits_spec _ _ Hf) as [].
  assert (d = data frame) as ->; [|destruct frame; reflexivity].
  apply list_eq. intros i. rewrite Hdk. cbn [cv.pixels].
  destruct (copied_cases (Core.height frame) linesize (Core.width frame * 3)
              (Core.width frame * 3) (data frame) px i)
    as [(y & k & Hy & Hkk & Hidx & ->)|[_ ->]]; [lia| |reflexivity].
  replace (Z.to_nat (y * (Core.width frame * 3) + k))
    with (Z.to_nat (y * (Core.width frame * 3) + k)) by reflexivity.
  rewrite Hk, copied_in_row by lia.
  f_equal. lia.
Qed.

Lemma fromMat_toMat_round_trip_witness :
  exists img,
    toMat Examples.fresh_matrix 8 Examples.padded_frame = Some img
    /\ fromMat img 8 Examples.padded_frame = Some Examples.padded_frame.
Proof.
  apply (fromMat_toMat_round_trip Examples.fresh_matrix 8
           Examples.padded_frame); reflexivity.
Defined.


(** X26. On a frame without row padding ([linesize = 3 * width], a
    buffer of [height] rows) the two loops copy the whole buffer:
    [toMat] and [fromMat] are the functions [FfmpegAdapter.toMat] and
    [FfmpegAdapter.fromMat] the operations are verified with. *)
Theorem packed_frame_copied_whole fresh frame img :
  fits (Core.width frame * 3) frame = true ->
  allocated_for frame (data frame) = true ->
  allocated_for frame fresh = true ->
  cv.rows img = Core.height frame -> cv.cols img = Core.width frame ->
  allocated_for frame (cv.pixels img) = true ->
  toMat fresh (Core.width frame * 3) frame = Some (FfmpegAdapter.toMat frame)
  /\ fromMat img (Core.width frame * 3) frame
     = Some (FfmpegAdapter.fromMat img frame).
Proof.
  intros Hf Hd Ha Hr Hc Hi.
  pose proof (fits_spec _ _ Hf) as [].
  unfold allocated_for in Hd, Ha, Hi.
  apply Z.eqb_eq in Hd, Ha, Hi.
  assert (Hwhole : forall dst src : list Z,
            length dst = length src ->
            Z.of_nat (length src) = Core.height frame * (Core.width frame * 3) ->
            forall i,
              copied 0 (Core.height frame) (Core.width frame * 3) (Core.width frame * 3)
                (Core.width frame * 3) dst src i = src !! i).
  { intros dst src Hlen Hsrc i.
    destruct (copied_cases (Core.height frame) (Core.width frame * 3)
                (Core.width frame * 3) (Core.width frame * 3) dst src i)
      as [(y & k & Hy & Hkk & Hidx & ->)|[Hout ->]]; [lia| |].
    - f_equal. lia.
    - rewrite !lookup_ge_None_2; [reflexivity| |].
      + destruct (Z.eq_dec (Core.width frame * 3) 0) as [Hz|Hz]; [lia|].
        pose proof (Z.mod_pos_bound (Z.of_nat i) (Core.width frame * 3)
                      ltac:(lia)).
        pose proof (Z.div_mod (Z.of_nat i) (Core.width frame * 3) Hz).
        destruct Hout; [nia|lia].
      + rewrite Hlen.
        destruct (Z.eq_dec (Core.width frame * 3) 0) as [Hz|Hz]; [lia|].
        pose proof (Z.mod_pos_bound (Z.of_nat i) (Core.width frame * 3)
                      ltac:(lia)).
        pose proof (Z.div_mod (Z.of_nat i) (Core.width frame * 3) Hz).
        destruct Hout; [nia|lia]. }
  split.
  - destruct (toMat_spec fresh _ frame Hf) as (px & -> & Hl & Hk).
    { unfold allocated_for. apply Z.eqb_eq. exact Ha. }
    unfold FfmpegAdapter.toMat. do 2 f_equal.
    apply list_eq. intros i. rewrite Hk. apply Hwhole; lia.
  - destruct (fromMat_spec img _ frame Hf Hr Hc) as (d & -> & Hl & Hk).
    { unfold allocated_for. apply Z.eqb_eq. exact Hi. }
    unfold FfmpegAdapter.fromMat. do 2 f_equal.
    apply list_eq. intros i. rewrite Hk. apply Hwhole; lia.
Qed.

Lemma packed_frame_copied_whole_witness :
  toMat Examples.fresh_matrix 6 Examples.packed_frame
  = Some (FfmpegAdapter.toMat Examples.packed_frame)
  /\ fromMat Examples.painted 6 Examples.packed_frame
     = Some (FfmpegAdapter.fromMat Examples.painted Examples.packed_frame).
Proof.
  apply (packed_frame_copied_whole Examples.fresh_matrix
           Examples.packed_frame Examples.painted); reflexivity.
Defined.

End PixelFacts.

(** ** Voiceover: from [prepare] to [finalize] *)

Module VoiceoverFacts.
Import Operations MoreVocabulary Vocabulary VideoPipelineEngine.

Section WithCollaborators.
Context (env : Collaborators).

Lemma log_lines_app a b : log_lines (a ++ b) = log_lines a ++ log_lines b.
Proof. apply List.filter_app. Qed.

Lemma log_lines_kernels log :
  Forall (fun e => exists k rect, e = EvKernel k rect) log ->
  log_lines log = [].
Proof.
  induction 1 as [|e l (k & rect & ->) _ IH]; [reflexivity|exact IH].
Qed.

Lemma process_all_no_lines ops ctx frame t :
  log_lines (process_all env ops ctx frame t).1 = [].
Proof.
  unfold process_all.
  apply (EngineFacts.wfold_i_rel
           (fun (_ : VideoContext * AVFrame) l _ => log_lines l = [])).
  - reflexivity.
  - intros _ l1 _ l2 _ H1 H2. rewrite log_lines_app, H1, H2. reflexivity.
  - intros i op st. rewrite wbind_log. cbn [tell fst snd].
    rewrite log_lines_app. cbn [log_lines List.filter is_log_line app].
    apply log_lines_kernels, EngineFacts.processFrame_log_kernels.
Qed.

Lemma process_packet_no_lines ops p ctx :
  log_lines (process_packet env ops p ctx).1 = [].
Proof.
  destruct (Z.eq_dec (stream_index p) (videoStreamIndex ctx)) as [Hv|Hv].
  - rewrite (EngineFacts.process_packet_video env ops p ctx Hv). cbn zeta.
    pose proof (EngineFacts.decodeFrame_log env ctx p av_frame_alloc) as Hd.
    cbn zeta in Hd.
    assert (Hq : log_lines
                   (FfmpegAdapter.decodeFrame env ctx p av_frame_alloc).1
                 = []).
    { rewrite Hd. destruct (videoDecoder ctx); reflexivity. }
    destruct (_ >=? 0); cbn [fst]; [|exact Hq].
    rewrite !log_lines_app, Hq, process_all_no_lines. reflexivity.
  - destruct (Z.eq_dec (stream_index p) (audioStreamIndex ctx)) as [Ha|Ha].
    + rewrite (EngineFacts.process_packet_audio env ops p ctx Hv Ha).
      reflexivity.
    + rewrite (EngineFacts.process_packet_other env ops p ctx Hv Ha).
      reflexivity.
Qed.

Lemma read_loop_no_lines ops pkts ctx :
  log_lines (read_loop env ops pkts ctx).1 = [].
Proof.
  unfold read_loop.
  apply (EngineFacts.wfold_rel (fun (_ : VideoContext) l _ => log_lines l = [])).
  - reflexivity.
  - intros _ l1 _ l2 _ H1 H2. rewrite log_lines_app, H1, H2. reflexivity.
  - intros p c. apply process_packet_no_lines.
Qed.

Lemma read_loop_keeps_voiceover ops pkts ctx :
  generatedVoiceover (read_loop env ops pkts ctx).2 = generatedVoiceover ctx.
Proof.
  destruct (RunningFacts.read_loop_context env ops pkts ctx) as [-> _].
  destruct ctx; reflexivity.
Qed.

Lemma prepare_loop_lines ops : forall i ctx,
  let body := fun (i : nat) op c => let* _ := tell (EvPrepare i) in prepare op c in
  let r := wfold_i body ops i ctx in
  log_lines r.1 = map synthesizing_line (voiceover_urls ops)
  /\ (voiceover_urls ops <> []
      \/ length (bytes (generatedVoiceover ctx)) = 1024%nat ->
      length (bytes (generatedVoiceover r.2)) = 1024%nat).
Proof.
  induction ops as [|op ops IH]; intros i ctx body r.
  - split; [reflexivity|]. intros [H|H]; [contradiction|exact H].
  - subst r body. rewrite wfold_i_cons. cbn [fst snd].
    rewrite wbind_log, wbind_val. cbn [tell fst snd].
    destruct (IH (S i) (prepare op ctx).2) as [Hl Hg].
    cbn zeta in Hl, Hg.
    split.
    + rewrite log_lines_app, Hl.
      cbn [voiceover_urls flat_map]. rewrite map_app. f_equal.
      destruct op; reflexivity.
    + intros H. apply Hg.
      destruct op; cbn [voiceover_urls flat_map app] in H;
        try (destruct H as [H|H]; [left; exact H|right; exact H]).
      right. reflexivity.
Qed.

Lemma finalize_loop_lines ops : forall i ctx,
  let body := fun (i : nat) op c => let* _ := tell (EvFinalize i) in finalize op c in
  let r := wfold_i body ops i ctx in
  log_lines r.1
  = map (fun _ => replacing_line
                    (Z.of_nat (length (bytes (generatedVoiceover ctx)))))
        (voiceover_urls ops)
  /\ generatedVoiceover r.2 = generatedVoiceover ctx.
Proof.
  induction ops as [|op ops IH]; intros i ctx body r.
  - split; reflexivity.
  - subst r body. rewrite wfold_i_cons. cbn [fst snd].
    rewrite wbind_log, wbind_val. cbn [tell fst snd].
    destruct (IH (S i) (finalize op ctx).2) as [Hl Hg].
    cbn zeta in Hl, Hg.
    assert (Hk : generatedVoiceover (finalize op ctx).2
                 = generatedVoiceover ctx)
      by (destruct op; reflexivity).
    rewrite Hk in Hl, Hg.
    split; [|exact Hg].
    rewrite log_lines_app, Hl.
    cbn [voiceover_urls flat_map]. rewrite map_app. f_equal.
    destruct op; reflexivity.
Qed.

(** X27. The lines [processFrames] logs are those of the voiceover
    operations of the chain: in the prepare phase one "Synthesizing"
    line per voiceover operation, in chain order, naming its service;
    after the last packet one "Replacing audio track" line per voiceover
    operation, each reporting the 1024 bytes [prepare] synthesized,
    whatever the session held before and whatever the other operations
    and the packets are. Nothing else of the phase is logged. *)
Theorem processFrames_log_lines (ops : list IVideoOperation)
    (ctx : VideoContext) :
  log_lines (processFrames env ops ctx).1
  = map synthesizing_line (voiceover_urls ops)
    ++ map (fun _ => replacing_line 1024) (voiceover_urls ops).
Proof.
  rewrite EngineFacts.processFrames_eq. cbn zeta. cbn [fst].
  rewrite !log_lines_app, read_loop_no_lines.
  change (log_lines (EvFlushEncoder :: ?l)) with (log_lines l).
  destruct (prepare_loop_lines ops 0%nat ctx) as [Hp Hg].
  cbn zeta in Hp, Hg. fold (prepare_all ops ctx) in Hp, Hg.
  rewrite Hp. cbn [app]. f_equal.
  destruct (finalize_loop_lines ops 0%nat
              (read_loop env ops (input_packets (prepare_all ops ctx).2)
                 (prepare_all ops ctx).2).2) as [Hf _].
  cbn zeta in Hf. unfold finalize_all. rewrite Hf.
  rewrite read_loop_keeps_voiceover.
  destruct (voiceover_urls ops) as [|u us] eqn:Hu; [reflexivity|].
  rewrite Hg by (left; discriminate). reflexivity.
Qed.

End WithCollaborators.
End VoiceoverFacts.
